(** * djs-kt: a shared JSON document owned by the primary process

    A shallow embedding of [djs.ts] (the document authority, its message
    dispatcher and the worker proxy), of [utils/lockMethod] and of
    [utils/recursiveSelect], together with the properties of the
    specification that were checked against them.

    The JavaScript heap is explicit: object and array values are references
    into a heap, so that the in-place updates of the source
    ([target[key] = value], [target.push(value)], ...) and the identity
    comparisons ([ti === item]) are what they are in the program.

    What the model leaves out: numbers are the integers; the order of the
    properties of an object is not tracked; members inherited from a
    prototype are not there; a stored text is held as the JSON tree it
    denotes; timers act only through what other code does while a
    polling loop sleeps.  An [async] function is a function of the state
    that returns or throws; the first part of the file gives what a call
    does when nothing else runs between its steps, and the part on calls in
    flight makes the suspension points of [lockMethod] explicit. *)

From Stdlib Require Import ZArith Ascii.
From stdpp Require Import base option list gmap strings pretty.

(** ** JavaScript values and the heap *)

Definition addr := nat.

Inductive Val : Type :=
| VUndefined
| VNull
| VBool (b : bool)
| VNum (n : Z)
| VStr (s : string)
| VRef (a : addr).

#[global] Instance Val_eq_dec : EqDecision Val.
Proof. solve_decision. Defined.

(** A heap cell is a plain object or an array.  An array carries its
    elements and, as in JavaScript, whatever named properties were written
    on it; a hole of a sparse array is held as [VUndefined]. *)
Inductive HObj : Type :=
| HRecord (props : gmap string Val)
| HArray (elems : list Val) (props : gmap string Val).

#[global] Instance HObj_eq_dec : EqDecision HObj.
Proof. solve_decision. Defined.

Abbreviation Heap := (list HObj).

Definition alloc (o : HObj) (h : Heap) : addr * Heap := (length h, h ++ [o]).

(** What a statement or a promise ends in. *)
Inductive Exn : Type :=
| Error (msg : string)
| TypeError (msg : string)
| RangeError (msg : string)
| ReferenceError (msg : string)
| Rejection (reason : string).

Inductive Outcome (A : Type) : Type :=
| Ok (a : A)
| Throw (e : Exn).
Arguments Ok {A} a.
Arguments Throw {A} e.

Definition typeof (v : Val) : string :=
  match v with
  | VUndefined => "undefined"
  | VNull => "object"
  | VBool _ => "boolean"
  | VNum _ => "number"
  | VStr _ => "string"
  | VRef _ => "object"
  end.

(** [!!v] *)
Definition truthy (v : Val) : bool :=
  match v with
  | VUndefined | VNull => false
  | VBool b => b
  | VNum n => negb (n =? 0)%Z
  | VStr s => negb (String.eqb s "")
  | VRef _ => true
  end.

Definition isArray (h : Heap) (v : Val) : bool :=
  match v with
  | VRef a => match h !! a with Some (HArray _ _) => true | _ => false end
  | _ => false
  end.

(** *** Property keys *)

Fixpoint digits_value (s : string) (acc : N) : option N :=
  match s with
  | EmptyString => Some acc
  | String c s' =>
      let d := N_of_ascii c in
      if ((48 <=? d) && (d <=? 57))%N
      then digits_value s' (acc * 10 + (d - 48))%N
      else None
  end.

(** A key is an array index when it is the canonical decimal numeral of an
    integer below 2^32 - 1. *)
Definition array_index (k : string) : option nat :=
  match k with
  | EmptyString => None
  | _ =>
      match digits_value k 0 with
      | Some n =>
          if decide (pretty n = k) then
            if (n <? 4294967295)%N then Some (N.to_nat n) else None
          else None
      | None => None
      end
  end.

Definition string_at (s : string) (i : nat) : Val :=
  match String.get i s with
  | Some c => VStr (String c EmptyString)
  | None => VUndefined
  end.

(** [v[k]]: reading a property.  Reading from [undefined] or [null] throws;
    members inherited from a prototype are not modelled. *)
Definition get_prop (h : Heap) (v : Val) (k : string) : Outcome Val :=
  match v with
  | VUndefined => Throw (TypeError "Cannot read properties of undefined")
  | VNull => Throw (TypeError "Cannot read properties of null")
  | VBool _ | VNum _ => Ok VUndefined
  | VStr s =>
      if String.eqb k "length" then Ok (VNum (Z.of_nat (String.length s)))
      else match array_index k with
           | Some i => Ok (string_at s i)
           | None => Ok VUndefined
           end
  | VRef a =>
      match h !! a with
      | Some (HRecord props) => Ok (default VUndefined (props !! k))
      | Some (HArray elems props) =>
          if String.eqb k "length" then Ok (VNum (Z.of_nat (length elems)))
          else match array_index k with
               | Some i => Ok (default VUndefined (elems !! i))
               | None => Ok (default VUndefined (props !! k))
               end
      | None => Ok VUndefined
      end
  end.

(** *** Coercions and the two equalities *)

(** [ToNumber] on a string, for the numerals the model covers: the empty
    string and signed decimal integers.  Any other text (padding, fractions,
    exponents, other radices) counts as [NaN], here [None]. *)
Definition StringToNumber (s : string) : option Z :=
  match s with
  | EmptyString => Some 0%Z
  | String "-"%char (String _ _ as r) => (fun n => (- Z.of_N n)%Z) <$> digits_value r 0
  | String "+"%char (String _ _ as r) => Z.of_N <$> digits_value r 0
  | _ => Z.of_N <$> digits_value s 0
  end.

Definition join_with (sep : string) (l : list string) : string :=
  match l with
  | [] => ""
  | x :: r => fold_left (fun acc y => acc +:+ sep +:+ y) r x
  end.

(** [String(v)]; an array is the join of its elements, a plain object is
    ["[object Object]"].  The fuel bounds the nesting, and a reference met
    after it ran out (a cycle) contributes the empty string, as [join]
    does on a cycle. *)
Fixpoint to_string (fuel : nat) (h : Heap) (v : Val) : string :=
  match v with
  | VUndefined => "undefined"
  | VNull => "null"
  | VBool b => if b then "true" else "false"
  | VNum n => pretty n
  | VStr s => s
  | VRef a =>
      match fuel with
      | O => ""
      | S fuel' =>
          match h !! a with
          | Some (HArray elems _) =>
              join_with ","
                (map (fun e => match e with
                               | VUndefined | VNull => ""
                               | _ => to_string fuel' h e
                               end) elems)
          | _ => "[object Object]"
          end
      end
  end.

Definition ToPrimitive (h : Heap) (v : Val) : Val :=
  match v with
  | VRef _ => VStr (to_string (S (length h)) h v)
  | _ => v
  end.

(** [ToNumber]; [None] is [NaN]. *)
Definition ToNumber (h : Heap) (v : Val) : option Z :=
  match ToPrimitive h v with
  | VUndefined => None
  | VNull => Some 0%Z
  | VBool b => Some (if b then 1 else 0)%Z
  | VNum n => Some n
  | VStr s => StringToNumber s
  | VRef _ => None
  end.

(** [x === y] *)
Definition strict_eq (x y : Val) : bool := bool_decide (x = y).

Definition nullish (v : Val) : bool :=
  match v with VUndefined | VNull => true | _ => false end.

(** [x == y] *)
Definition loose_eq (h : Heap) (x y : Val) : bool :=
  if String.eqb (typeof x) (typeof y) && negb (nullish x || nullish y) then strict_eq x y
  else if nullish x || nullish y then nullish x && nullish y
  else
    match ToPrimitive h x, ToPrimitive h y with
    | VStr a, VStr b => String.eqb a b
    | px, py =>
        match ToNumber h px, ToNumber h py with
        | Some a, Some b => (a =? b)%Z
        | _, _ => false
        end
    end.

(** *** Writing a property: [target[key] = value] on an object

    The key is written as a member of the object itself.  That is what
    JavaScript does for every key but [__proto__], which it takes for the
    prototype of the object; the statements below leave that key out. *)

Definition resize (n : nat) (l : list Val) : list Val :=
  take n l ++ replicate (n - length l) VUndefined.

Definition set_prop (h : Heap) (a : addr) (k : string) (v : Val) : Outcome Heap :=
  match h !! a with
  | Some (HRecord props) => Ok (<[a := HRecord (<[k := v]> props)]> h)
  | Some (HArray elems props) =>
      if String.eqb k "length" then
        match ToNumber h v with
        | Some n =>
            if ((0 <=? n) && (n <? 4294967296))%Z
            then Ok (<[a := HArray (resize (Z.to_nat n) elems) props]> h)
            else Throw (RangeError "Invalid array length")
        | None => Throw (RangeError "Invalid array length")
        end
      else
        match array_index k with
        | Some i => Ok (<[a := HArray (<[i := v]> (resize (Nat.max (S i) (length elems)) elems)) props]> h)
        | None => Ok (<[a := HArray elems (<[k := v]> props)]> h)
        end
  | None => Ok h
  end.

(** *** Array methods *)

(** [Array.prototype.splice(start, deleteCount)] on the element list: the
    removed elements and what stays. *)
Definition splice_list (l : list Val) (start deleteCount : Z) : list Val * list Val :=
  let len := Z.of_nat (length l) in
  let actualStart := if (start <? 0)%Z then Z.max (len + start) 0 else Z.min start len in
  let actualDeleteCount := Z.min (Z.max deleteCount 0) (len - actualStart) in
  let s := Z.to_nat actualStart in
  let d := Z.to_nat actualDeleteCount in
  (take d (drop s l), take s l ++ drop (s + d) l).

(** [Array.prototype.findIndex]: the index of the first element the
    callback accepts, or [-1]; a callback that throws ends the search. *)
Fixpoint findIndex_from (f : Val -> Outcome bool) (l : list Val) (i : Z) : Outcome Z :=
  match l with
  | [] => Ok (-1)%Z
  | x :: r =>
      match f x with
      | Throw e => Throw e
      | Ok true => Ok i
      | Ok false => findIndex_from f r (i + 1)%Z
      end
  end.

Definition findIndex (f : Val -> Outcome bool) (l : list Val) : Outcome Z :=
  findIndex_from f l 0%Z.

(** ** utils/recursiveSelect *)

Inductive Selector : Type :=
| SelString (s : string)
| SelArray (l : list string)
| SelNull
| SelUndefined.

(** [s.split(sep)] *)
Fixpoint split_on (sep : ascii) (s : string) : list string :=
  match s with
  | EmptyString => [EmptyString]
  | String c r =>
      if Ascii.eqb c sep then EmptyString :: split_on sep r
      else match split_on sep r with
           | [] => [String c EmptyString]
           | w :: ws => String c w :: ws
           end
  end.

(** The segments [recursiveSelect] walks: a string selector is split on
    dots and its empty pieces are dropped; a missing selector has none. *)
Definition selector_segments (selector : Selector) : list string :=
  match selector with
  | SelString s => filter (fun x => x ≠ "") (split_on "."%char s)
  | SelArray l => l
  | SelNull | SelUndefined => []
  end.

(** [recursiveSelect(selector.slice(1), obj[selector[0]])] under its
    [try]: a read that throws gives [undefined]. *)
Fixpoint select_path (path : list string) (h : Heap) (obj : Val) : Val :=
  match path with
  | [] => obj
  | k :: rest =>
      match get_prop h obj k with
      | Ok v => select_path rest h v
      | Throw _ => VUndefined
      end
  end.

Definition recursiveSelect (selector : Selector) (h : Heap) (obj : Val) : Val :=
  select_path (selector_segments selector) h obj.

Definition rs := recursiveSelect.

(** [selector || []] *)
Definition selector_or_empty (selector : Selector) : Selector :=
  match selector with
  | SelString s => if String.eqb s "" then SelArray [] else selector
  | SelArray _ => selector
  | SelNull | SelUndefined => SelArray []
  end.

(** ** JSON text

    What [fs.writeFile] and [redisClient.set] store is the text that
    [JSON.stringify] produced.  The text is held as the tree it denotes
    ([Json]); [JSON_stringify] builds the tree of a heap value,
    [JSON_parse] allocates the value of a tree, and [JSON_text] spells the
    tree out where the program handles the raw text as a string. *)

#[local] Set Warnings "-register-all".

Inductive Json : Type :=
| JNull
| JBool (b : bool)
| JNum (n : Z)
| JStr (s : string)
| JArr (items : list Json)
| JObj (fields : list (string * Json)).

Fixpoint collect {A B : Type} (f : A -> Outcome B) (l : list A) : Outcome (list B) :=
  match l with
  | [] => Ok []
  | x :: r =>
      match f x with
      | Throw e => Throw e
      | Ok y => match collect f r with
                | Throw e => Throw e
                | Ok ys => Ok (y :: ys)
                end
      end
  end.

(** [None] is the [undefined] that [JSON.stringify] gives for a value with
    no JSON form.  Inside an array such a value is written [null], inside
    an object its property is left out. *)
Fixpoint serialize (fuel : nat) (h : Heap) (v : Val) : Outcome (option Json) :=
  match v with
  | VUndefined => Ok None
  | VNull => Ok (Some JNull)
  | VBool b => Ok (Some (JBool b))
  | VNum n => Ok (Some (JNum n))
  | VStr s => Ok (Some (JStr s))
  | VRef a =>
      match fuel with
      | O => Throw (TypeError "Converting circular structure to JSON")
      | S fuel' =>
          match h !! a with
          | Some (HRecord props) =>
              match collect (fun kv => match serialize fuel' h kv.2 with
                                       | Ok j => Ok (kv.1, j)
                                       | Throw e => Throw e
                                       end) (map_to_list props) with
              | Ok fs => Ok (Some (JObj (omap (fun kj => match kj.2 with
                                                         | Some j => Some (kj.1, j)
                                                         | None => None
                                                         end) fs)))
              | Throw e => Throw e
              end
          | Some (HArray elems _) =>
              match collect (serialize fuel' h) elems with
              | Ok js => Ok (Some (JArr (map (default JNull) js)))
              | Throw e => Throw e
              end
          | None => Ok None
          end
      end
  end.

(** A chain of distinct cells is no longer than the heap, so running out
    of fuel means the value reaches itself. *)
Definition JSON_stringify (h : Heap) (v : Val) : Outcome (option Json) :=
  serialize (S (length h)) h v.

Fixpoint JSON_parse (j : Json) (h : Heap) : Val * Heap :=
  match j with
  | JNull => (VNull, h)
  | JBool b => (VBool b, h)
  | JNum n => (VNum n, h)
  | JStr s => (VStr s, h)
  | JArr items =>
      let '(vs, h1) :=
        (fix parse_items (l : list Json) (h : Heap) : list Val * Heap :=
           match l with
           | [] => ([], h)
           | x :: r =>
               let '(v, h1) := JSON_parse x h in
               let '(vs, h2) := parse_items r h1 in
               (v :: vs, h2)
           end) items h in
      let '(a, h2) := alloc (HArray vs ∅) h1 in
      (VRef a, h2)
  | JObj fields =>
      let '(props, h1) :=
        (fix parse_fields (l : list (string * Json)) (h : Heap) : gmap string Val * Heap :=
           match l with
           | [] => (∅, h)
           | (k, x) :: r =>
               let '(v, h1) := JSON_parse x h in
               let '(m, h2) := parse_fields r h1 in
               (<[k := v]> m, h2)
           end) fields h in
      let '(a, h2) := alloc (HRecord props) h1 in
      (VRef a, h2)
  end.

Definition hex_digit (n : N) : ascii :=
  ascii_of_N (if (n <? 10)%N then 48 + n else 87 + n)%N.

Definition dquote : string := String (ascii_of_N 34) EmptyString.

Definition escape_char (c : ascii) : string :=
  let n := N_of_ascii c in
  if (n =? 34)%N then "\" +:+ dquote
  else if (n =? 92)%N then "\\"
  else if (n =? 8)%N then "\b"
  else if (n =? 9)%N then "\t"
  else if (n =? 10)%N then "\n"
  else if (n =? 12)%N then "\f"
  else if (n =? 13)%N then "\r"
  else if (n <? 32)%N then "\u00" +:+ String (hex_digit (n / 16)) (String (hex_digit (n mod 16)) "")
  else String c "".

Fixpoint quote_body (s : string) : string :=
  match s with
  | EmptyString => ""
  | String c r => escape_char c +:+ quote_body r
  end.

Definition quote (s : string) : string := dquote +:+ quote_body s +:+ dquote.

Fixpoint JSON_text (j : Json) : string :=
  match j with
  | JNull => "null"
  | JBool b => if b then "true" else "false"
  | JNum n => pretty n
  | JStr s => quote s
  | JArr items => "[" +:+ join_with "," (map JSON_text items) +:+ "]"
  | JObj fields =>
      "{" +:+ join_with "," (map (fun kj => quote kj.1 +:+ ":" +:+ JSON_text kj.2) fields) +:+ "}"
  end.

(** ** The authority process: its state and its effects *)

Inductive SourceType : Type :=
| JsonFile (fileFullPath : string)
| Redis (uniqueIdentifier : string)
| InMemory (uniqueIdentifier : string).

Inductive LogEntry : Type :=
| Log (msg : string)
| LogError (e : Exn).

(** What [worker.send] carries back: [{queryId, finished: true, result}] or
    [{queryId, finished: true, error}]. *)
Record Response : Type := mkResponse {
  queryId : Z;
  finished : bool;
  payload : Outcome Val
}.

(** The state one document lives in: the heap of the primary process, the
    file system, the external store, the lock tables, the console, the
    messages sent to workers, and the variables that the closure of
    [makeDynamicJson] shares between its functions. *)
Record State : Type := mkState {
  heap : Heap;
  files : gmap string Json;
  redis_store : gmap string Json;
  redis_locks : gmap string string;
  minted : nat;
  mutex : gset string;
  console : list LogEntry;
  outbox : list (nat * Response);
  inMemory : Val;
  redisLockId : option string;
  lockId : option Z;
  lockIdTimer : option Z;
  primaryLock_locked : bool;
  primaryLock_timeout : option Z
}.

Definition with_heap (h : Heap) (s : State) : State :=
  {| heap := h; files := files s; redis_store := redis_store s;
    redis_locks := redis_locks s; minted := minted s; mutex := mutex s;
    console := console s; outbox := outbox s; inMemory := inMemory s;
    redisLockId := redisLockId s; lockId := lockId s;
    lockIdTimer := lockIdTimer s; primaryLock_locked := primaryLock_locked s;
    primaryLock_timeout := primaryLock_timeout s |}.

Definition with_files (f : gmap string Json) (s : State) : State :=
  {| heap := heap s; files := f; redis_store := redis_store s;
    redis_locks := redis_locks s; minted := minted s; mutex := mutex s;
    console := console s; outbox := outbox s; inMemory := inMemory s;
    redisLockId := redisLockId s; lockId := lockId s;
    lockIdTimer := lockIdTimer s; primaryLock_locked := primaryLock_locked s;
    primaryLock_timeout := primaryLock_timeout s |}.

Definition with_redis_store (r : gmap string Json) (s : State) : State :=
  {| heap := heap s; files := files s; redis_store := r; redis_locks := redis_locks s;
    minted := minted s; mutex := mutex s; console := console s;
    outbox := outbox s; inMemory := inMemory s; redisLockId := redisLockId s;
    lockId := lockId s; lockIdTimer := lockIdTimer s;
    primaryLock_locked := primaryLock_locked s;
    primaryLock_timeout := primaryLock_timeout s |}.

Definition with_redis_locks (l : gmap string string) (n : nat) (s : State) : State :=
  {| heap := heap s; files := files s; redis_store := redis_store s; redis_locks := l;
    minted := n; mutex := mutex s; console := console s; outbox := outbox s;
    inMemory := inMemory s; redisLockId := redisLockId s; lockId := lockId s;
    lockIdTimer := lockIdTimer s; primaryLock_locked := primaryLock_locked s;
    primaryLock_timeout := primaryLock_timeout s |}.

Definition with_mutex (m : gset string) (s : State) : State :=
  {| heap := heap s; files := files s; redis_store := redis_store s;
    redis_locks := redis_locks s; minted := minted s; mutex := m;
    console := console s; outbox := outbox s; inMemory := inMemory s;
    redisLockId := redisLockId s; lockId := lockId s;
    lockIdTimer := lockIdTimer s; primaryLock_locked := primaryLock_locked s;
    primaryLock_timeout := primaryLock_timeout s |}.

Definition with_console (c : list LogEntry) (s : State) : State :=
  {| heap := heap s; files := files s; redis_store := redis_store s;
    redis_locks := redis_locks s; minted := minted s; mutex := mutex s;
    console := c; outbox := outbox s; inMemory := inMemory s;
    redisLockId := redisLockId s; lockId := lockId s;
    lockIdTimer := lockIdTimer s; primaryLock_locked := primaryLock_locked s;
    primaryLock_timeout := primaryLock_timeout s |}.

Definition with_outbox (o : list (nat * Response)) (s : State) : State :=
  {| heap := heap s; files := files s; redis_store := redis_store s;
    redis_locks := redis_locks s; minted := minted s; mutex := mutex s;
    console := console s; outbox := o; inMemory := inMemory s;
    redisLockId := redisLockId s; lockId := lockId s;
    lockIdTimer := lockIdTimer s; primaryLock_locked := primaryLock_locked s;
    primaryLock_timeout := primaryLock_timeout s |}.

Definition with_inMemory (v : Val) (s : State) : State :=
  {| heap := heap s; files := files s; redis_store := redis_store s;
    redis_locks := redis_locks s; minted := minted s; mutex := mutex s;
    console := console s; outbox := outbox s; inMemory := v;
    redisLockId := redisLockId s; lockId := lockId s;
    lockIdTimer := lockIdTimer s; primaryLock_locked := primaryLock_locked s;
    primaryLock_timeout := primaryLock_timeout s |}.

Definition with_redisLockId (t : option string) (s : State) : State :=
  {| heap := heap s; files := files s; redis_store := redis_store s;
    redis_locks := redis_locks s; minted := minted s; mutex := mutex s;
    console := console s; outbox := outbox s; inMemory := inMemory s;
    redisLockId := t; lockId := lockId s; lockIdTimer := lockIdTimer s;
    primaryLock_locked := primaryLock_locked s;
    primaryLock_timeout := primaryLock_timeout s |}.

Definition with_lockId (l : option Z) (timer : option Z) (s : State) : State :=
  {| heap := heap s; files := files s; redis_store := redis_store s;
    redis_locks := redis_locks s; minted := minted s; mutex := mutex s;
    console := console s; outbox := outbox s; inMemory := inMemory s;
    redisLockId := redisLockId s; lockId := l; lockIdTimer := timer;
    primaryLock_locked := primaryLock_locked s;
    primaryLock_timeout := primaryLock_timeout s |}.

Definition with_primaryLock (b : bool) (timer : option Z) (s : State) : State :=
  {| heap := heap s; files := files s; redis_store := redis_store s;
    redis_locks := redis_locks s; minted := minted s; mutex := mutex s;
    console := console s; outbox := outbox s; inMemory := inMemory s;
    redisLockId := redisLockId s; lockId := lockId s;
    lockIdTimer := lockIdTimer s; primaryLock_locked := b;
    primaryLock_timeout := timer |}.

(** Code that runs against a state and returns or throws; for an [async]
    function, the value its promise resolves to or the error it rejects
    with.  A state change made before a throw stays. *)
Definition Eff (S A : Type) : Type := S -> Outcome A * S.

Abbreviation M := (Eff State).

Definition ret {S A : Type} (a : A) : Eff S A := fun s => (Ok a, s).
Definition throw {S A : Type} (e : Exn) : Eff S A := fun s => (Throw e, s).
Definition bind {S A B : Type} (m : Eff S A) (k : A -> Eff S B) : Eff S B :=
  fun s => match m s with
           | (Ok a, s') => k a s'
           | (Throw e, s') => (Throw e, s')
           end.

Declare Scope js_scope.
Delimit Scope js_scope with js.
Notation "x <- m ;; k" := (bind m (fun x => k))
  (at level 100, m at next level, right associativity) : js_scope.
Notation "m ;; k" := (bind m (fun _ => k))
  (at level 100, right associativity) : js_scope.
Open Scope js_scope.

Definition gets {S A : Type} (f : S -> A) : Eff S A := fun s => (Ok (f s), s).
Definition modify {S : Type} (f : S -> S) : Eff S unit := fun s => (Ok tt, f s).

(** [try { m } catch (error) { handler error }] *)
Definition try_catch {S A : Type} (m : Eff S A) (handler : Exn -> Eff S A) : Eff S A :=
  fun s => match m s with
           | (Ok a, s') => (Ok a, s')
           | (Throw e, s') => handler e s'
           end.

(** [try { m } finally { f }] *)
Definition try_finally {S A : Type} (m : Eff S A) (f : Eff S unit) : Eff S A :=
  fun s => match m s with
           | (r, s') => match f s' with
                        | (Ok _, s'') => (r, s'')
                        | (Throw e, s'') => (Throw e, s'')
                        end
           end.

(** A call to an [async] function whose promise is not awaited: the caller
    goes on at once and never sees what the promise settles to, neither a
    result nor a rejection.  The callee's effects take place, here on the
    spot; in the program a write to a file or to the store that the callee
    awaits lands some time after the caller went on. *)
Definition detached {S A : Type} (m : Eff S A) : Eff S unit :=
  fun s => (Ok tt, (m s).2).

(** What the caller of an [async] function holds once the promise has
    settled. *)
Inductive Promise (A : Type) : Type :=
| Fulfilled (a : A)
| Rejected (e : Exn).
Arguments Fulfilled {A} a.
Arguments Rejected {A} e.

(** The call of an [async] function, seen from the caller.  Whatever the
    body does, the call itself throws nothing: it returns a promise, and
    what the body returns or throws settles that promise.  An error of the
    body reaches the caller only where the promise is awaited. *)
Definition async_call {S A : Type} (body : Eff S A) : Eff S (Promise A) :=
  fun s => match body s with
           | (Ok a, s') => (Ok (Fulfilled a), s')
           | (Throw e, s') => (Ok (Rejected e), s')
           end.

(** [await p] *)
Definition await {S A : Type} (p : Promise A) : Eff S A :=
  match p with
  | Fulfilled a => ret a
  | Rejected e => throw e
  end.

Definition console_log (msg : string) : M unit :=
  modify (fun s => with_console (console s ++ [Log msg]) s).
Definition console_error (e : Exn) : M unit :=
  modify (fun s => with_console (console s ++ [LogError e]) s).

Definition new_object (o : HObj) : M Val :=
  fun s => let '(a, h) := alloc o (heap s) in (Ok (VRef a), with_heap h s).

(** *** fs/promises *)

Definition fs_exists (path : string) : M bool :=
  gets (fun s => bool_decide (is_Some (files s !! path))).

Definition fs_readFile (path : string) : M Json :=
  fun s => match files s !! path with
           | Some text => (Ok text, s)
           | None => (Throw (Error ("ENOENT: no such file or directory, open " +:+ path)), s)
           end.

(** [fs.writeFile(path, JSON.stringify(data))]; it rejects when there is
    no text to write. *)
Definition fs_writeFile (path : string) (text : option Json) : M unit :=
  match text with
  | Some t => modify (fun s => with_files (<[path := t]> (files s)) s)
  | None => throw (TypeError "The data argument must be of type string")
  end.

(** *** The store client *)

Definition redis_get (key : string) : M Val :=
  gets (fun s => match redis_store s !! key with
                 | Some text => VStr (JSON_text text)
                 | None => VNull
                 end).

Definition redis_set (key : string) (text : option Json) : M unit :=
  match text with
  | Some t => modify (fun s => with_redis_store (<[key := t]> (redis_store s)) s)
  | None => throw (TypeError "Invalid argument")
  end.

Definition stringify (v : Val) : M (option Json) :=
  fun s => (JSON_stringify (heap s) v, s).

Definition parse (text : Json) : M Val :=
  fun s => let '(v, h) := JSON_parse text (heap s) in (Ok v, with_heap h s).

(** *** redis/lock *)

(** Modelled from the spec: the class [DistributedLock] of [redis/lock] is
    not among the sources.  The specification gives its contract,
    [acquire(name) -> token] and [release(name, token)]: a name is held
    under one token at a time, and [acquire] of a held name yields no
    token. *)
Definition DistributedLock_acquire (name : string) : M (option string) :=
  fun s => match redis_locks s !! name with
           | Some _ => (Ok None, s)
           | None =>
               let token := "token-" +:+ pretty (minted s) in
               (Ok (Some token), with_redis_locks (<[name := token]> (redis_locks s)) (S (minted s)) s)
           end.

(** Modelled from the spec: [release(name, token)] of the same class, which
    is not among the sources; it frees the name for the token that holds
    it. *)
Definition DistributedLock_release (name token : string) : M unit :=
  modify (fun s => if decide (redis_locks s !! name = Some token)
                   then with_redis_locks (delete name (redis_locks s)) (minted s) s
                   else s).

(** *** async-lock, as [utils/lockMethod] uses it

    [lock.acquire(lockName, fn, {timeout})] runs [fn] while no other holder
    of [lockName] runs.  Seen from one call that nothing else overtakes,
    a free name is taken, held while [fn] runs and freed; a name that is
    held stays held, and the acquisition fails when its timeout is up. *)
Definition AsyncLock_acquire {A : Type} (lockName : string) (fn : M A) : M A :=
  held <- gets (fun s => bool_decide (lockName ∈ mutex s)) ;;
  if held : bool then throw (Error ("async-lock timed out in queue " +:+ lockName))
  else
    modify (fun s => with_mutex ({[lockName]} ∪ mutex s) s) ;;
    try_finally fn (modify (fun s => with_mutex (mutex s ∖ {[lockName]}) s)).

(** ** utils/lockMethod *)

(** The promise [lockMethod] returns resolves with what [originalMethod]
    resolved to, and rejects with its error or with the lock's. *)
Definition LockMethod {T : Type} (method : T -> M Val) (lockName : string) (lockTimeout : Z)
  : T -> M Val :=
  fun args => AsyncLock_acquire lockName (method args).

(** ** djs.ts, primary process: the document operations *)

(** [key?: string | number] of [removeItemFromArray] and
    [updateItemInArray]. *)
Inductive Key : Type :=
| KeyUndefined
| KeyString (s : string)
| KeyNumber (n : Z).

(** [!!key] *)
Definition key_given (key : Key) : bool :=
  match key with
  | KeyUndefined => false
  | KeyString s => negb (String.eqb s "")
  | KeyNumber n => negb (n =? 0)%Z
  end.

Definition key_name (key : Key) : string :=
  match key with
  | KeyUndefined => "undefined"
  | KeyString s => s
  | KeyNumber n => pretty n
  end.

Inductive UpdateType : Type := TPush | TUnshift | TSet.

Record JsonUpdateQuery : Type := mkQuery {
  q_type : UpdateType;
  q_selector : Selector;
  q_key : string;
  q_value : Val
}.

Definition lift {A : Type} (o : Outcome A) : M A := fun s => (o, s).

(** [target[key] = value] *)
Definition assign (target : Val) (key : string) (value : Val) : M unit :=
  match target with
  | VRef a =>
      fun s => match set_prop (heap s) a key value with
               | Ok h => (Ok tt, with_heap h s)
               | Throw e => (Throw e, s)
               end
  | _ => throw (TypeError ("Cannot create property " +:+ key))
  end.

Definition array_elems (h : Heap) (target : Val) : list Val :=
  match target with
  | VRef a => match h !! a with Some (HArray elems _) => elems | _ => [] end
  | _ => []
  end.

(** Replaces the elements of the array [target] refers to. *)
Definition set_elements (target : Val) (elems : list Val) : M unit :=
  modify (fun s =>
    match target with
    | VRef a =>
        match heap s !! a with
        | Some (HArray _ props) => with_heap (<[a := HArray elems props]> (heap s)) s
        | _ => s
        end
    | _ => s
    end).

(** The own enumerable properties that [{...v}] copies from an object (or
    from [null], which has none). *)
Definition spread (h : Heap) (v : Val) : gmap string Val :=
  match v with
  | VRef a =>
      match h !! a with
      | Some (HRecord props) => props
      | Some (HArray elems props) =>
          list_to_map (imap (fun i e => (pretty i, e)) elems) ∪ props
      | None => ∅
      end
  | _ => ∅
  end.

(** What a read of the source brings back: a value (the variable
    [inMemory], or the string or [null] of the store), the text of the
    file, or nothing where there is no file and no client. *)
Inductive Raw : Type :=
| RawValue (v : Val)
| RawText (text : Json)
| RawNothing.

Section Authority.

(** Whether the manager was built with a store client (and so with a
    [DistributedLock]), and the source of the document. *)
Context (redisClient : bool).
Context (source : SourceType).

Definition uniqueEventId : string :=
  match source with
  | JsonFile fileFullPath => fileFullPath
  | Redis uniqueIdentifier => uniqueIdentifier
  | InMemory uniqueIdentifier => uniqueIdentifier
  end.

Definition is_redis : bool :=
  match source with Redis _ => true | _ => false end.

(** [!!lockId], for [lockId : number | null] *)
Definition lockId_set (s : State) : bool :=
  match lockId s with
  | Some n => negb (n =? 0)%Z
  | None => false
  end.

Definition lockRedis (force : bool) : M bool :=
  free <- gets (fun s => negb (lockId_set s) && negb (primaryLock_locked s)) ;;
  if (free || force) && is_redis then
    token <- DistributedLock_acquire uniqueEventId ;;
    modify (with_redisLockId token) ;;
    ret (match token with Some t => negb (String.eqb t "") | None => false end)
  else ret true.

Definition releaseRedis (force : bool) : M unit :=
  free <- gets (fun s => negb (lockId_set s) && negb (primaryLock_locked s)) ;;
  token <- gets redisLockId ;;
  match token with
  | Some t =>
      if (free || force) && is_redis && negb (String.eqb t "")
      then DistributedLock_release uniqueEventId t
      else ret tt
  | None => ret tt
  end.

(** The wrapper every mutation goes through.  Inside the named lock it
    takes the store lock, calls [method(...args)] without awaiting or
    returning its promise, calls [releaseRedis()] and ends, so its own
    promise resolves to [undefined]. *)
Definition lockMethod {T : Type} (method : T -> M Val) : T -> M Val :=
  LockMethod
    (fun args =>
       locked <- lockRedis false ;;
       if locked : bool then
         try_finally
           (try_catch (detached (method args))
                      (fun error => console_error error ;; throw error))
           (detached (releaseRedis false)) ;;
         ret VUndefined
       else throw (Error ("failed to acquire redis Lock " +:+ uniqueEventId)))
    uniqueEventId 5000.

Definition getAllData : M Val :=
  result <- match source with
            | InMemory _ => gets inMemory
            | Redis _ =>
                if redisClient then redis_get uniqueEventId
                else new_object (HRecord ∅)
            | JsonFile fileFullPath =>
                there <- fs_exists fileFullPath ;;
                if there : bool then
                  text <- fs_readFile fileFullPath ;;
                  parse text
                else new_object (HRecord ∅)
            end ;;
  if truthy result then ret result else new_object (HRecord ∅).

(** [getAllData] in two parts, for the calls in flight further down: the
    read, which is where the function waits, and what it does with what
    the read returned. *)
Definition read_source : M Raw :=
  match source with
  | InMemory _ => result <- gets inMemory ;; ret (RawValue result)
  | Redis _ =>
      if redisClient then result <- redis_get uniqueEventId ;; ret (RawValue result)
      else ret RawNothing
  | JsonFile fileFullPath =>
      there <- fs_exists fileFullPath ;;
      if there : bool then text <- fs_readFile fileFullPath ;; ret (RawText text)
      else ret RawNothing
  end.

Definition deliver (raw : Raw) : M Val :=
  result <- match raw with
            | RawValue v => ret v
            | RawText text => parse text
            | RawNothing => new_object (HRecord ∅)
            end ;;
  if truthy result then ret result else new_object (HRecord ∅).

Definition update (updatedData : Val) : M unit :=
  match source with
  | JsonFile fileFullPath =>
      text <- stringify updatedData ;;
      fs_writeFile fileFullPath text
  | Redis _ =>
      if redisClient then
        text <- stringify updatedData ;;
        redis_set uniqueEventId text
      else ret tt
  | InMemory _ => ret tt
  end.

(** Each operation below is given in two parts: what it does with the
    snapshot once [await getAllData()] has delivered it ([..._on data]),
    and the [async] function itself ([..._body]), which loads and goes
    on.  The exported operation is the body under [lockMethod]. *)

Definition set_on (data : Val) (selector : Selector) (key : string) (value : Val) : M Val :=
  h <- gets heap ;;
  let target := rs (selector_or_empty selector) h data in
  if String.eqb (typeof target) "object" && truthy target && negb (isArray h target) then
    assign target key value ;;
    detached (update data) ;;
    ret (VBool true)
  else ret (VBool false).

Definition set_body (args : Selector * string * Val) : M Val :=
  let '(selector, key, value) := args in
  data <- getAllData ;;
  set_on data selector key value.

Definition setDirect := lockMethod set_body.

Definition push_on (data : Val) (selector : Selector) (value : Val) : M Val :=
  h <- gets heap ;;
  let target := rs selector h data in
  if String.eqb (typeof target) "object" && isArray h target then
    set_elements target (array_elems h target ++ [value]) ;;
    detached (update data) ;;
    ret (VBool true)
  else ret (VBool false).

Definition push_body (args : Selector * Val) : M Val :=
  let '(selector, value) := args in
  data <- getAllData ;;
  push_on data selector value.

Definition pushDirect := lockMethod push_body.

Definition unshift_on (data : Val) (selector : Selector) (value : Val) : M Val :=
  h <- gets heap ;;
  let target := rs selector h data in
  if String.eqb (typeof target) "object" && isArray h target then
    set_elements target (value :: array_elems h target) ;;
    detached (update data) ;;
    ret (VBool true)
  else ret (VBool false).

Definition unshift_body (args : Selector * Val) : M Val :=
  let '(selector, value) := args in
  data <- getAllData ;;
  unshift_on data selector value.

Definition unshiftDirect := lockMethod unshift_body.

(** The callback given to [findIndex]: [ti == item] (or [ti === item] in
    [updateItemInArray]) when no key is given, else
    [ti[key] == item[key]]. *)
Definition matches (h : Heap) (same : Val -> Val -> bool) (item : Val) (key : Key)
    (ti : Val) : Outcome bool :=
  if negb (key_given key) then Ok (same ti item)
  else
    match get_prop h ti (key_name key) with
    | Throw e => Throw e
    | Ok x =>
        match get_prop h item (key_name key) with
        | Throw e => Throw e
        | Ok y => Ok (loose_eq h x y)
        end
    end.

Definition removeItemFromArray_on (data : Val) (selector : Selector) (item : Val) (key : Key)
  : M Val :=
  h <- gets heap ;;
  let target := rs selector h data in
  if String.eqb (typeof target) "object" && isArray h target then
    itemIndex <- lift (findIndex (matches h (loose_eq h) item key) (array_elems h target)) ;;
    if negb (itemIndex =? -1)%Z then
      set_elements target (splice_list (array_elems h target) itemIndex 1).2 ;;
      detached (update data) ;;
      ret (VBool true)
    else ret (VBool false)
  else ret (VBool false).

Definition removeItemFromArray_body (args : Selector * Val * Key) : M Val :=
  let '(selector, item, key) := args in
  data <- getAllData ;;
  removeItemFromArray_on data selector item key.

Definition removeItemFromArrayDirect := lockMethod removeItemFromArray_body.

Definition updateItemInArray_on (data : Val) (selector : Selector) (item updatedItem : Val)
    (key : Key) : M Val :=
  h <- gets heap ;;
  let target := rs selector h data in
  if String.eqb (typeof target) "object" && isArray h target then
    itemIndex <- lift (findIndex (matches h strict_eq item key) (array_elems h target)) ;;
    if negb (itemIndex =? -1)%Z then
      let i := Z.to_nat itemIndex in
      let old := default VUndefined (array_elems h target !! i) in
      (if String.eqb (typeof old) "object" then
         (* { ...target[itemIndex], updatedItem } *)
         fresh <- new_object (HRecord (<["updatedItem" := updatedItem]> (spread h old))) ;;
         set_elements target (<[i := fresh]> (array_elems h target))
       else
         set_elements target (<[i := updatedItem]> (array_elems h target))) ;;
      detached (update data) ;;
      ret (VBool true)
    else ret (VBool false)
  else ret (VBool false).

Definition updateItemInArray_body (args : Selector * Val * Val * Key) : M Val :=
  let '(selector, item, updatedItem, key) := args in
  data <- getAllData ;;
  updateItemInArray_on data selector item updatedItem key.

Definition updateItemInArrayDirect := lockMethod updateItemInArray_body.

Definition batch_step (data : Val) (query : JsonUpdateQuery) : M unit :=
  h <- gets heap ;;
  let target := rs (q_selector query) h data in
  match q_type query with
  | TPush =>
      if String.eqb (typeof target) "object" && isArray h target
      then set_elements target (array_elems h target ++ [q_value query])
      else ret tt
  | TSet =>
      if String.eqb (typeof target) "object" && truthy target
      then assign target (q_key query) (q_value query)
      else ret tt
  | TUnshift =>
      if String.eqb (typeof target) "object" && isArray h target
      then set_elements target (q_value query :: array_elems h target)
      else ret tt
  end.

Fixpoint batch_loop (data : Val) (queries : list JsonUpdateQuery) : M unit :=
  match queries with
  | [] => ret tt
  | query :: rest => batch_step data query ;; batch_loop data rest
  end.

Definition batchSet_on (data : Val) (queries : list JsonUpdateQuery) : M Val :=
  batch_loop data queries ;;
  detached (update data) ;;
  ret VUndefined.

Definition batchSet_body (queries : list JsonUpdateQuery) : M Val :=
  data <- getAllData ;;
  batchSet_on data queries.

Definition batchSetDirect := lockMethod batchSet_body.

Definition splice_on (data : Val) (selector : Selector) (startIndex deleteCount : Z) : M Val :=
  h <- gets heap ;;
  let target := rs selector h data in
  if String.eqb (typeof target) "object" && isArray h target then
    let '(removed, kept) := splice_list (array_elems h target) startIndex deleteCount in
    set_elements target kept ;;
    result <- new_object (HArray removed ∅) ;;
    detached (update data) ;;
    ret result
  else ret (VBool false).

Definition splice_body (args : Selector * Z * Z) : M Val :=
  let '(selector, startIndex, deleteCount) := args in
  data <- getAllData ;;
  splice_on data selector startIndex deleteCount.

Definition spliceDirect := lockMethod splice_body.

Definition pop_on (data : Val) (selector : Selector) : M Val :=
  h <- gets heap ;;
  let target := rs selector h data in
  if String.eqb (typeof target) "object" && isArray h target then
    let elems := array_elems h target in
    set_elements target (removelast elems) ;;
    detached (update data) ;;
    ret (List.last elems VUndefined)
  else ret (VBool false).

Definition pop_body (selector : Selector) : M Val :=
  data <- getAllData ;;
  pop_on data selector.

Definition popDirect := lockMethod pop_body.

Definition shift_on (data : Val) (selector : Selector) : M Val :=
  h <- gets heap ;;
  let target := rs selector h data in
  if String.eqb (typeof target) "object" && isArray h target then
    let elems := array_elems h target in
    set_elements target (tail elems) ;;
    detached (update data) ;;
    ret (hd VUndefined elems)
  else ret (VBool false).

Definition shift_body (selector : Selector) : M Val :=
  data <- getAllData ;;
  shift_on data selector.

Definition shiftDirect := lockMethod shift_body.

Definition updateJsonFromProvided : Val -> M Val :=
  lockMethod (fun newData => update newData ;; ret VUndefined).

(** [get] of the document the primary returns: no lock is taken. *)
Definition get (selector : Selector) : M Val :=
  data <- getAllData ;;
  h <- gets heap ;;
  ret (rs selector h data).

End Authority.

(** ** djs.ts, primary process: locks, transactions and the dispatcher *)

(** Requests as the worker proxy builds them.  The values in a request are
    the ones the primary holds after the message was received. *)
Inductive Query : Type :=
| QLock (timeout : Z)
| QRelease
| QGet (selector : Selector)
| QSet (selector : Selector) (key : string) (value : Val)
| QPush (selector : Selector) (value : Val)
| QUnshift (selector : Selector) (value : Val)
| QArraySet (queries : list JsonUpdateQuery)
| QPop (selector : Selector)
| QRemoveItemFromArray (selector : Selector) (item : Val) (key : Key)
| QUpdateItemInArray (selector : Selector) (item updatedItem : Val) (key : Key)
| QShift (selector : Selector)
| QSplice (selector : Selector) (startIndex deleteCount : Z)
| QUpdateJsonFromProvided (data : Val)
| QData (data : Val).

(** [{request, queryId, query: {...query, lockId}}] *)
Record Request : Type := mkRequest {
  request : string;
  req_queryId : Z;
  query : Query;
  query_lockId : option Z
}.

(** The two polling loops of the primary sleep between their checks, and
    while one sleeps the rest of the process runs: timers fire, other
    requests are served.  [during_sleep w n] is what that does to the state
    during the [n]-th sleep of the wait [w]. *)
Inductive Wait : Type := ForPrimaryLock | ForLockId.

Section Dispatcher.

Context (redisClient : bool).
Context (source : SourceType).
Context (during_sleep : Wait -> nat -> State -> State).
(** What [generateQueryId()] returns when the dispatcher mints a token. *)
Context (generateQueryId : Z).

(** [while (tryCount < 30) { tryCount++; await sleep(..); if (released) return; } throw ..] *)
Fixpoint poll (w : Wait) (released : State -> bool) (on_release : M unit) (failure : string)
    (tries tryCount : nat) : M unit :=
  match tries with
  | O => throw (Error failure)
  | S tries' =>
      modify (during_sleep w tryCount) ;;
      free <- gets released ;;
      if free : bool then on_release
      else poll w released on_release failure tries' (S tryCount)
  end.

Definition waitForLockIdRelease : M unit :=
  poll ForLockId (fun s => negb (lockId_set s)) (ret tt)
    "Could not acquire lock for operation" 30 0.

Definition setLockId (timeout : Z) : M unit :=
  modify (with_lockId (Some generateQueryId) (Some timeout)).

Definition clearLockId : M unit :=
  console_log "clearing lock" ;;
  modify (with_lockId None None).

Definition waitForPrimaryLockIdRelease : M unit :=
  poll ForPrimaryLock (fun s => negb (primaryLock_locked s)) (console_log "primary released!")
    "Could not acquire primary lock for operation" 30 0.

Definition setPrimaryLockId (timeout : Z) : M unit :=
  modify (with_primaryLock true None) ;;
  console_log "locking the primary" ;;
  modify (with_primaryLock true (Some timeout)).

Definition clearPrimaryLockId : M unit :=
  modify (with_primaryLock false None) ;;
  console_log "Releasing the primary".

(** [transaction] of the document the primary returns; [cb] runs against
    that same document. *)
Definition transaction (cb : M unit) (timeout : Z) : M unit :=
  held <- gets lockId_set ;;
  (if held : bool then waitForLockIdRelease else ret tt) ;;
  lockRedis source true ;;
  setPrimaryLockId timeout ;;
  try_finally
    (try_catch cb (fun error => console_error error ;; throw error))
    (detached (releaseRedis source true) ;; clearPrimaryLockId).

Definition worker_send (worker : nat) (r : Response) : M unit :=
  modify (fun s => with_outbox (outbox s ++ [(worker, r)]) s).

(** [msg.query?.lockId == lockId], between a [number | undefined] and a
    [number | null]. *)
Definition same_token (presented active : option Z) : bool :=
  bool_decide (presented = active).

(** The listener [createWorkerListener(worker)] returns, applied to a
    message. *)
Definition createWorkerListener (worker : nat) (msg : Request) : M unit :=
  try_catch
    (if String.eqb (request msg) (uniqueEventId source) then
       locked <- gets primaryLock_locked ;;
       (if locked : bool then
          console_log "worker listener waiting for primary to release" ;;
          waitForPrimaryLockIdRelease
        else ret tt) ;;
       foreign <- gets (fun s => lockId_set s && negb (same_token (query_lockId msg) (lockId s))) ;;
       (if foreign : bool then
          console_log "Waiting for a lock id to release" ;;
          waitForLockIdRelease
        else ret tt) ;;
       match query msg with
       | QLock timeout =>
           own <- gets (fun s => lockId_set s && same_token (query_lockId msg) (lockId s)) ;;
           if own : bool then throw (Error "you already have a lock")
           else
             setLockId (if (timeout =? 0)%Z then 5000%Z else timeout) ;;
             console_log "Sending lock id" ;;
             id <- gets lockId ;;
             worker_send worker
               (mkResponse (req_queryId msg) true
                  (Ok (match id with Some n => VNum n | None => VNull end)))
       | QRelease =>
           held <- gets lockId_set ;;
           if negb held then throw (Error "there is no lock to release")
           else
             mine <- gets (fun s => same_token (query_lockId msg) (lockId s)) ;;
             if negb mine then throw (Error "you do not own this lock")
             else
               clearLockId ;;
               worker_send worker (mkResponse (req_queryId msg) true (Ok (VBool true)))
       | QGet selector =>
           data <- getAllData redisClient source ;;
           h <- gets heap ;;
           worker_send worker (mkResponse (req_queryId msg) true (Ok (rs selector h data)))
       | other =>
           result <- match other with
                     | QSet selector key value =>
                         setDirect redisClient source (selector, key, value)
                     | QPush selector value =>
                         pushDirect redisClient source (selector, value)
                     | QUnshift selector value =>
                         unshiftDirect redisClient source (selector, value)
                     | QArraySet queries =>
                         batchSetDirect redisClient source queries
                     | QPop selector =>
                         popDirect redisClient source selector
                     | QRemoveItemFromArray selector item key =>
                         removeItemFromArrayDirect redisClient source (selector, item, key)
                     | QUpdateItemInArray selector item updatedItem key =>
                         updateItemInArrayDirect redisClient source
                           (selector, item, updatedItem, key)
                     | QShift selector =>
                         shiftDirect redisClient source selector
                     | QSplice selector startIndex deleteCount =>
                         spliceDirect redisClient source (selector, startIndex, deleteCount)
                     | QUpdateJsonFromProvided data =>
                         updateJsonFromProvided redisClient source data
                     | _ => ret VUndefined
                     end ;;
           worker_send worker (mkResponse (req_queryId msg) true (Ok result))
       end
     else ret tt)
    (fun error => worker_send worker (mkResponse (req_queryId msg) true (Throw error))).

End Dispatcher.

(** ** createDynamicJsonManager and makeDynamicJson *)

Record Manager : Type := mkManager {
  m_redisClient : bool;
  m_redisLock : bool
}.

(** [redisClient?]: [true] when a client is passed. *)
Definition createDynamicJsonManager (redisClient : bool) : Manager :=
  mkManager redisClient (if redisClient then true else false).

(** What [makeDynamicJson] returns: the document of the primary, or the
    proxy of a worker. *)
Inductive ThreadedJson : Type :=
| AuthorityDocument (source : SourceType)
| WorkerProxy (source : SourceType).

Definition makeDynamicJson (manager : Manager) (isPrimary : bool) (source : SourceType)
    (initialContent : Val) : M ThreadedJson :=
  if is_redis source && (negb (m_redisClient manager) || negb (m_redisLock manager)) then
    throw (Error "this manager cannot create redis based client with redis connection, please create new manager with a valid redis connection")
  else if isPrimary then
    modify (with_redisLockId None) ;;
    (if truthy initialContent then modify (with_inMemory initialContent)
     else (empty <- new_object (HRecord ∅) ;; modify (with_inMemory empty))) ;;
    match source with
    | JsonFile fileFullPath =>
        if truthy initialContent then
          there <- fs_exists fileFullPath ;;
          if negb there then
            text <- stringify initialContent ;;
            fs_writeFile fileFullPath text
          else ret tt
        else ret tt
    | Redis _ =>
        if truthy initialContent then
          existingContent <- redis_get (uniqueEventId source) ;;
          if negb (truthy existingContent) then
            (* [await lockRedis()]: the function reads [lockId], a [let] of
               this block that is declared further down and so has no
               value yet; the read throws and the seeding stops here *)
            throw (ReferenceError "Cannot access 'lockId' before initialization")
          else ret tt
        else ret tt
    | InMemory _ => ret tt
    end ;;
    modify (with_lockId None None) ;;
    modify (with_primaryLock false None) ;;
    ret (AuthorityDocument source)
  else ret (WorkerProxy source).

(** [manager.makeDynamicJson({source, initialContent})] as the caller has
    it: [makeDynamicJson] is declared [async], the definition above is its
    body. *)
Definition makeDynamicJson_call (manager : Manager) (isPrimary : bool) (source : SourceType)
    (initialContent : Val) : M (Promise ThreadedJson) :=
  async_call (makeDynamicJson manager isPrimary source initialContent).

(** ** djs.ts, worker process: the proxy *)

Record ProxyState : Type := mkProxy {
  proxy_lockId : option Z;
  sent : list Request;
  proxy_console : list LogEntry
}.

Abbreviation P := (Eff ProxyState).

Definition number_or_undefined (v : Val) : option Z :=
  match v with VNum n => Some n | _ => None end.

Section Proxy.

Context (source : SourceType).
(** The ids [generateQueryId()] draws, in order. *)
Context (queryIds : nat -> Z).
(** What the wait for the latest request ends in, given all that was sent:
    the result of the matching response, its error, or the rejection
    [Timeout] when none came within the bound. *)
Context (answer : list Request -> Outcome Val).

Definition proxy_log (msg : string) : P unit :=
  modify (fun s => mkProxy (proxy_lockId s) (sent s) (proxy_console s ++ [Log msg])).

Definition proxy_error (e : Exn) : P unit :=
  modify (fun s => mkProxy (proxy_lockId s) (sent s) (proxy_console s ++ [LogError e])).

(** [process.send(..)] and then [waitForQueryNumber(queryId)] *)
Definition sendQuery (query : Query) : P Val :=
  fun s =>
    let queryId := queryIds (length (sent s)) in
    let msg := mkRequest (uniqueEventId source) queryId query (proxy_lockId s) in
    let s' := mkProxy (proxy_lockId s) (sent s ++ [msg]) (proxy_console s) in
    (answer (sent s'), s').

Definition lock (timeout : Z) : P Val :=
  id <- sendQuery (QLock timeout) ;;
  modify (fun s => mkProxy (number_or_undefined id) (sent s) (proxy_console s)) ;;
  proxy_log "got lock id for lock" ;;
  proxy_log "returning" ;;
  ret id.

Definition release : P Val := sendQuery QRelease.

Definition proxy_transaction (cb : P unit) (timeout : Z) : P unit :=
  proxy_log "Acquiring lock" ;;
  lockId <- lock timeout ;;
  proxy_log "Locked with id" ;;
  try_finally
    (try_catch cb (fun error => proxy_error error))
    (release ;; ret tt) ;;
  proxy_log "transaction finished for".

Definition proxy_get (selector : Selector) : P Val := sendQuery (QGet selector).
Definition proxy_set (selector : Selector) (key : string) (value : Val) : P Val :=
  sendQuery (QSet selector key value).
Definition proxy_push (selector : Selector) (value : Val) : P Val :=
  sendQuery (QPush selector value).
Definition proxy_updateJsonFromProvided (newJson : Val) : P Val :=
  sendQuery (QData newJson).

End Proxy.

(** ** Calls in flight

    The operations above give what one call does when nothing else runs
    between its steps.  Here several calls of wrapped methods are in flight
    in the primary process, and the points where one of them is suspended
    are explicit.  A call goes through [lockMethod] as follows.

    - [Invoke]: [lock.acquire(lockName, fn)].  If the name is free [fn]
      starts at once: it calls the wrapper, which stops at
      [await lockRedis()].  Otherwise the call waits in the queue of the
      name.
    - [LockRedisSettled]: the wrapper resumes.  With the store lock it calls
      [method(...args)]; the method runs up to its [await getAllData()] and
      hands back a pending promise, which the wrapper drops.  The wrapper
      calls [releaseRedis()] and returns, its promise resolves, [fn]
      returns, and the named lock passes to the next call in the queue.
      For an [InMemory] source [getAllData] needs no input or output, and
      the rest of the method runs in the microtask queued before the
      wrapper's own, so the method is done by then.
    - [SnapshotRead]: the read behind [getAllData] takes the content of
      the file or of the store key as it is at that moment.
    - [SnapshotDelivered]: the read completes; [getAllData] returns the
      snapshot and the method runs on from it to its end.

    [AwaitingMethod] is the place of a wrapper that waits for its method.
    The wrapper of the source never is there; the protocol of the
    specification, given further down for comparison, is. *)

Inductive WrapperPc : Type :=
| NotCalled
| Queued
| AwaitingLockRedis
| AwaitingMethod
| WrapperSettled (r : Outcome Val).

Inductive BodyPc : Type :=
| NotStarted
| Loading
| Loaded (raw : Raw)
| BodySettled (r : Outcome Val).

(** The body has begun and has not reached its end. *)
Definition at_work (b : BodyPc) : bool :=
  match b with
  | Loading | Loaded _ => true
  | NotStarted | BodySettled _ => false
  end.

Record Call : Type := mkCall {
  after_load : Val -> M Val;
  wrapper : WrapperPc;
  body : BodyPc
}.

Record Process : Type := mkProcess {
  state : State;
  holder : option nat;
  queue : list nat;
  calls : list Call
}.

Inductive Event : Type :=
| Invoke (i : nat)
| LockRedisSettled (i : nat)
| SnapshotRead (i : nat)
| SnapshotDelivered (i : nat).

Definition set_wrapper (w : WrapperPc) (c : Call) : Call :=
  mkCall (after_load c) w (body c).
Definition set_body_pc (b : BodyPc) (c : Call) : Call :=
  mkCall (after_load c) (wrapper c) b.

(** The holder is done: the first call of the queue, if any, gets the
    name and its [fn] starts. *)
Definition pass_lock (p : Process) : Process :=
  match queue p with
  | [] => mkProcess (state p) None [] (calls p)
  | j :: rest =>
      mkProcess (state p) (Some j) rest (alter (set_wrapper AwaitingLockRedis) j (calls p))
  end.

Section InFlight.

Context (redisClient : bool).
Context (source : SourceType).

Definition run_method (c : Call) : M Val :=
  data <- getAllData redisClient source ;;
  after_load c data.

Definition run_method_from (raw : Raw) (c : Call) : M Val :=
  data <- deliver raw ;;
  after_load c data.

(** [lock.acquire(lockName, fn)] *)
Definition invoke (i : nat) (p : Process) : option Process :=
  match calls p !! i with
  | Some c =>
      match wrapper c, holder p with
      | NotCalled, None =>
          Some (mkProcess (state p) (Some i) (queue p)
                  (<[i := set_wrapper AwaitingLockRedis c]> (calls p)))
      | NotCalled, Some _ =>
          Some (mkProcess (state p) (holder p) (queue p ++ [i])
                  (<[i := set_wrapper Queued c]> (calls p)))
      | _, _ => None
      end
  | None => None
  end.

(** The read of a body that is loading takes the content of the source. *)
Definition snapshot_read (i : nat) (p : Process) : option Process :=
  match calls p !! i with
  | Some c =>
      match body c with
      | Loading =>
          match read_source redisClient source (state p) with
          | (Ok raw, s) =>
              Some (mkProcess s (holder p) (queue p)
                      (<[i := set_body_pc (Loaded raw) c]> (calls p)))
          | (Throw e, s) =>
              Some (mkProcess s (holder p) (queue p)
                      (<[i := set_body_pc (BodySettled (Throw e)) c]> (calls p)))
          end
      | _ => None
      end
  | None => None
  end.

Definition step (ev : Event) (p : Process) : option Process :=
  match ev with
  | Invoke i => invoke i p
  | LockRedisSettled i =>
      match calls p !! i with
      | Some c =>
          match wrapper c with
          | AwaitingLockRedis =>
              let '(locked, s1) := lockRedis source false (state p) in
              match locked with
              | Ok true =>
                  let '(b, s2) :=
                    match source with
                    | InMemory _ => let '(r, s) := run_method c s1 in (BodySettled r, s)
                    | _ => (Loading, s1)
                    end in
                  let s3 := (releaseRedis source false s2).2 in
                  Some (pass_lock
                          (mkProcess s3 (holder p) (queue p)
                             (<[i := mkCall (after_load c) (WrapperSettled (Ok VUndefined)) b]>
                                (calls p))))
              | Ok false =>
                  Some (pass_lock
                          (mkProcess s1 (holder p) (queue p)
                             (<[i := set_wrapper
                                       (WrapperSettled
                                          (Throw (Error ("failed to acquire redis Lock "
                                                         +:+ uniqueEventId source)))) c]>
                                (calls p))))
              | Throw e =>
                  Some (pass_lock
                          (mkProcess s1 (holder p) (queue p)
                             (<[i := set_wrapper (WrapperSettled (Throw e)) c]> (calls p))))
              end
          | _ => None
          end
      | None => None
      end
  | SnapshotRead i => snapshot_read i p
  | SnapshotDelivered i =>
      match calls p !! i with
      | Some c =>
          match body c with
          | Loaded raw =>
              let '(r, s) := run_method_from raw c (state p) in
              Some (mkProcess s (holder p) (queue p)
                      (<[i := set_body_pc (BodySettled r) c]> (calls p)))
          | _ => None
          end
      | None => None
      end
  end.

Fixpoint run (trace : list Event) (p : Process) : option Process :=
  match trace with
  | [] => Some p
  | ev :: rest =>
      match step ev p with
      | Some p' => run rest p'
      | None => None
      end
  end.

(** The protocol of the specification, for comparison.  Its steps are:
    acquire the named mutex, load the snapshot, apply, persist, and only
    then release the mutex.  A wrapper that follows it awaits its method
    ([AwaitingMethod]) and returns what the method returned; the lock is
    passed on when the method is done. *)
Definition step_as_specified (ev : Event) (p : Process) : option Process :=
  match ev with
  | Invoke i => invoke i p
  | LockRedisSettled i =>
      match calls p !! i with
      | Some c =>
          match wrapper c with
          | AwaitingLockRedis =>
              let '(locked, s1) := lockRedis source false (state p) in
              match locked with
              | Ok true =>
                  match source with
                  | InMemory _ =>
                      let '(r, s2) := run_method c s1 in
                      let s3 := (releaseRedis source false s2).2 in
                      Some (pass_lock
                              (mkProcess s3 (holder p) (queue p)
                                 (<[i := mkCall (after_load c) (WrapperSettled r) (BodySettled r)]>
                                    (calls p))))
                  | _ =>
                      Some (mkProcess s1 (holder p) (queue p)
                              (<[i := mkCall (after_load c) AwaitingMethod Loading]> (calls p)))
                  end
              | Ok false =>
                  Some (pass_lock
                          (mkProcess s1 (holder p) (queue p)
                             (<[i := set_wrapper
                                       (WrapperSettled
                                          (Throw (Error ("failed to acquire redis Lock "
                                                         +:+ uniqueEventId source)))) c]>
                                (calls p))))
              | Throw e =>
                  Some (pass_lock
                          (mkProcess s1 (holder p) (queue p)
                             (<[i := set_wrapper (WrapperSettled (Throw e)) c]> (calls p))))
              end
          | _ => None
          end
      | None => None
      end
  | SnapshotRead i =>
      match calls p !! i with
      | Some c =>
          match body c with
          | Loading =>
              match read_source redisClient source (state p) with
              | (Ok raw, s) =>
                  Some (mkProcess s (holder p) (queue p)
                          (<[i := set_body_pc (Loaded raw) c]> (calls p)))
              | (Throw e, s) =>
                  let s1 := (releaseRedis source false s).2 in
                  Some (pass_lock
                          (mkProcess s1 (holder p) (queue p)
                             (<[i := mkCall (after_load c) (WrapperSettled (Throw e))
                                       (BodySettled (Throw e))]>
                                (calls p))))
              end
          | _ => None
          end
      | None => None
      end
  | SnapshotDelivered i =>
      match calls p !! i with
      | Some c =>
          match body c with
          | Loaded raw =>
              let '(r, s1) := run_method_from raw c (state p) in
              let s2 := (releaseRedis source false s1).2 in
              Some (pass_lock
                      (mkProcess s2 (holder p) (queue p)
                         (<[i := mkCall (after_load c) (WrapperSettled r) (BodySettled r)]>
                            (calls p))))
          | _ => None
          end
      | None => None
      end
  end.

Fixpoint run_as_specified (trace : list Event) (p : Process) : option Process :=
  match trace with
  | [] => Some p
  | ev :: rest =>
      match step_as_specified ev p with
      | Some p' => run_as_specified rest p'
      | None => None
      end
  end.

End InFlight.

(** A call that neither holds the lock nor has its body at work. *)
Definition quiet (c : Call) : Prop :=
  at_work (body c) = false /\ wrapper c <> AwaitingLockRedis /\ wrapper c <> AwaitingMethod.

(** What holds of the calls when the wrapper awaits its method: a body at
    work belongs to a wrapper that awaits it, and a wrapper that is past
    the queue and not yet settled holds the lock. *)
Definition serialized (p : Process) : Prop :=
  forall i c, calls p !! i = Some c ->
    (at_work (body c) = true -> wrapper c = AwaitingMethod) /\
    (wrapper c = AwaitingLockRedis \/ wrapper c = AwaitingMethod -> holder p = Some i).

(** The body of call [i] has begun and has not reached its end. *)
Definition executing (p : Process) (i : nat) : Prop :=
  exists c, calls p !! i = Some c /\ at_work (body c) = true.

Definition completed (p : Process) (i : nat) : Prop :=
  exists c r, calls p !! i = Some c /\ body c = BodySettled r.

(** ** Sample documents and processes *)

Definition empty_state : State :=
  mkState [] ∅ ∅ ∅ 0 ∅ [] [] VUndefined None None None false None.

(** The document of [test.ts]: [{counter: 0}], held in memory. *)
Definition counter_doc : State :=
  with_inMemory (VRef 0) (with_heap [HRecord {[ "counter" := VNum 0%Z ]}] empty_state).

(** Two objects in the heap of the primary: [{a: 1}], which is the content
    of the document, and [{b: 2}]. *)
Definition two_objects : Heap :=
  [HRecord {[ "a" := VNum 1%Z ]}; HRecord {[ "b" := VNum 2%Z ]}].

Definition in_memory_doc : State :=
  with_inMemory (VRef 0) (with_heap two_objects empty_state).

Definition file_doc : State :=
  with_files {[ "doc.json" := JObj [("a", JNum 1%Z)] ]} (with_heap two_objects empty_state).

Definition store_doc : State :=
  with_redis_store {[ "doc" := JObj [("a", JNum 1%Z)] ]} (with_heap two_objects empty_state).

(** [{users: [{id: 1, name: "a"}]}] in memory, with the two objects a caller
    passes: the item [{id: 1}] and the update [{name: "b"}]. *)
Definition users_doc : State :=
  with_inMemory (VRef 0)
    (with_heap
       [HRecord {[ "users" := VRef 1 ]};
        HArray [VRef 2] ∅;
        HRecord {[ "id" := VNum 1%Z; "name" := VStr "a" ]};
        HRecord {[ "id" := VNum 1%Z ]};
        HRecord {[ "name" := VStr "b" ]}]
       empty_state).

(** [{items: [1, 2, 3, 4]}] in memory. *)
Definition items_doc : State :=
  with_inMemory (VRef 0)
    (with_heap
       [HRecord {[ "items" := VRef 1 ]};
        HArray [VNum 1%Z; VNum 2%Z; VNum 3%Z; VNum 4%Z] ∅]
       empty_state).

(** [{users: [{id: 1}, {id: 2}, {id: 1}]}] in memory, with two items a
    caller passes: [{id: 1}] and [{id: 3}]. *)
Definition ids_doc : State :=
  with_inMemory (VRef 0)
    (with_heap
       [HRecord {[ "users" := VRef 1 ]};
        HArray [VRef 2; VRef 3; VRef 4] ∅;
        HRecord {[ "id" := VNum 1%Z ]};
        HRecord {[ "id" := VNum 2%Z ]};
        HRecord {[ "id" := VNum 1%Z ]};
        HRecord {[ "id" := VNum 1%Z ]};
        HRecord {[ "id" := VNum 3%Z ]}]
       empty_state).

(** A state of the primary in which a worker holds the token 42. *)
Definition locked_by_worker : State := with_lockId (Some 42%Z) (Some 5000%Z) counter_doc.


(** An authority that grants every lock with the token 42 and
    acknowledges everything else. *)
Definition always_grants (requests : list Request) : Outcome Val :=
  match last requests with
  | Some msg => match query msg with
                | QLock _ => Ok (VNum 42%Z)
                | _ => Ok (VBool true)
                end
  | None => Throw (Rejection "Timeout")
  end.

Definition fresh_proxy : ProxyState := mkProxy None [] [].

(** [{a: [1]}] in memory. *)
Definition array_doc : State :=
  with_inMemory (VRef 0)
    (with_heap [HRecord {[ "a" := VRef 1 ]}; HArray [VNum 1%Z] ∅] empty_state).

(** Two calls that were not made yet, in a process with the lock free. *)
Definition two_calls (s : State) (f g : Val -> M Val) : Process :=
  mkProcess s None [] [mkCall f NotCalled NotStarted; mkCall g NotCalled NotStarted].

(** [{items: []}] in the file [doc.json], and two calls of [push]. *)
Definition items_file : State :=
  with_files {[ "doc.json" := JObj [("items", JArr [])] ]} empty_state.

Definition two_pushes : Process :=
  two_calls items_file
    (fun data => push_on false (JsonFile "doc.json") data (SelString "items") (VNum 1%Z))
    (fun data => push_on false (JsonFile "doc.json") data (SelString "items") (VNum 2%Z)).

(** ** Further definitions: selectors, waits and a worker served by the primary *)

(** Whether the character [c] occurs in [s]. *)
Fixpoint contains (c : ascii) (s : string) : bool :=
  match s with
  | EmptyString => false
  | String x r => Ascii.eqb x c || contains c r
  end.

(** A value that is no reference: [undefined], [null], a boolean, a number
    or a string. *)
Definition primitive (v : Val) : bool :=
  match v with VRef _ => false | _ => true end.

(** The state after [n] sleeps of the wait [w], the first of them being
    the sleep number [tryCount]. *)
Fixpoint after_sleeps (during_sleep : Wait -> nat -> State -> State) (w : Wait)
    (n tryCount : nat) (s : State) : State :=
  match n with
  | O => s
  | S n' => after_sleeps during_sleep w n' (S tryCount) (during_sleep w tryCount s)
  end.

(** [waitForQueryNumber(queryId)] of the worker proxy, over the messages
    the worker process receives from the moment the handler is added until
    the timer of the wait is up.  The first message that carries the id and
    is marked finished settles the promise, with its error or its result,
    and the handler is removed; with no such message the timer rejects with
    ["Timeout"]. *)
Fixpoint waitForQueryNumber (awaited : Z) (inbox : list Response) : Outcome Val :=
  match inbox with
  | [] => Throw (Rejection "Timeout")
  | msg :: later =>
      if (queryId msg =? awaited)%Z && finished msg then payload msg
      else waitForQueryNumber awaited later
  end.

Section Served.

Context (redisClient : bool).
Context (source : SourceType).
Context (during_sleep : Wait -> nat -> State -> State).
Context (generateQueryId : Z).
(** The worker whose messages the listener was registered for. *)
Context (worker : nat).

(** What [worker] received of the messages the primary sent from the
    [n]-th on. *)
Definition received_since (n : nat) (s : State) : list Response :=
  omap (fun m : nat * Response => if decide (m.1 = worker) then Some m.2 else None)
    (drop n (outbox s)).

(** The primary handles the requests of the worker in the order they were
    sent, each by the listener of that worker. *)
Definition serve (requests : list Request) (s : State) : State :=
  fold_left
    (fun s msg =>
       (createWorkerListener redisClient source during_sleep generateQueryId worker msg s).2)
    requests s.

(** What the wait for the latest request of the worker ends in, when the
    primary started in [s] and this worker is the only one that sends. *)
Definition served_by (s : State) (requests : list Request) : Outcome Val :=
  match last requests with
  | Some msg =>
      let before := serve (removelast requests) s in
      let after := serve [msg] before in
      waitForQueryNumber (req_queryId msg) (received_since (length (outbox before)) after)
  | None => Throw (Rejection "Timeout")
  end.

End Served.

(** The queries the dispatcher takes neither for a lock, nor for a release,
    nor for a [get]: the ones it hands to a wrapped method, and the ones
    whose type it does not know. *)
Definition other_query (q : Query) : bool :=
  match q with
  | QLock _ | QRelease | QGet _ => false
  | _ => true
  end.

(** [m] ends in an error, or the last thing it did was to send [worker]
    the finished response to the query [id], with a payload that
    satisfies [Q]. *)
Definition answers_with (Q : Outcome Val -> Prop) (worker : nat) (id : Z) (m : M unit) : Prop :=
  forall s,
    (exists e s1, m s = (Throw e, s1)) \/
    (exists payload s1,
       m s = (Ok tt, with_outbox (outbox s1 ++ [(worker, mkResponse id true payload)]) s1) /\
       Q payload).

(** The two loops of [JSON_parse], over the items of an array and over the
    fields of an object, under names of their own. *)
Definition parse_items : list Json -> Heap -> list Val * Heap :=
  fix parse_items (l : list Json) (h : Heap) : list Val * Heap :=
    match l with
    | [] => ([], h)
    | x :: r =>
        let '(v, h1) := JSON_parse x h in
        let '(vs, h2) := parse_items r h1 in
        (v :: vs, h2)
    end.

Definition parse_fields : list (string * Json) -> Heap -> gmap string Val * Heap :=
  fix parse_fields (l : list (string * Json)) (h : Heap) : gmap string Val * Heap :=
    match l with
    | [] => (∅, h)
    | (k, x) :: r =>
        let '(v, h1) := JSON_parse x h in
        let '(m, h2) := parse_fields r h1 in
        (<[k := v]> m, h2)
    end.



(** *** Members of an object and of its prototype

    [get_prop] reads the members an object has of its own.  The
    definitions below say where that is all there is to read. *)

(** [Object.hasOwn(v, k)], for an object, an array or a string. *)
Definition own_member (h : Heap) (v : Val) (k : string) : bool :=
  match v with
  | VRef a =>
      match h !! a with
      | Some (HRecord props) => bool_decide (is_Some (props !! k))
      | Some (HArray elems props) =>
          String.eqb k "length" ||
          match array_index k with
          | Some i => bool_decide (i < length elems)
          | None => bool_decide (is_Some (props !! k))
          end
      | None => false
      end
  | VStr s =>
      String.eqb k "length" ||
      match array_index k with
      | Some i => bool_decide (i < String.length s)
      | None => false
      end
  | _ => false
  end.

(** The names of the members of [Object.prototype]. *)
Definition Object_prototype_names : list string :=
  ["constructor"; "__defineGetter__"; "__defineSetter__"; "hasOwnProperty";
   "__lookupGetter__"; "__lookupSetter__"; "isPrototypeOf"; "propertyIsEnumerable";
   "toString"; "valueOf"; "__proto__"; "toLocaleString"].

(** The names of the members of [Array.prototype], with those of the
    proposals that engines have shipped at one time or another. *)
Definition Array_prototype_names : list string :=
  ["at"; "concat"; "copyWithin"; "entries"; "every"; "fill"; "filter"; "find";
   "findIndex"; "findLast"; "findLastIndex"; "flat"; "flatMap"; "forEach";
   "includes"; "indexOf"; "join"; "keys"; "lastIndexOf"; "map"; "pop"; "push";
   "reduce"; "reduceRight"; "reverse"; "shift"; "slice"; "some"; "sort"; "splice";
   "toReversed"; "toSorted"; "toSpliced"; "unshift"; "values"; "with";
   "group"; "groupBy"; "groupToMap"; "groupByToMap"; "flatten"; "contains";
   "lastItem"; "lastIndex"; "toSource"].

(** Whether [v[k]] may be a member that [v] inherits: [k] is not a member
    of [v] itself, and [v] is a plain object or an array whose prototype
    has a member of that name, or a string, a number or a boolean, for
    which every name counts (the members of their prototypes are not
    listed here). *)
Definition may_inherit (h : Heap) (v : Val) (k : string) : bool :=
  negb (own_member h v k) &&
  match v with
  | VUndefined | VNull => false
  | VBool _ | VNum _ | VStr _ => true
  | VRef a =>
      match h !! a with
      | Some (HRecord _) => bool_decide (k ∈ Object_prototype_names)
      | Some (HArray _ _) => bool_decide (k ∈ Array_prototype_names ++ Object_prototype_names)
      | None => false
      end
  end.

(** Whether the walk of [recursiveSelect] along [path] may read a member
    from a prototype somewhere on its way. *)
Fixpoint inherited_on_path (path : list string) (h : Heap) (obj : Val) : bool :=
  match path with
  | [] => false
  | k :: rest =>
      may_inherit h obj k ||
      match get_prop h obj k with
      | Ok v => inherited_on_path rest h v
      | Throw _ => false
      end
  end.

(** [x == y] converts nothing when the operands have the same type or one
    of them is [null] or [undefined]. *)
Definition same_kind (x y : Val) : bool :=
  nullish x || nullish y || String.eqb (typeof x) (typeof y).

(** An element [ti] the search by [key] compares without conversion and
    without a look at a prototype: the element and the item each have the
    key as a member of their own, and the two values are of the same
    kind. *)
Definition plain_comparison (h : Heap) (item : Val) (key : Key) (ti : Val) : bool :=
  own_member h ti (key_name key) && own_member h item (key_name key) &&
  match get_prop h ti (key_name key), get_prop h item (key_name key) with
  | Ok x, Ok y => same_kind x y
  | _, _ => false
  end.

(** A callback as the one of [test.ts]: read the value under [key], then
    write back what [f] makes of it. *)
Definition read_modify_write (source : SourceType) (queryIds : nat -> Z)
    (answer : list Request -> Outcome Val) (key : string) (f : Val -> Val) : P unit :=
  s <- proxy_get source queryIds answer (SelArray [key]) ;;
  proxy_log "s" ;;
  proxy_set source queryIds answer (SelArray []) key (f s) ;;
  ret tt.

(** [{users: [{id: 2}, null, {id: 1}]}] in memory, with an item a caller
    passes: [{id: 1}]. *)
Definition holed_doc : State :=
  with_inMemory (VRef 0)
    (with_heap
       [HRecord {[ "users" := VRef 1 ]};
        HArray [VRef 2; VNull; VRef 3] ∅;
        HRecord {[ "id" := VNum 2%Z ]};
        HRecord {[ "id" := VNum 1%Z ]};
        HRecord {[ "id" := VNum 1%Z ]}]
       empty_state).

(** [{a: [1]}] in the file [doc.json]. *)
Definition array_file : State :=
  with_files {[ "doc.json" := JObj [("a", JArr [JNum 1%Z])] ]} empty_state.

(** * Properties *)

(** ** Keys, selectors and the array methods on samples *)

Example array_index_examples :
  array_index "0" = Some 0 /\ array_index "12" = Some 12 /\
  array_index "01" = None /\ array_index "id" = None /\ array_index "" = None.
Proof. vm_compute. repeat split. Qed.

Example split_examples :
  selector_segments (SelString "a.b") = ["a"; "b"] /\
  selector_segments (SelString "a..b.") = ["a"; "b"] /\
  selector_segments (SelString "") = [] /\
  splice_list [VNum 1; VNum 2; VNum 3; VNum 4] 1 2 = ([VNum 2; VNum 3], [VNum 1; VNum 4]) /\
  splice_list [VNum 1; VNum 2; VNum 3] (-1) 5 = ([VNum 3], [VNum 1; VNum 2]) /\
  loose_eq [] (VNum 1) (VStr "1") = true /\
  loose_eq [HArray [VNum 5] ∅] (VRef 0) (VNum 5) = true /\
  loose_eq [HRecord ∅; HRecord ∅] (VRef 0) (VRef 1) = false /\
  loose_eq [] VNull VUndefined = true.
Proof. vm_compute. repeat split. Qed.

(** ** The wrapper drops what the method returns *)

Lemma AsyncLock_acquire_free {A : Type} (lockName : string) (fn : M A) (s : State) :
  lockName ∉ mutex s ->
  AsyncLock_acquire lockName fn s =
    let '(r, s') := fn (with_mutex ({[lockName]} ∪ mutex s) s) in
    (r, with_mutex (mutex s' ∖ {[lockName]}) s').
Proof.
  intros Hfree. unfold AsyncLock_acquire, bind, gets, modify, try_finally; simpl.
  rewrite bool_decide_eq_false_2 by done.
  by destruct (fn _) as [r s'].
Qed.

Lemma AsyncLock_acquire_held {A : Type} (lockName : string) (fn : M A) (s : State) :
  lockName ∈ mutex s ->
  AsyncLock_acquire lockName fn s =
    (Throw (Error ("async-lock timed out in queue " +:+ lockName)), s).
Proof.
  intros Hheld. unfold AsyncLock_acquire, bind, gets; simpl.
  by rewrite bool_decide_eq_true_2.
Qed.

(** Whatever the method is and whatever it returns, a wrapped call that
    resolves resolves to [undefined]. *)
Lemma lockMethod_resolves_undefined {T : Type} (source : SourceType) (method : T -> M Val)
    (args : T) (s : State) (v : Val) :
  (lockMethod source method args s).1 = Ok v -> v = VUndefined.
Proof.
  unfold lockMethod, LockMethod.
  destruct (decide (uniqueEventId source ∈ mutex s)) as [Hheld | Hfree].
  { rewrite AsyncLock_acquire_held by done. discriminate. }
  rewrite AsyncLock_acquire_free by done.
  unfold bind at 1.
  destruct (lockRedis source false _) as [[[|] | e] s1]; simpl; try discriminate.
  unfold bind, try_finally, try_catch, detached, ret; simpl.
  intros [= <-]. reflexivity.
Qed.

Lemma lockMethod_never_a_boolean {T : Type} (source : SourceType) (method : T -> M Val)
    (args : T) (s : State) (b : bool) :
  (lockMethod source method args s).1 <> Ok (VBool b).
Proof. intros H. by apply lockMethod_resolves_undefined in H. Qed.

(** For a source that is not the external store and a free lock name, the
    wrapped call runs the method with the name held, lets go of the name
    and resolves to [undefined]. *)
Lemma lockMethod_local {T : Type} (source : SourceType) (method : T -> M Val)
    (args : T) (s : State) :
  is_redis source = false ->
  uniqueEventId source ∉ mutex s ->
  lockMethod source method args s =
    let s' := (method args (with_mutex ({[uniqueEventId source]} ∪ mutex s) s)).2 in
    (Ok VUndefined, with_mutex (mutex s' ∖ {[uniqueEventId source]}) s').
Proof.
  intros Hsrc Hfree. unfold lockMethod, LockMethod.
  rewrite AsyncLock_acquire_free by done.
  unfold lockRedis, releaseRedis, bind, gets, try_finally, try_catch, detached, ret; simpl.
  rewrite Hsrc, !andb_false_r; simpl.
  destruct (method args _) as [r s']; simpl.
  destruct (redisLockId s') as [t |]; simpl; [rewrite ?andb_false_r |]; reflexivity.
Qed.

(** ** set *)

(** The function handed to [lockMethod] does what [set] is meant to do.
    On a target that is a plain object it writes the key, calls [update]
    on the snapshot and returns [true]. *)
Lemma set_on_record (redisClient : bool) (source : SourceType) (data : Val)
    (selector : Selector) (key : string) (value : Val) (s : State) (a : addr)
    (props : gmap string Val) :
  rs (selector_or_empty selector) (heap s) data = VRef a ->
  heap s !! a = Some (HRecord props) ->
  set_on redisClient source data selector key value s =
    (Ok (VBool true),
     (update redisClient source data
        (with_heap (<[a := HRecord (<[key := value]> props)]> (heap s)) s)).2).
Proof.
  intros Htarget Hcell. unfold set_on, bind, gets; simpl.
  rewrite Htarget; simpl. rewrite Hcell; simpl.
  unfold assign, set_prop. rewrite Hcell. reflexivity.
Qed.

(** On any other target, one that is not an object, is [null] or is an
    array, it returns [false] and leaves the state as it is: nothing is
    written and [update] is not called. *)
Lemma set_on_other (redisClient : bool) (source : SourceType) (data : Val)
    (selector : Selector) (key : string) (value : Val) (s : State) :
  let target := rs (selector_or_empty selector) (heap s) data in
  typeof target <> "object" \/ target = VNull \/ isArray (heap s) target = true ->
  set_on redisClient source data selector key value s = (Ok (VBool false), s).
Proof.
  intros target Hshape. unfold set_on, bind, gets, ret; simpl. fold target.
  destruct Hshape as [Htype | [-> | Harr]].
  - destruct target; simpl in *; try reflexivity; by destruct Htype.
  - reflexivity.
  - rewrite Harr. by rewrite andb_false_r.
Qed.

(** C2 (the code departs from the claim).  [set] is [setDirect], the body
    above under [lockMethod], and [lockMethod] drops what the body returns:
    no call of [set] resolves to [true] or to [false].  On the document
    [{counter: 0}] the body of [set([], "counter", 1)] returns [true] and
    writes the key, and the call resolves to [undefined]; with a selector
    that leads to a number the body returns [false], and the call resolves
    to [undefined] as well. *)
Theorem C2_set_resolves_to_undefined :
  (forall redisClient source args s b,
     (setDirect redisClient source args s).1 <> Ok (VBool b)) /\
  set_body false (InMemory "mem:counter") (SelArray [], "counter", VNum 1) counter_doc =
    (Ok (VBool true), with_heap [HRecord {[ "counter" := VNum 1%Z ]}] counter_doc) /\
  setDirect false (InMemory "mem:counter") (SelArray [], "counter", VNum 1) counter_doc =
    (Ok VUndefined, with_heap [HRecord {[ "counter" := VNum 1%Z ]}] counter_doc) /\
  set_body false (InMemory "mem:counter") (SelArray ["counter"], "x", VNum 1) counter_doc =
    (Ok (VBool false), counter_doc) /\
  setDirect false (InMemory "mem:counter") (SelArray ["counter"], "x", VNum 1) counter_doc =
    (Ok VUndefined, counter_doc).
Proof.
  split; [intros; apply lockMethod_never_a_boolean |].
  repeat split; vm_compute; reflexivity.
Qed.

(** ** replaceAll *)

Lemma with_mutex_same (s : State) : with_mutex (mutex s) s = s.
Proof. by destruct s. Qed.

Lemma with_mutex_twice (m m' : gset string) (s : State) :
  with_mutex m (with_mutex m' s) = with_mutex m s.
Proof. reflexivity. Qed.

Lemma mutex_taken_and_freed (name : string) (m : gset string) :
  name ∉ m -> ({[name]} ∪ m) ∖ {[name]} = m.
Proof.
  intros Hfree. apply set_eq. intros x.
  rewrite elem_of_difference, elem_of_union, !elem_of_singleton.
  split; [intros [[-> | Hx] Hne]; done | intros Hx; split; [by right | by intros ->]].
Qed.

(** [update] has a branch for a file and a branch for the store, and none
    for a document held in memory: there [updateJsonFromProvided] changes
    nothing at all. *)
Lemma updateJsonFromProvided_in_memory (redisClient : bool) (uniqueIdentifier : string)
    (newData : Val) (s : State) :
  uniqueIdentifier ∉ mutex s ->
  updateJsonFromProvided redisClient (InMemory uniqueIdentifier) newData s = (Ok VUndefined, s).
Proof.
  intros Hfree. unfold updateJsonFromProvided.
  rewrite lockMethod_local by done. simpl.
  unfold update, bind, ret; simpl.
  rewrite with_mutex_twice, mutex_taken_and_freed by done.
  by rewrite with_mutex_same.
Qed.

(** C3 (the code departs from the claim).  The content is [{a: 1}] and
    [updateJsonFromProvided({b: 2})] is called, then [get([])].
    - Held in memory: the call changes nothing and [get([])] still returns
      the old object, not the one provided.
    - In a file: the file is rewritten, and [get([])] returns a fresh
      object with exactly the property [b: 2].
    - In the store: the key is rewritten, and [get([])] returns the stored
      text as a string, not an object. *)
Theorem C3_replaceAll_then_get :
  (let s := (updateJsonFromProvided false (InMemory "doc") (VRef 1) in_memory_doc).2 in
   s = in_memory_doc /\
   (get false (InMemory "doc") (SelArray []) s).1 = Ok (VRef 0)) /\
  (let s := (updateJsonFromProvided false (JsonFile "doc.json") (VRef 1) file_doc).2 in
   files s !! "doc.json" = Some (JObj [("b", JNum 2%Z)]) /\
   let r := get false (JsonFile "doc.json") (SelArray []) s in
   r.1 = Ok (VRef 2) /\ heap r.2 !! 2 = Some (HRecord {[ "b" := VNum 2%Z ]})) /\
  (let s := (updateJsonFromProvided true (Redis "doc") (VRef 1) store_doc).2 in
   redis_store s !! "doc" = Some (JObj [("b", JNum 2%Z)]) /\
   (get true (Redis "doc") (SelArray []) s).1 =
     Ok (VStr ("{" +:+ dquote +:+ "b" +:+ dquote +:+ ":2}"))).
Proof. repeat split; vm_compute; reflexivity. Qed.

(** ** updateItemInArray *)

(** C4 (the code departs from the claim).  On [{users: [{id: 1, name:
    "a"}]}], [updateItemInArray("users", {id: 1}, {name: "b"}, "id")] finds
    the element and its body returns [true], but
    - the element is replaced by a new object that has the fields of the
      old one and one more field, named [updatedItem], that holds the
      update: [name] is still ["a"], the update's fields are not merged in;
    - the call resolves to [undefined], as every call under [lockMethod]
      does, and never to [true] or [false]. *)
Theorem C4_updateItemInArray_nests_the_update :
  (forall redisClient source args s b,
     (updateItemInArrayDirect redisClient source args s).1 <> Ok (VBool b)) /\
  (let r := updateItemInArray_body false (InMemory "doc")
              (SelString "users", VRef 3, VRef 4, KeyString "id") users_doc in
   r.1 = Ok (VBool true) /\
   array_elems (heap r.2) (VRef 1) = [VRef 5] /\
   heap r.2 !! 5 =
     Some (HRecord {[ "id" := VNum 1%Z; "name" := VStr "a"; "updatedItem" := VRef 4 ]})) /\
  (let r := updateItemInArrayDirect false (InMemory "doc")
              (SelString "users", VRef 3, VRef 4, KeyString "id") users_doc in
   r.1 = Ok VUndefined /\
   array_elems (heap r.2) (VRef 1) = [VRef 5] /\
   get_prop (heap r.2) (VRef 5) "name" = Ok (VStr "a") /\
   get_prop (heap r.2) (VRef 5) "updatedItem" = Ok (VRef 4)).
Proof.
  split; [intros; apply lockMethod_never_a_boolean |].
  repeat split; vm_compute; reflexivity.
Qed.

(** ** splice *)

(** What [splice] removes is one run of the list, and what it keeps is the
    part before that run followed by the part after it. *)
Lemma splice_list_partition (l : list Val) (start deleteCount : Z) :
  exists before after,
    l = before ++ (splice_list l start deleteCount).1 ++ after /\
    (splice_list l start deleteCount).2 = before ++ after.
Proof.
  unfold splice_list; simpl.
  match goal with
  | |- context [take ?s l ++ drop (?s + ?d) l] =>
      exists (take s l), (drop (s + d) l); split; [| reflexivity];
      rewrite <- (take_drop s l) at 1; f_equal;
      rewrite <- (take_drop d (drop s l)) at 1; f_equal;
      by rewrite drop_drop
  end.
Qed.

(** For a start and a count within the list, the run begins at [start]
    and has [deleteCount] elements. *)
Lemma splice_list_in_range (l : list Val) (start deleteCount : nat) :
  start + deleteCount <= length l ->
  splice_list l (Z.of_nat start) (Z.of_nat deleteCount) =
    (take deleteCount (drop start l), take start l ++ drop (start + deleteCount) l).
Proof.
  intros Hrange. unfold splice_list.
  assert ((Z.of_nat start <? 0)%Z = false) as -> by (apply Z.ltb_ge; lia).
  rewrite Z.min_l by lia. rewrite Z.max_l by lia. rewrite Z.min_l by lia.
  by rewrite !Nat2Z.id.
Qed.

(** The body of [splice], on a target that is an array: the array keeps
    what [splice_list] keeps, and the result is a new array of what it
    removes. *)
Lemma splice_on_array (redisClient : bool) (source : SourceType) (data : Val)
    (selector : Selector) (startIndex deleteCount : Z) (s : State) (a : addr)
    (elems : list Val) (props : gmap string Val) :
  rs selector (heap s) data = VRef a ->
  heap s !! a = Some (HArray elems props) ->
  let '(removed, kept) := splice_list elems startIndex deleteCount in
  let h := <[a := HArray kept props]> (heap s) ++ [HArray removed ∅] in
  splice_on redisClient source data selector startIndex deleteCount s =
    (Ok (VRef (length (heap s))), (update redisClient source data (with_heap h s)).2).
Proof.
  intros Htarget Hcell. unfold splice_on, bind, gets; simpl.
  rewrite Htarget; simpl. rewrite Hcell; simpl.
  destruct (splice_list elems startIndex deleteCount) as [removed kept].
  unfold set_elements, modify, new_object, alloc, detached, ret; simpl.
  rewrite Hcell; simpl. by rewrite length_insert.
Qed.

Lemma splice_on_other (redisClient : bool) (source : SourceType) (data : Val)
    (selector : Selector) (startIndex deleteCount : Z) (s : State) :
  isArray (heap s) (rs selector (heap s) data) = false ->
  splice_on redisClient source data selector startIndex deleteCount s = (Ok (VBool false), s).
Proof.
  intros Hshape. unfold splice_on, bind, gets, ret; simpl.
  rewrite Hshape. by rewrite andb_false_r.
Qed.

(** C5 (the code departs from the claim).  On [{items: [1, 2, 3, 4]}] the
    body of [splice("items", 1, 2)] takes [2, 3] out, leaves [1, 4] and
    returns the array [2, 3]; the call does the same to the document and
    resolves to [undefined], not to the removed elements.  On a target
    that is no array the body returns [false] and the call resolves to
    [undefined] again.  Both come from [lockMethod], which drops what the
    body returns. *)
Theorem C5_splice_resolves_to_undefined :
  (forall redisClient source args s v,
     (spliceDirect redisClient source args s).1 = Ok v -> v = VUndefined) /\
  (let r := splice_body false (InMemory "doc") (SelString "items", 1%Z, 2%Z) items_doc in
   r.1 = Ok (VRef 2) /\
   array_elems (heap r.2) (VRef 2) = [VNum 2%Z; VNum 3%Z] /\
   array_elems (heap r.2) (VRef 1) = [VNum 1%Z; VNum 4%Z]) /\
  (let r := spliceDirect false (InMemory "doc") (SelString "items", 1%Z, 2%Z) items_doc in
   r.1 = Ok VUndefined /\
   array_elems (heap r.2) (VRef 1) = [VNum 1%Z; VNum 4%Z]) /\
  splice_body false (InMemory "doc") (SelArray [], 0%Z, 1%Z) items_doc =
    (Ok (VBool false), items_doc) /\
  spliceDirect false (InMemory "doc") (SelArray [], 0%Z, 1%Z) items_doc =
    (Ok VUndefined, items_doc).
Proof.
  split; [intros *; apply lockMethod_resolves_undefined |].
  repeat split; vm_compute; reflexivity.
Qed.

(** ** removeItemFromArray *)

(** [findIndex] returns [-1] when the callback refuses every element, and
    otherwise the position of the first element it accepts. *)
Lemma findIndex_from_spec (f : Val -> Outcome bool) (l : list Val) (i r : Z) :
  (0 <= i)%Z ->
  findIndex_from f l i = Ok r ->
  (r = (-1)%Z /\ Forall (fun x => f x = Ok false) l) \/
  (exists n x, r = (i + Z.of_nat n)%Z /\ l !! n = Some x /\ f x = Ok true /\
               Forall (fun y => f y = Ok false) (take n l)).
Proof.
  revert i. induction l as [| x l IH]; intros i Hi; simpl.
  - intros [= <-]. left. by split.
  - destruct (f x) as [[|] | e] eqn:Hfx; [| | discriminate].
    + intros [= <-]. right. exists 0, x. repeat split; [lia | done | constructor].
    + intros Hrest. destruct (IH (i + 1)%Z ltac:(lia) Hrest) as [[-> Hall] | (n & y & -> & Hn & Hy & Hbefore)].
      * left. split; [done | by constructor].
      * right. exists (S n), y. repeat split; [lia | done | done | by constructor].
Qed.

Lemma findIndex_first (f : Val -> Outcome bool) (l : list Val) (n : nat) (x : Val) :
  l !! n = Some x ->
  f x = Ok true ->
  Forall (fun y => f y = Ok false) (take n l) ->
  findIndex f l = Ok (Z.of_nat n).
Proof.
  intros Hn Hx Hbefore. unfold findIndex.
  change (Z.of_nat n) with (0 + Z.of_nat n)%Z.
  generalize 0%Z as i. revert n Hn Hbefore.
  induction l as [| y l IH]; intros n Hn Hbefore i; [done |].
  destruct n as [| n]; simpl in *.
  - injection Hn as ->. rewrite Hx. f_equal. lia.
  - apply Forall_cons in Hbefore as [Hy Hbefore]. rewrite Hy.
    rewrite (IH n Hn Hbefore). f_equal. lia.
Qed.

Lemma splice_one (l : list Val) (n : nat) :
  n < length l -> (splice_list l (Z.of_nat n) 1).2 = delete n l.
Proof.
  intros Hn. change 1%Z with (Z.of_nat 1).
  rewrite splice_list_in_range by lia. simpl.
  rewrite Nat.add_1_r. by rewrite delete_take_drop.
Qed.

(** The body of [removeItemFromArray] with no element that matches: it
    returns [false] and the state, the array included, is as before. *)
Lemma removeItemFromArray_on_miss (redisClient : bool) (source : SourceType) (data : Val)
    (selector : Selector) (item : Val) (key : Key) (s : State) :
  findIndex (matches (heap s) (loose_eq (heap s)) item key)
    (array_elems (heap s) (rs selector (heap s) data)) = Ok (-1)%Z ->
  removeItemFromArray_on redisClient source data selector item key s = (Ok (VBool false), s).
Proof.
  intros Hmiss. unfold removeItemFromArray_on, bind, gets, lift, ret; simpl.
  destruct (_ && _); [| reflexivity].
  by rewrite Hmiss.
Qed.

(** With an element that matches: the first such element is taken out,
    the others stay in their order, [update] is called on the snapshot and
    the body returns [true]. *)
Lemma removeItemFromArray_on_hit (redisClient : bool) (source : SourceType) (data : Val)
    (selector : Selector) (item : Val) (key : Key) (s : State) (a : addr)
    (elems : list Val) (props : gmap string Val) (n : nat) (x : Val) :
  rs selector (heap s) data = VRef a ->
  heap s !! a = Some (HArray elems props) ->
  elems !! n = Some x ->
  matches (heap s) (loose_eq (heap s)) item key x = Ok true ->
  Forall (fun y => matches (heap s) (loose_eq (heap s)) item key y = Ok false) (take n elems) ->
  removeItemFromArray_on redisClient source data selector item key s =
    (Ok (VBool true),
     (update redisClient source data
        (with_heap (<[a := HArray (delete n elems) props]> (heap s)) s)).2).
Proof.
  intros Htarget Hcell Hn Hx Hbefore.
  pose proof (findIndex_first _ _ _ _ Hn Hx Hbefore) as Hfound.
  unfold removeItemFromArray_on, bind, gets, lift; cbn -[splice_list findIndex].
  rewrite Htarget; cbn -[splice_list findIndex]. rewrite Hcell; cbn -[splice_list findIndex]. rewrite Hfound.
  assert ((Z.of_nat n =? -1)%Z = false) as -> by (apply Z.eqb_neq; lia).
  cbn -[splice_list findIndex].
  rewrite splice_one by (by eapply lookup_lt_Some).
  unfold set_elements, modify, detached, ret; simpl. by rewrite Hcell.
Qed.

(** C6 (the code departs from the claim).  On [{users: [{id: 1}, {id: 2},
    {id: 1}]}], [removeItemFromArray("users", {id: 1}, "id")] takes out the
    first element with [id] 1 and keeps the two others in their order, and
    with [{id: 3}] it leaves the array as it is; the body returns [true]
    and [false].  The call resolves to [undefined] both times, and never
    to [true] or [false], because [lockMethod] drops what the body
    returns. *)
Theorem C6_removeItemFromArray_resolves_to_undefined :
  (forall redisClient source args s b,
     (removeItemFromArrayDirect redisClient source args s).1 <> Ok (VBool b)) /\
  (let r := removeItemFromArray_body false (InMemory "doc")
              (SelString "users", VRef 5, KeyString "id") ids_doc in
   r.1 = Ok (VBool true) /\ array_elems (heap r.2) (VRef 1) = [VRef 3; VRef 4]) /\
  (let r := removeItemFromArrayDirect false (InMemory "doc")
              (SelString "users", VRef 5, KeyString "id") ids_doc in
   r.1 = Ok VUndefined /\ array_elems (heap r.2) (VRef 1) = [VRef 3; VRef 4]) /\
  removeItemFromArray_body false (InMemory "doc")
    (SelString "users", VRef 6, KeyString "id") ids_doc = (Ok (VBool false), ids_doc) /\
  removeItemFromArrayDirect false (InMemory "doc")
    (SelString "users", VRef 6, KeyString "id") ids_doc = (Ok VUndefined, ids_doc).
Proof.
  split; [intros; apply lockMethod_never_a_boolean |].
  repeat split; vm_compute; reflexivity.
Qed.

(** ** The dispatcher: release *)

(** A polling loop ends in its failure, or it saw the condition hold and
    went on from the state in which it held. *)
Lemma poll_outcome (during_sleep : Wait -> nat -> State -> State) (w : Wait)
    (released : State -> bool) (on_release : M unit) (failure : string)
    (tries tryCount : nat) (s : State) :
  (exists s', poll during_sleep w released on_release failure tries tryCount s =
                (Throw (Error failure), s')) \/
  (exists s1, released s1 = true /\
              poll during_sleep w released on_release failure tries tryCount s = on_release s1).
Proof.
  revert tryCount s. induction tries as [| tries IH]; intros tryCount s; simpl.
  - left. by exists s.
  - unfold bind, modify, gets; simpl.
    destruct (released (during_sleep w tryCount s)) eqn:Hreleased.
    + right. by exists (during_sleep w tryCount s).
    + apply IH.
Qed.



Lemma release_with_own_token (redisClient : bool) (source : SourceType)
    (during_sleep : Wait -> nat -> State -> State) (generateQueryId : Z)
    (worker : nat) (queryId : Z) (presented : option Z) (s : State) :
  primaryLock_locked s = false ->
  lockId_set s = true ->
  presented = lockId s ->
  createWorkerListener redisClient source during_sleep generateQueryId worker
    (mkRequest (uniqueEventId source) queryId QRelease presented) s =
    (Ok tt,
     with_outbox
       (outbox s ++ [(worker, mkResponse queryId true (Ok (VBool true)))])
       (with_lockId None None (with_console (console s ++ [Log "clearing lock"]) s))).
Proof.
  intros Hprimary Hset Hown. unfold createWorkerListener; simpl.
  rewrite String.eqb_refl.
  unfold try_catch, bind, gets, ret, throw, worker_send, clearLockId, console_log, modify,
    same_token; simpl.
  rewrite Hprimary, Hset; simpl. rewrite bool_decide_eq_true_2 by done; simpl.
  rewrite Hset; simpl. by rewrite bool_decide_eq_true_2.
Qed.





(** ** The proxy: transaction *)



(** ** makeDynamicJson without a store client *)

(** C9, as amended.  A manager built without a store client refuses a
    document whose source is the store, in the primary and in a worker
    alike, before anything is read or written and before the first
    [await].  [makeDynamicJson] is an [async] function: the call returns a
    promise, and the configuration error is what that promise is rejected
    with; whoever awaits it gets the error thrown, and no document. *)
Theorem C9_store_document_needs_a_client (isPrimary : bool) (uniqueIdentifier : string)
    (initialContent : Val) (s : State) :
  let error :=
    Error "this manager cannot create redis based client with redis connection, please create new manager with a valid redis connection" in
  let call :=
    makeDynamicJson_call (createDynamicJsonManager false) isPrimary (Redis uniqueIdentifier)
      initialContent in
  call s = (Ok (Rejected error), s) /\
  bind call await s = (Throw error, s).
Proof. split; reflexivity. Qed.

(** C9, where the claim as written fails: the call does not fail
    synchronously.  In the primary, on a manager without a client, the
    call for a document in the store returns to its caller, with a
    promise; it does not throw, so a [try] around the call alone catches
    nothing. *)
Lemma C9_the_call_itself_does_not_throw :
  let error :=
    Error "this manager cannot create redis based client with redis connection, please create new manager with a valid redis connection" in
  let call :=
    makeDynamicJson_call (createDynamicJsonManager false) true (Redis "doc") VUndefined in
  (call empty_state).1 = Ok (Rejected error) /\
  (call empty_state).1 <> Throw error /\
  (try_catch (bind call (fun p => ret (Some p))) (fun _ => ret None) empty_state).1 =
    Ok (Some (Rejected error)).
Proof. repeat split; discriminate. Qed.

(** ** batch and set on an array *)

(** [update] writes to the file or to the store, and leaves the objects of
    the process alone. *)
Lemma update_keeps_heap (redisClient : bool) (source : SourceType) (data : Val) (s : State) :
  heap (update redisClient source data s).2 = heap s.
Proof.
  unfold update, stringify, fs_writeFile, redis_set, bind, modify, throw, ret.
  destruct source as [fileFullPath | uniqueIdentifier | uniqueIdentifier]; simpl.
  - by destruct (JSON_stringify (heap s) data) as [[text |] | e].
  - destruct redisClient; [| reflexivity].
    by destruct (JSON_stringify (heap s) data) as [[text |] | e].
  - reflexivity.
Qed.


Lemma selector_or_empty_same (selector : Selector) (h : Heap) (obj : Val) :
  rs (selector_or_empty selector) h obj = rs selector h obj.
Proof.
  unfold rs, recursiveSelect. f_equal.
  destruct selector as [s | l | |]; simpl; try reflexivity.
  destruct (String.eqb_spec s "") as [-> | Hne]; reflexivity.
Qed.

Lemma length_resize (n : nat) (l : list Val) : length (resize n l) = n.
Proof. unfold resize. rewrite length_app, length_take, length_replicate. lia. Qed.

(** Reading back the key that [target[key] = value] wrote gives the value,
    on a plain object for every key and on an array for every key but
    [length]. *)
Lemma set_prop_get_prop (h : Heap) (a : addr) (o : HObj) (k : string) (v : Val) :
  h !! a = Some o ->
  (forall elems props, o = HArray elems props -> k <> "length") ->
  exists h', set_prop h a k v = Ok h' /\ get_prop h' (VRef a) k = Ok v.
Proof.
  intros Hcell Hkey. unfold set_prop. rewrite Hcell.
  assert (a < length h) as Ha by (by eapply lookup_lt_Some).
  destruct o as [props | elems props].
  - eexists. split; [reflexivity |]. simpl.
    rewrite list_lookup_insert_eq by done. by rewrite lookup_insert_eq.
  - specialize (Hkey elems props eq_refl).
    assert (String.eqb k "length" = false) as Hk by (by apply String.eqb_neq).
    rewrite Hk. destruct (array_index k) as [i |] eqn:Hindex.
    + eexists. split; [reflexivity |]. simpl.
      rewrite list_lookup_insert_eq by done. rewrite Hk, Hindex.
      rewrite list_lookup_insert_eq; [done |]. rewrite length_resize. lia.
    + eexists. split; [reflexivity |]. simpl.
      rewrite list_lookup_insert_eq by done. rewrite Hk, Hindex.
      by rewrite lookup_insert_eq.
Qed.

(** C10, as amended.  The [set] step of [batch] tests the target for an
    object that is not [null] and no more, where [set] also wants it not
    to be an array; on such a target it makes the assignment
    [target[key] = value].  For a target that is a plain object or an
    array, and a key other than [__proto__]:
    - a key that is not the [length] of an array is written, and reading
      it from the target gives the value;
    - [length] on an array, with a number for the value, resizes the array
      when the number is a length, and otherwise throws a [RangeError] and
      writes nothing;
    - on a plain object [set] writes the same key and returns [true]; on
      an array [set] returns [false] and changes nothing.
    On [{a: [1]}], [batch([{type: "set", selector: "a", key: "0", value:
    9}])] turns the array into [[9]], and [set("a", "0", 9)] leaves the
    document as it is. *)
Theorem C10_batch_set_writes_on_arrays :
  (forall redisClient source data selector key value s a o,
     rs selector (heap s) data = VRef a ->
     heap s !! a = Some o ->
     key <> "__proto__" ->
     let step := batch_step data (mkQuery TSet selector key value) s in
     ((forall elems props, o = HArray elems props -> key <> "length") ->
      exists h, step = (Ok tt, with_heap h s) /\ get_prop h (VRef a) key = Ok value) /\
     (forall elems props n,
        o = HArray elems props -> key = "length" -> value = VNum n ->
        step =
          if ((0 <=? n) && (n <? 4294967296))%Z
          then (Ok tt,
                with_heap (<[a := HArray (resize (Z.to_nat n) elems) props]> (heap s)) s)
          else (Throw (RangeError "Invalid array length"), s)) /\
     (forall props,
        o = HRecord props ->
        let written := <[a := HRecord (<[key := value]> props)]> (heap s) in
        let r := set_on redisClient source data selector key value s in
        step = (Ok tt, with_heap written s) /\
        r.1 = Ok (VBool true) /\ heap r.2 = written) /\
     (forall elems props,
        o = HArray elems props ->
        set_on redisClient source data selector key value s = (Ok (VBool false), s))) /\
  (let query := mkQuery TSet (SelString "a") "0" (VNum 9%Z) in
   let after_batch := batchSetDirect false (InMemory "doc") [query] array_doc in
   let after_set := setDirect false (InMemory "doc") (SelString "a", "0", VNum 9%Z) array_doc in
   array_elems (heap array_doc) (VRef 1) = [VNum 1%Z] /\
   array_elems (heap after_batch.2) (VRef 1) = [VNum 9%Z] /\
   (get false (InMemory "doc") (SelString "a.0") after_batch.2).1 = Ok (VNum 9%Z) /\
   after_set.2 = array_doc /\
   (get false (InMemory "doc") (SelString "a.0") after_set.2).1 = Ok (VNum 1%Z)).
Proof.
  split.
  - intros redisClient source data selector key value s a o Htarget Hcell _ step.
    assert (step = assign (VRef a) key value s) as Hstep.
    { subst step. unfold batch_step, bind, gets; simpl. by rewrite Htarget. }
    split; [| split; [| split]].
    + intros Hkey.
      destruct (set_prop_get_prop (heap s) a o key value Hcell Hkey) as (h & Hset & Hget).
      exists h. split; [| exact Hget].
      rewrite Hstep. unfold assign. by rewrite Hset.
    + intros elems props n -> -> ->. rewrite Hstep.
      unfold assign, set_prop. rewrite Hcell. simpl.
      by destruct ((0 <=? n) && (n <? 4294967296))%Z.
    + intros props -> written r. subst r written.
      rewrite (set_on_record redisClient source data selector key value s a props)
        by (by rewrite ?selector_or_empty_same).
      cbn [fst snd]. rewrite update_keeps_heap.
      split; [| by split].
      rewrite Hstep. unfold assign, set_prop. by rewrite Hcell.
    + intros elems props ->. apply set_on_other.
      rewrite selector_or_empty_same, Htarget.
      right; right. simpl. by rewrite Hcell.
  - repeat split; vm_compute; reflexivity.
Qed.

Lemma C10_batch_set_writes_on_arrays_witness :
  let query := mkQuery TSet (SelString "a") "0" (VNum 9%Z) in
  rs (SelString "a") (heap array_doc) (VRef 0) = VRef 1 /\
  heap array_doc !! 1 = Some (HArray [VNum 1%Z] ∅) /\
  "0" <> "__proto__" /\
  (exists h,
     batch_step (VRef 0) query array_doc = (Ok tt, with_heap h array_doc) /\
     get_prop h (VRef 1) "0" = Ok (VNum 9%Z)) /\
  set_on false (InMemory "doc") (VRef 0) (SelString "a") "0" (VNum 9%Z) array_doc =
    (Ok (VBool false), array_doc).
Proof.
  intros query.
  assert ("0" <> "__proto__") as Hkey by discriminate.
  split; [reflexivity |]. split; [reflexivity |]. split; [exact Hkey |].
  destruct (proj1 C10_batch_set_writes_on_arrays false (InMemory "doc") (VRef 0)
              (SelString "a") "0" (VNum 9%Z) array_doc 1 (HArray [VNum 1%Z] ∅)
              eq_refl eq_refl Hkey) as (Hwritten & _ & _ & Hrefused).
  split.
  - apply Hwritten. intros elems props _. discriminate.
  - exact (Hrefused [VNum 1%Z] ∅ eq_refl).
Defined.

(** C10, where the claim as written fails: a key that the [set] step of
    [batch] does not write, on a target that is an object.  On [{a: [1]}],
    [batch([{type: "set", selector: "a", key: "length", value: -1}])]
    reaches the array and makes the assignment, which throws a
    [RangeError]: the function under the wrapper rejects, and the array
    and its [length] are as before. *)
Lemma C10_length_is_not_written :
  let query := mkQuery TSet (SelString "a") "length" (VNum (-1)%Z) in
  let r := batchSet_body false (InMemory "doc") [query] array_doc in
  rs (SelString "a") (heap array_doc) (inMemory array_doc) = VRef 1 /\
  heap array_doc !! 1 = Some (HArray [VNum 1%Z] ∅) /\
  r = (Throw (RangeError "Invalid array length"), array_doc) /\
  get_prop (heap r.2) (VRef 1) "length" = Ok (VNum 1%Z).
Proof. vm_compute. repeat split. Qed.

(** ** Two mutations in flight *)

Lemma getAllData_in_two_parts (redisClient : bool) (source : SourceType) (s : State) :
  getAllData redisClient source s =
    (raw <- read_source redisClient source ;; deliver raw) s.
Proof.
  unfold getAllData, read_source, deliver, bind, gets, ret, fs_exists, fs_readFile, redis_get.
  destruct source as [path | uid | uid]; simpl.
  - destruct (bool_decide _); [| reflexivity].
    destruct (files s !! path); reflexivity.
  - destruct redisClient; reflexivity.
  - reflexivity.
Qed.

Lemma lockRedis_local (source : SourceType) (force : bool) (s : State) :
  is_redis source = false -> lockRedis source force s = (Ok true, s).
Proof.
  intros Hlocal. unfold lockRedis, bind, gets, ret; simpl.
  by rewrite Hlocal, andb_false_r.
Qed.

Lemma releaseRedis_local (source : SourceType) (force : bool) (s : State) :
  is_redis source = false -> releaseRedis source force s = (Ok tt, s).
Proof.
  intros Hlocal. unfold releaseRedis, bind, gets, ret; simpl.
  destruct (redisLockId s); [| reflexivity].
  by rewrite Hlocal, andb_false_r.
Qed.

(** C1 (the code departs from the claim).  Two wrapped mutations of a
    document kept in a file are called one after the other, whatever the
    two do with their snapshot ([set], [push], [unshift], [pop], [shift],
    [splice], [removeItemFromArray], [updateItemInArray] and [batch] all
    load it first).  The second call waits for the named lock while the
    first holds it.  The first wrapper starts its method, which begins to
    load the snapshot, and returns without waiting for it: the lock is
    passed on while the first body is still loading.  The second wrapper
    does the same.  In the state reached, both bodies have begun, neither
    has completed, and the lock is free. *)
Theorem C1_mutation_bodies_overlap (redisClient : bool) (fileFullPath : string) (s : State)
    (f g : Val -> M Val) :
  let source := JsonFile fileFullPath in
  (exists p,
     run redisClient source [Invoke 0; Invoke 1] (two_calls s f g) = Some p /\
     holder p = Some 0 /\ queue p = [1]) /\
  (exists p,
     run redisClient source [Invoke 0; Invoke 1; LockRedisSettled 0] (two_calls s f g) = Some p /\
     holder p = Some 1 /\ executing p 0) /\
  (exists p,
     run redisClient source [Invoke 0; Invoke 1; LockRedisSettled 0; LockRedisSettled 1]
       (two_calls s f g) = Some p /\
     holder p = None /\ queue p = [] /\
     executing p 0 /\ executing p 1 /\
     ~ completed p 0 /\ ~ completed p 1 /\
     state p = s).
Proof.
  intros source. unfold two_calls.
  repeat split.
  - eexists. simpl. repeat split.
  - eexists. simpl. rewrite lockRedis_local, releaseRedis_local by reflexivity. simpl.
    repeat split. eexists. split; reflexivity.
  - eexists. simpl. rewrite lockRedis_local, releaseRedis_local by reflexivity. simpl.
    rewrite lockRedis_local, releaseRedis_local by reflexivity. simpl.
    repeat split.
    + eexists. split; reflexivity.
    + eexists. split; reflexivity.
    + intros (c & r & Hc & Hr). injection Hc as <-. discriminate.
    + intros (c & r & Hc & Hr). injection Hc as <-. discriminate.
Qed.

(** Two calls of [push] on [{items: []}] in a file.  Both calls resolve
    while both bodies are still loading.  When both reads take the file
    before either body goes on, each body adds its value to its own copy of
    [{items: []}] and rewrites the file: both return [true], and the file
    ends with one value. *)
Example two_pushes_lose_one :
  match run false (JsonFile "doc.json")
          [Invoke 0; Invoke 1; LockRedisSettled 0; LockRedisSettled 1] two_pushes with
  | Some p =>
      map wrapper (calls p) = [WrapperSettled (Ok VUndefined); WrapperSettled (Ok VUndefined)] /\
      map body (calls p) = [Loading; Loading]
  | None => False
  end /\
  match run false (JsonFile "doc.json")
          [Invoke 0; Invoke 1; LockRedisSettled 0; LockRedisSettled 1;
           SnapshotRead 0; SnapshotRead 1; SnapshotDelivered 0; SnapshotDelivered 1]
          two_pushes with
  | Some p =>
      map body (calls p) = [BodySettled (Ok (VBool true)); BodySettled (Ok (VBool true))] /\
      files (state p) !! "doc.json" = Some (JObj [("items", JArr [JNum 2%Z])])
  | None => False
  end.
Proof. vm_compute. repeat split. Qed.

(** Under the protocol of the specification the second call cannot start
    before the first is done, and the file ends with both values. *)
Example two_pushes_as_specified :
  run_as_specified false (JsonFile "doc.json")
    [Invoke 0; Invoke 1; LockRedisSettled 0; LockRedisSettled 1] two_pushes = None /\
  match run_as_specified false (JsonFile "doc.json")
          [Invoke 0; Invoke 1; LockRedisSettled 0; SnapshotRead 0; SnapshotDelivered 0;
           LockRedisSettled 1; SnapshotRead 1; SnapshotDelivered 1] two_pushes with
  | Some p =>
      map wrapper (calls p) =
        [WrapperSettled (Ok (VBool true)); WrapperSettled (Ok (VBool true))] /\
      files (state p) !! "doc.json" = Some (JObj [("items", JArr [JNum 1%Z; JNum 2%Z])])
  | None => False
  end.
Proof. vm_compute. repeat split. Qed.

(** A document held in memory is loaded without a read, and there the
    method is over before its wrapper returns: no body is ever found in
    the middle of its work. *)
Lemma in_memory_bodies_are_atomic (redisClient : bool) (uniqueIdentifier : string)
    (trace : list Event) (p p' : Process) :
  Forall (fun c => at_work (body c) = false) (calls p) ->
  run redisClient (InMemory uniqueIdentifier) trace p = Some p' ->
  Forall (fun c => at_work (body c) = false) (calls p').
Proof.
  revert p. induction trace as [| ev trace IH]; intros p Hp; simpl.
  - by intros [= <-].
  - destruct (step redisClient (InMemory uniqueIdentifier) ev p) as [p1 |] eqn:Hstep;
      [| discriminate].
    intros Hrun. apply (IH p1); [| exact Hrun]. clear IH Hrun.
    assert (forall q, Forall (fun c => at_work (body c) = false) (calls q) ->
                      Forall (fun c => at_work (body c) = false) (calls (pass_lock q)))
      as Hpass.
    { intros q Hq. unfold pass_lock. destruct (queue q) as [| j rest]; simpl; [done |].
      apply Forall_forall. intros c Hc.
      apply list_elem_of_lookup in Hc as [k Hk].
      destruct (decide (j = k)) as [-> | Hne].
      - rewrite list_lookup_alter_eq in Hk.
        destruct (calls q !! k) as [c0 |] eqn:Hc0; [| discriminate].
        injection Hk as <-. simpl.
        rewrite Forall_forall in Hq. apply Hq. by eapply list_elem_of_lookup_2.
      - rewrite list_lookup_alter_ne in Hk by done.
        rewrite Forall_forall in Hq. apply Hq. by eapply list_elem_of_lookup_2. }
    assert (forall i c, at_work (body c) = false ->
                        Forall (fun c => at_work (body c) = false) (<[i := c]> (calls p)))
      as Hins.
    { intros i c Hc. apply Forall_insert; done. }
    destruct ev as [i | i | i | i]; simpl in Hstep; unfold invoke, snapshot_read in Hstep;
      destruct (calls p !! i) as [c |] eqn:Hc; try discriminate;
      pose proof (Forall_lookup_1 _ _ _ _ Hp Hc) as Hidle; simpl in Hidle.
    + destruct (wrapper c), (holder p); try discriminate; injection Hstep as <-; simpl;
        by apply Hins.
    + destruct (wrapper c); try discriminate.
      rewrite lockRedis_local in Hstep by reflexivity.
      destruct (run_method redisClient (InMemory uniqueIdentifier) c (state p)) as [r s1].
      injection Hstep as <-. apply Hpass. simpl. by apply Hins.
    + revert Hidle Hstep. destruct (body c); simpl; intros; discriminate.
    + revert Hidle Hstep. destruct (body c); simpl; intros; discriminate.
Qed.

(** ** The protocol of the specification keeps the bodies apart *)

Lemma pass_lock_serialized (p : Process) :
  (forall i c, calls p !! i = Some c -> quiet c) -> serialized (pass_lock p).
Proof.
  intros Hquiet. unfold pass_lock.
  destruct (queue p) as [| j rest]; intros i c Hc; simpl in *.
  - destruct (Hquiet i c Hc) as (Hbody & Hw1 & Hw2).
    split; [congruence | by intros [? | ?]].
  - destruct (decide (j = i)) as [-> | Hne].
    + rewrite list_lookup_alter_eq in Hc.
      destruct (calls p !! i) as [c0 |] eqn:Hc0; [| discriminate].
      injection Hc as <-. destruct (Hquiet i c0 Hc0) as (Hbody & _). simpl.
      split; [congruence | done].
    + rewrite list_lookup_alter_ne in Hc by done.
      destruct (Hquiet i c Hc) as (Hbody & Hw1 & Hw2).
      split; [congruence | by intros [? | ?]].
Qed.

Lemma settled_call_leaves_quiet (p : Process) (i : nat) (c' : Call) :
  serialized p -> holder p = Some i -> quiet c' ->
  forall j c, <[i := c']> (calls p) !! j = Some c -> quiet c.
Proof.
  intros Hser Hholder Hquiet j c Hc.
  apply list_lookup_insert_Some in Hc as [(-> & -> & _) | (Hne & Hc)]; [done |].
  destruct (Hser j c Hc) as [Hbody Hactive].
  assert (holder p = Some j -> False) as Hother.
  { rewrite Hholder. intros [= ->]. done. }
  repeat split.
  - destruct (at_work (body c)) eqn:Hwork; [| reflexivity].
    destruct Hother. apply Hactive. right. by apply Hbody.
  - intros Hw. apply Hother, Hactive. by left.
  - intros Hw. apply Hother, Hactive. by right.
Qed.

Lemma invoke_serialized (i : nat) (p p' : Process) :
  serialized p -> invoke i p = Some p' -> serialized p'.
Proof.
  intros Hser. unfold invoke.
  destruct (calls p !! i) as [c |] eqn:Hc; [| discriminate].
  destruct (Hser i c Hc) as [Hbody Hactive].
  destruct (wrapper c) eqn:Hw; try (destruct (holder p); discriminate).
  destruct (holder p) as [h |] eqn:Hholder; intros [= <-]; intros j cj Hcj; simpl in *;
    apply list_lookup_insert_Some in Hcj as [(-> & <- & _) | (Hne & Hcj)]; simpl.
  - split; [| by intros [? | ?]]. intros Hl. specialize (Hbody Hl). congruence.
  - destruct (Hser j cj Hcj) as [Hb Ha]. split; [done |]. intros H. rewrite <- Hholder. auto.
  - split; [| done]. intros Hl. specialize (Hbody Hl). congruence.
  - destruct (Hser j cj Hcj) as [Hb Ha]. split; [done |].
    intros H. specialize (Ha H). rewrite Hholder in Ha. discriminate.
Qed.

Lemma step_as_specified_serialized (redisClient : bool) (source : SourceType) (ev : Event)
    (p p' : Process) :
  serialized p -> step_as_specified redisClient source ev p = Some p' -> serialized p'.
Proof.
  intros Hser. destruct ev as [i | i | i | i]; simpl; [by apply invoke_serialized | | |];
    destruct (calls p !! i) as [c |] eqn:Hc; try discriminate;
    destruct (Hser i c Hc) as [Hbody Hactive].
  - destruct (wrapper c) eqn:Hw; try discriminate.
    assert (holder p = Some i) as Hholder by (apply Hactive; by left).
    assert (at_work (body c) = false) as Hnot.
    { destruct (at_work (body c)); [| reflexivity]. specialize (Hbody eq_refl). congruence. }
    destruct (lockRedis source false (state p)) as [[[|] | e] s1].
    + destruct source as [path | uid | uid].
      * intros [= <-]. intros j cj Hcj; simpl in *.
        apply list_lookup_insert_Some in Hcj as [(-> & <- & _) | (Hne & Hcj)]; simpl.
        -- split; [done | by intros _].
        -- apply (Hser j cj Hcj).
      * intros [= <-]. intros j cj Hcj; simpl in *.
        apply list_lookup_insert_Some in Hcj as [(-> & <- & _) | (Hne & Hcj)]; simpl.
        -- split; [done | by intros _].
        -- apply (Hser j cj Hcj).
      * destruct (run_method redisClient (InMemory uid) c s1) as [r s2].
        intros [= <-]. apply pass_lock_serialized. simpl.
        apply (settled_call_leaves_quiet p i); [done | done |].
        repeat split; simpl; discriminate.
    + intros [= <-]. apply pass_lock_serialized. simpl.
      apply (settled_call_leaves_quiet p i); [done | done |].
      repeat split; simpl; [done | discriminate | discriminate].
    + intros [= <-]. apply pass_lock_serialized. simpl.
      apply (settled_call_leaves_quiet p i); [done | done |].
      repeat split; simpl; [done | discriminate | discriminate].
  - destruct (body c) eqn:Hb; try discriminate.
    assert (wrapper c = AwaitingMethod) as Hw by (by apply Hbody).
    assert (holder p = Some i) as Hholder by (apply Hactive; by right).
    destruct (read_source redisClient source (state p)) as [[raw | e] s1].
    + intros [= <-]. intros j cj Hcj; simpl in *.
      apply list_lookup_insert_Some in Hcj as [(-> & <- & _) | (Hne & Hcj)]; simpl.
      * split; [done | by intros _].
      * apply (Hser j cj Hcj).
    + intros [= <-]. apply pass_lock_serialized. simpl.
      apply (settled_call_leaves_quiet p i); [done | done |].
      repeat split; simpl; discriminate.
  - destruct (body c) eqn:Hb; try discriminate.
    assert (wrapper c = AwaitingMethod) as Hw by (by apply Hbody).
    assert (holder p = Some i) as Hholder by (apply Hactive; by right).
    destruct (run_method_from raw c (state p)) as [r s1].
    intros [= <-]. apply pass_lock_serialized. simpl.
    apply (settled_call_leaves_quiet p i); [done | done |].
    repeat split; simpl; discriminate.
Qed.

(** Had the wrapper awaited its method, as the specification has it, no
    two bodies would ever be at work together, whatever the events and
    their order. *)
Lemma specified_protocol_serializes (redisClient : bool) (source : SourceType)
    (trace : list Event) (p p' : Process) :
  serialized p ->
  run_as_specified redisClient source trace p = Some p' ->
  forall i j, executing p' i -> executing p' j -> i = j.
Proof.
  intros Hser Hrun.
  assert (serialized p') as Hser'.
  { revert p Hser Hrun. induction trace as [| ev trace IH]; intros p Hser; simpl.
    - by intros [= <-].
    - destruct (step_as_specified redisClient source ev p) as [p1 |] eqn:Hstep;
        [| discriminate].
      apply IH. by eapply step_as_specified_serialized. }
  intros i j (ci & Hci & Hi) (cj & Hcj & Hj).
  destruct (Hser' i ci Hci) as [Hbi Hai]. destruct (Hser' j cj Hcj) as [Hbj Haj].
  assert (holder p' = Some i) as Hhi by (apply Hai; right; by apply Hbi).
  assert (holder p' = Some j) as Hhj by (apply Haj; right; by apply Hbj).
  congruence.
Qed.

Lemma two_calls_serialized (s : State) (f g : Val -> M Val) : serialized (two_calls s f g).
Proof.
  intros i c Hc. unfold two_calls in Hc; simpl in Hc.
  destruct i as [| [| i]]; simpl in Hc; [| | done]; injection Hc as <-; simpl;
    (split; [done | by intros [? | ?]]).
Qed.

(** ** The dispatcher behind a transaction of the primary *)

Lemma primary_free_skips_wait {A : Type} (wait : M unit) (rest : M A) (handler : Exn -> M A) (s : State) :
  primaryLock_locked s = false ->
  try_catch (locked <- gets primaryLock_locked ;;
             (if locked : bool then wait else ret tt) ;;
             rest) handler s =
    try_catch rest handler s.
Proof.
  intros Hfree. unfold try_catch, bind, gets, ret; simpl. by rewrite Hfree.
Qed.

Lemma primary_busy_waits {A : Type} (wait : M unit) (rest : M A) (handler : Exn -> M A) (s : State) :
  primaryLock_locked s = true ->
  try_catch (locked <- gets primaryLock_locked ;;
             (if locked : bool then wait else ret tt) ;;
             rest) handler s =
    match wait s with
    | (Ok _, s1) => try_catch rest handler s1
    | (Throw e, s1) => handler e s1
    end.
Proof.
  intros Hlocked. unfold try_catch, bind, gets; simpl. rewrite Hlocked.
  by destruct (wait s) as [[[] | e] s1].
Qed.

(** A request that arrives while the primary is inside a transaction of
    its own waits for it.  When the wait runs out the requester is sent
    that error; otherwise the request is served from the state in which
    the primary was found free. *)
Lemma listener_behind_primary_lock (redisClient : bool) (source : SourceType)
    (during_sleep : Wait -> nat -> State -> State) (generateQueryId : Z)
    (worker : nat) (msg : Request) (s : State) :
  request msg = uniqueEventId source ->
  primaryLock_locked s = true ->
  let listener := createWorkerListener redisClient source during_sleep generateQueryId worker msg in
  (exists s',
     listener s =
       (Ok tt,
        with_outbox
          (outbox s' ++
             [(worker, mkResponse (req_queryId msg) true
                         (Throw (Error "Could not acquire primary lock for operation")))])
          s')) \/
  (exists s1, primaryLock_locked s1 = false /\ listener s = listener s1).
Proof.
  intros Hmsg Hlocked listener. subst listener. unfold createWorkerListener.
  rewrite Hmsg, String.eqb_refl.
  rewrite primary_busy_waits by exact Hlocked.
  change ((console_log "worker listener waiting for primary to release" ;;
           waitForPrimaryLockIdRelease during_sleep) s)
    with (poll during_sleep ForPrimaryLock (fun s => negb (primaryLock_locked s))
            (console_log "primary released!")
            "Could not acquire primary lock for operation" 30 0
            (with_console
               (console s ++ [Log "worker listener waiting for primary to release"]) s)).
  destruct (poll_outcome during_sleep ForPrimaryLock (fun s => negb (primaryLock_locked s))
              (console_log "primary released!")
              "Could not acquire primary lock for operation" 30 0
              (with_console
                 (console s ++ [Log "worker listener waiting for primary to release"]) s))
    as [[s' ->] | (s1 & Hfree & ->)].
  - left. exists s'. reflexivity.
  - right. apply negb_true_iff in Hfree.
    exists (with_console (console s1 ++ [Log "primary released!"]) s1).
    split; [exact Hfree |].
    unfold console_log at 1, modify at 1.
    by rewrite primary_free_skips_wait.
Qed.

(** [generateQueryId] draws from the integers from 0 on, and the
    dispatcher tests [lockId] for truth: had it minted the token 0, it
    takes the token for none, and the holder's release for a release
    without a lock. *)
Example token_zero_counts_as_none :
  (createWorkerListener false (InMemory "mem:counter") (fun _ _ s => s) 7%Z 1
     (mkRequest "mem:counter" 99%Z QRelease (Some 0%Z))
     (with_lockId (Some 0%Z) (Some 5000%Z) counter_doc)).2 =
    with_outbox
      [(1, mkResponse 99%Z true (Throw (Error "there is no lock to release")))]
      (with_lockId (Some 0%Z) (Some 5000%Z) counter_doc).
Proof. reflexivity. Qed.

(** ** The proxy when the lock is refused *)

(** When the [lock] request fails, [transaction] rejects with that
    error: the callback does not run and nothing more is sent. *)
Lemma proxy_transaction_lock_refused (source : SourceType) (queryIds : nat -> Z)
    (answer : list Request -> Outcome Val) (cb : P unit) (timeout : Z) (s : ProxyState)
    (e : Exn) :
  let lockRequest :=
    mkRequest (uniqueEventId source) (queryIds (length (sent s))) (QLock timeout)
      (proxy_lockId s) in
  answer (sent s ++ [lockRequest]) = Throw e ->
  proxy_transaction source queryIds answer cb timeout s =
    (Throw e,
     mkProxy (proxy_lockId s) (sent s ++ [lockRequest])
       (proxy_console s ++ [Log "Acquiring lock"])).
Proof.
  intros lockRequest Hrefused.
  unfold proxy_transaction, lock, sendQuery, proxy_log, bind, modify; simpl.
  fold lockRequest. by rewrite Hrefused.
Qed.

(** ** replaceAll from a worker *)

(** The proxy sends [updateJsonFromProvided] under the type ["data"], which
    the dispatcher does not know: with no lock in the way the worker is
    answered [undefined], and nothing but the outbox changes, whatever the
    source of the document. *)
Lemma worker_replaceAll_is_ignored (redisClient : bool) (source : SourceType)
    (during_sleep : Wait -> nat -> State -> State) (generateQueryId : Z)
    (worker : nat) (queryId : Z) (presented : option Z) (newJson : Val) (s : State) :
  primaryLock_locked s = false ->
  lockId_set s = false ->
  createWorkerListener redisClient source during_sleep generateQueryId worker
    (mkRequest (uniqueEventId source) queryId (QData newJson) presented) s =
    (Ok tt, with_outbox (outbox s ++ [(worker, mkResponse queryId true (Ok VUndefined))]) s).
Proof.
  intros Hprimary Hset. unfold createWorkerListener; simpl.
  rewrite String.eqb_refl.
  unfold try_catch, bind, gets, ret, worker_send, modify; simpl.
  by rewrite Hprimary, Hset.
Qed.

Example proxy_replaceAll_sends_data :
  (proxy_updateJsonFromProvided (InMemory "doc") Z.of_nat always_grants (VRef 1) fresh_proxy).2 =
    mkProxy None [mkRequest "doc" 0%Z (QData (VRef 1)) None] [].
Proof. reflexivity. Qed.

(** * Further properties of the code *)

(** ** recursiveSelect *)

Lemma select_path_undefined (path : list string) (h : Heap) :
  select_path path h VUndefined = VUndefined.
Proof. by destruct path. Qed.

Lemma select_path_app (p q : list string) (h : Heap) (obj : Val) :
  select_path (p ++ q) h obj = select_path q h (select_path p h obj).
Proof.
  revert obj. induction p as [| k p IH]; intros obj; simpl; [reflexivity |].
  destruct (get_prop h obj k) as [v | e]; [apply IH |].
  by rewrite select_path_undefined.
Qed.

Lemma split_on_cons (sep : ascii) (s : string) :
  exists w ws, split_on sep s = w :: ws.
Proof.
  destruct s as [| c r]; simpl; [by eexists _, _ |].
  destruct (Ascii.eqb c sep); [by eexists _, _ |].
  destruct (split_on sep r); by eexists _, _.
Qed.

Lemma split_on_app (sep : ascii) (a b : string) :
  split_on sep (a +:+ String sep b) = split_on sep a ++ split_on sep b.
Proof.
  induction a as [| c r IH]; simpl.
  - by rewrite Ascii.eqb_refl.
  - destruct (Ascii.eqb c sep); [by rewrite IH |].
    rewrite IH. by destruct (split_on_cons sep r) as (w & ws & ->).
Qed.

(** X1.  Selecting along a path and then along a second one is selecting
    along the two put together, for a list of keys and for a dotted
    string alike: [rs("a.b", obj)] is [rs("b", rs("a", obj))]. *)
Theorem rs_composes (h : Heap) (obj : Val) :
  (forall p q : list string,
     rs (SelArray (p ++ q)) h obj = rs (SelArray q) h (rs (SelArray p) h obj)) /\
  (forall a b : string,
     rs (SelString (a +:+ "." +:+ b)) h obj = rs (SelString b) h (rs (SelString a) h obj)).
Proof.
  split.
  - intros p q. apply select_path_app.
  - intros a b. unfold rs, recursiveSelect, selector_segments.
    change ("." +:+ b) with (String "."%char b).
    by rewrite split_on_app, filter_app, select_path_app.
Qed.

Lemma split_on_without (sep : ascii) (s : string) :
  contains sep s = false -> split_on sep s = [s].
Proof.
  induction s as [| c r IH]; simpl; [reflexivity |].
  intros H. apply orb_false_elim in H as [Hc Hr]. rewrite Hc. by rewrite IH.
Qed.

Lemma join_with_snoc (sep : string) (x : string) (l : list string) (y : string) :
  join_with sep ((x :: l) ++ [y]) = join_with sep (x :: l) +:+ sep +:+ y.
Proof. simpl. by rewrite fold_left_app. Qed.

Lemma segments_of_joined (l : list string) :
  Forall (fun seg => seg <> "" /\ contains "."%char seg = false) l ->
  selector_segments (SelString (join_with "." l)) = l.
Proof.
  induction l as [| y l IH] using rev_ind; [reflexivity |].
  intros [Hl Hy]%Forall_app. apply Forall_singleton in Hy as [Hy Hdot].
  destruct l as [| x l].
  - simpl. rewrite split_on_without by done. by rewrite filter_cons_True.
  - rewrite join_with_snoc. unfold selector_segments in *.
    change ("." +:+ y) with (String "."%char y).
    rewrite split_on_app, filter_app, IH by done.
    rewrite split_on_without by done. by rewrite filter_cons_True.
Qed.

(** X2.  A dotted string selects what the list of its pieces selects:
    joining keys that are not empty and hold no dot by dots gives a string
    selector that stands for exactly those keys, in their order. *)
Theorem rs_dotted_string_is_its_keys (l : list string) (h : Heap) (obj : Val) :
  Forall (fun seg => seg <> "" /\ contains "."%char seg = false) l ->
  rs (SelString (join_with "." l)) h obj = rs (SelArray l) h obj.
Proof.
  intros Hl. unfold rs, recursiveSelect.
  by rewrite segments_of_joined.
Qed.

Lemma rs_dotted_string_is_its_keys_witness :
  Forall (fun seg => seg <> "" /\ contains "."%char seg = false) ["users"; "0"; "name"] /\
  rs (SelString (join_with "." ["users"; "0"; "name"])) (heap users_doc) (VRef 0) =
    rs (SelArray ["users"; "0"; "name"]) (heap users_doc) (VRef 0).
Proof.
  assert (Forall (fun seg => seg <> "" /\ contains "."%char seg = false)
            ["users"; "0"; "name"]) as Hkeys.
  { repeat constructor; discriminate. }
  split; [exact Hkeys |].
  apply (rs_dotted_string_is_its_keys ["users"; "0"; "name"] (heap users_doc) (VRef 0) Hkeys).
Defined.

Lemma split_on_pieces (sep : ascii) (s : string) :
  Forall (fun seg => contains sep seg = false) (split_on sep s).
Proof.
  induction s as [| c r IH]; simpl; [by repeat constructor |].
  destruct (Ascii.eqb c sep) eqn:Hc; [by constructor |].
  destruct (split_on sep r) as [| w ws]; [by repeat constructor; simpl; rewrite Hc |].
  apply Forall_cons in IH as [Hw Hws].
  constructor; [| done]. simpl. by rewrite Hc.
Qed.

(** X3.  No key that a string selector names is empty and none holds a
    dot, whatever the string: a key that is empty or has a dot in it can
    only be reached through a selector given as a list. *)
Theorem string_selector_keys (s : string) :
  Forall (fun seg => seg <> "" /\ contains "."%char seg = false)
    (selector_segments (SelString s)).
Proof.
  unfold selector_segments. apply Forall_forall. intros seg Hseg.
  apply list_elem_of_filter in Hseg as [Hne Hin].
  split; [exact Hne |].
  pose proof (split_on_pieces "."%char s) as Hall.
  rewrite Forall_forall in Hall. by apply Hall.
Qed.

(** X4.  Selecting never throws, and below a key that is not there
    nothing is found.  When the object is [undefined] or [null], or when
    the first key of the path is a member neither of the object nor of
    its prototype, the result is [undefined] however long the rest of the
    path is. *)
Theorem rs_below_a_missing_key (h : Heap) (obj : Val) (k : string) (rest : list string) :
  nullish obj = true \/ (get_prop h obj k = Ok VUndefined /\ may_inherit h obj k = false) ->
  rs (SelArray (k :: rest)) h obj = VUndefined.
Proof.
  intros [Hnull | [Hmissing _]]; unfold rs, recursiveSelect; simpl.
  - by destruct obj.
  - rewrite Hmissing. apply select_path_undefined.
Qed.

Lemma rs_below_a_missing_key_witness :
  (nullish (VRef 0) = true \/
   (get_prop (heap users_doc) (VRef 0) "groups" = Ok VUndefined /\
    may_inherit (heap users_doc) (VRef 0) "groups" = false)) /\
  rs (SelArray ["groups"; "0"; "name"]) (heap users_doc) (VRef 0) = VUndefined.
Proof.
  assert (nullish (VRef 0) = true \/
          (get_prop (heap users_doc) (VRef 0) "groups" = Ok VUndefined /\
           may_inherit (heap users_doc) (VRef 0) "groups" = false)) as Hmissing.
  { right. split; reflexivity. }
  split; [exact Hmissing |].
  apply (rs_below_a_missing_key (heap users_doc) (VRef 0) "groups" ["0"; "name"] Hmissing).
Defined.

(** ** The operations on a document held in memory *)

Lemma nothing_held (name : string) (s : State) : mutex s = ∅ -> name ∉ mutex s.
Proof. intros ->. apply not_elem_of_empty. Qed.

Lemma with_heap_same (s : State) : with_heap (heap s) s = s.
Proof. by destruct s. Qed.

Lemma getAllData_in_memory (redisClient : bool) (uid : string) (s : State) :
  truthy (inMemory s) = true ->
  getAllData redisClient (InMemory uid) s = (Ok (inMemory s), s).
Proof. intros Hdoc. unfold getAllData, bind, gets, ret; simpl. by rewrite Hdoc. Qed.

(** A wrapped method of a document in memory, the lock name being free:
    when the method leaves the lock table alone, the state after the call
    is the state after the method, and the call resolves to [undefined]. *)
Lemma lockMethod_in_memory {T : Type} (uid : string) (method : T -> M Val) (args : T)
    (s s' : State) (r : Outcome Val) :
  uid ∉ mutex s ->
  method args (with_mutex ({[uid]} ∪ mutex s) s) = (r, with_mutex ({[uid]} ∪ mutex s) s') ->
  mutex s' = mutex s ->
  lockMethod (InMemory uid) method args s = (Ok VUndefined, s').
Proof.
  intros Hfree Hmethod Hmutex.
  rewrite lockMethod_local by done. simpl. rewrite Hmethod. simpl.
  rewrite with_mutex_twice, mutex_taken_and_freed by done.
  rewrite <- Hmutex. by rewrite with_mutex_same.
Qed.

Lemma push_body_in_memory (redisClient : bool) (uid : string) (selector : Selector)
    (value : Val) (s : State) (a : addr) (elems : list Val) (props : gmap string Val) :
  truthy (inMemory s) = true ->
  rs selector (heap s) (inMemory s) = VRef a ->
  heap s !! a = Some (HArray elems props) ->
  push_body redisClient (InMemory uid) (selector, value) s =
    (Ok (VBool true), with_heap (<[a := HArray (elems ++ [value]) props]> (heap s)) s).
Proof.
  intros Hdoc Htarget Hcell. unfold push_body, bind.
  rewrite getAllData_in_memory by done.
  unfold push_on, bind, gets; simpl. rewrite Htarget; simpl. rewrite Hcell; simpl.
  unfold set_elements, modify, detached, update, ret; simpl. by rewrite Hcell.
Qed.

Lemma unshift_body_in_memory (redisClient : bool) (uid : string) (selector : Selector)
    (value : Val) (s : State) (a : addr) (elems : list Val) (props : gmap string Val) :
  truthy (inMemory s) = true ->
  rs selector (heap s) (inMemory s) = VRef a ->
  heap s !! a = Some (HArray elems props) ->
  unshift_body redisClient (InMemory uid) (selector, value) s =
    (Ok (VBool true), with_heap (<[a := HArray (value :: elems) props]> (heap s)) s).
Proof.
  intros Hdoc Htarget Hcell. unfold unshift_body, bind.
  rewrite getAllData_in_memory by done.
  unfold unshift_on, bind, gets; simpl. rewrite Htarget; simpl. rewrite Hcell; simpl.
  unfold set_elements, modify, detached, update, ret; simpl. by rewrite Hcell.
Qed.

Lemma pop_body_in_memory (redisClient : bool) (uid : string) (selector : Selector)
    (s : State) (a : addr) (elems : list Val) (props : gmap string Val) :
  truthy (inMemory s) = true ->
  rs selector (heap s) (inMemory s) = VRef a ->
  heap s !! a = Some (HArray elems props) ->
  pop_body redisClient (InMemory uid) selector s =
    (Ok (List.last elems VUndefined),
     with_heap (<[a := HArray (removelast elems) props]> (heap s)) s).
Proof.
  intros Hdoc Htarget Hcell. unfold pop_body, bind.
  rewrite getAllData_in_memory by done.
  unfold pop_on, bind, gets; simpl. rewrite Htarget; simpl. rewrite Hcell; simpl.
  unfold set_elements, modify, detached, update, ret; simpl. by rewrite Hcell.
Qed.

Lemma shift_body_in_memory (redisClient : bool) (uid : string) (selector : Selector)
    (s : State) (a : addr) (elems : list Val) (props : gmap string Val) :
  truthy (inMemory s) = true ->
  rs selector (heap s) (inMemory s) = VRef a ->
  heap s !! a = Some (HArray elems props) ->
  shift_body redisClient (InMemory uid) selector s =
    (Ok (hd VUndefined elems), with_heap (<[a := HArray (tail elems) props]> (heap s)) s).
Proof.
  intros Hdoc Htarget Hcell. unfold shift_body, bind.
  rewrite getAllData_in_memory by done.
  unfold shift_on, bind, gets; simpl. rewrite Htarget; simpl. rewrite Hcell; simpl.
  unfold set_elements, modify, detached, update, ret; simpl. by rewrite Hcell.
Qed.

(** X5.  [push] and [unshift] on a document in memory, with a selector
    that leads to an array: the value is put after the last element,
    respectively before the first, in the array itself; nothing else in
    the state changes, the lock name is free again, and the call resolves
    to [undefined] where the function under the wrapper returned [true]. *)
Theorem push_and_unshift_in_memory (redisClient : bool) (uid : string) (selector : Selector)
    (value : Val) (s : State) (a : addr) (elems : list Val) (props : gmap string Val) :
  uid ∉ mutex s ->
  truthy (inMemory s) = true ->
  rs selector (heap s) (inMemory s) = VRef a ->
  heap s !! a = Some (HArray elems props) ->
  (push_body redisClient (InMemory uid) (selector, value) s).1 = Ok (VBool true) /\
  pushDirect redisClient (InMemory uid) (selector, value) s =
    (Ok VUndefined, with_heap (<[a := HArray (elems ++ [value]) props]> (heap s)) s) /\
  (unshift_body redisClient (InMemory uid) (selector, value) s).1 = Ok (VBool true) /\
  unshiftDirect redisClient (InMemory uid) (selector, value) s =
    (Ok VUndefined, with_heap (<[a := HArray (value :: elems) props]> (heap s)) s).
Proof.
  intros Hfree Hdoc Htarget Hcell. repeat split.
  - by erewrite push_body_in_memory.
  - unfold pushDirect. eapply lockMethod_in_memory; [done | | reflexivity].
    by erewrite push_body_in_memory.
  - by erewrite unshift_body_in_memory.
  - unfold unshiftDirect. eapply lockMethod_in_memory; [done | | reflexivity].
    by erewrite unshift_body_in_memory.
Qed.

Lemma push_and_unshift_in_memory_witness :
  ("doc" ∉ mutex items_doc) /\
  truthy (inMemory items_doc) = true /\
  rs (SelString "items") (heap items_doc) (inMemory items_doc) = VRef 1 /\
  heap items_doc !! 1 = Some (HArray [VNum 1%Z; VNum 2%Z; VNum 3%Z; VNum 4%Z] ∅) /\
  (push_body false (InMemory "doc") (SelString "items", VNum 5%Z) items_doc).1 =
    Ok (VBool true) /\
  pushDirect false (InMemory "doc") (SelString "items", VNum 5%Z) items_doc =
    (Ok VUndefined,
     with_heap
       (<[1 := HArray ([VNum 1%Z; VNum 2%Z; VNum 3%Z; VNum 4%Z] ++ [VNum 5%Z]) ∅]>
          (heap items_doc)) items_doc) /\
  (unshift_body false (InMemory "doc") (SelString "items", VNum 5%Z) items_doc).1 =
    Ok (VBool true) /\
  unshiftDirect false (InMemory "doc") (SelString "items", VNum 5%Z) items_doc =
    (Ok VUndefined,
     with_heap
       (<[1 := HArray (VNum 5%Z :: [VNum 1%Z; VNum 2%Z; VNum 3%Z; VNum 4%Z]) ∅]>
          (heap items_doc)) items_doc).
Proof.
  assert ("doc" ∉ mutex items_doc) as Hfree by (by apply nothing_held).
  split; [exact Hfree |]. split; [reflexivity |]. split; [reflexivity |].
  split; [reflexivity |].
  apply (push_and_unshift_in_memory false "doc" (SelString "items") (VNum 5%Z) items_doc 1
           [VNum 1%Z; VNum 2%Z; VNum 3%Z; VNum 4%Z] ∅ Hfree eq_refl eq_refl eq_refl).
Defined.

(** X6.  [pop] and [shift] on a document in memory, with a selector that
    leads to an array.  The function under the wrapper takes the last
    element, respectively the first, out of the array and returns it; on
    an empty array it returns [undefined] and the state stays as it is.
    The call does the same to the array, but resolves to [undefined]: the
    element taken out does not reach the caller. *)
Theorem pop_and_shift_in_memory (redisClient : bool) (uid : string) (selector : Selector)
    (s : State) (a : addr) (elems : list Val) (props : gmap string Val) :
  uid ∉ mutex s ->
  truthy (inMemory s) = true ->
  rs selector (heap s) (inMemory s) = VRef a ->
  heap s !! a = Some (HArray elems props) ->
  (forall front x, elems = front ++ [x] ->
     let s' := with_heap (<[a := HArray front props]> (heap s)) s in
     pop_body redisClient (InMemory uid) selector s = (Ok x, s') /\
     popDirect redisClient (InMemory uid) selector s = (Ok VUndefined, s')) /\
  (forall x back, elems = x :: back ->
     let s' := with_heap (<[a := HArray back props]> (heap s)) s in
     shift_body redisClient (InMemory uid) selector s = (Ok x, s') /\
     shiftDirect redisClient (InMemory uid) selector s = (Ok VUndefined, s')) /\
  (elems = [] ->
     pop_body redisClient (InMemory uid) selector s = (Ok VUndefined, s) /\
     shift_body redisClient (InMemory uid) selector s = (Ok VUndefined, s)).
Proof.
  intros Hfree Hdoc Htarget Hcell. repeat split.
  - erewrite pop_body_in_memory by done. subst elems.
    by rewrite last_last, removelast_last.
  - unfold popDirect. eapply lockMethod_in_memory; [done | | reflexivity].
    erewrite pop_body_in_memory by done. subst elems.
    by rewrite removelast_last.
  - erewrite shift_body_in_memory by done. by subst elems.
  - unfold shiftDirect. eapply lockMethod_in_memory; [done | | reflexivity].
    erewrite shift_body_in_memory by done. by subst elems.
  - erewrite pop_body_in_memory by done. subst elems. simpl.
    by rewrite list_insert_id, with_heap_same.
  - erewrite shift_body_in_memory by done. subst elems. simpl.
    by rewrite list_insert_id, with_heap_same.
Qed.

Lemma pop_and_shift_in_memory_witness :
  let elems := [VNum 1%Z; VNum 2%Z; VNum 3%Z; VNum 4%Z] in
  ("doc" ∉ mutex items_doc) /\
  truthy (inMemory items_doc) = true /\
  rs (SelString "items") (heap items_doc) (inMemory items_doc) = VRef 1 /\
  heap items_doc !! 1 = Some (HArray elems ∅) /\
  elems = [VNum 1%Z; VNum 2%Z; VNum 3%Z] ++ [VNum 4%Z] /\
  pop_body false (InMemory "doc") (SelString "items") items_doc =
    (Ok (VNum 4%Z),
     with_heap (<[1 := HArray [VNum 1%Z; VNum 2%Z; VNum 3%Z] ∅]> (heap items_doc)) items_doc) /\
  popDirect false (InMemory "doc") (SelString "items") items_doc =
    (Ok VUndefined,
     with_heap (<[1 := HArray [VNum 1%Z; VNum 2%Z; VNum 3%Z] ∅]> (heap items_doc)) items_doc).
Proof.
  intros elems.
  assert ("doc" ∉ mutex items_doc) as Hfree by (by apply nothing_held).
  split; [exact Hfree |]. split; [reflexivity |]. split; [reflexivity |].
  split; [reflexivity |]. split; [reflexivity |].
  apply (proj1 (pop_and_shift_in_memory false "doc" (SelString "items") items_doc 1 elems ∅
                  Hfree eq_refl eq_refl eq_refl)
           [VNum 1%Z; VNum 2%Z; VNum 3%Z] (VNum 4%Z) eq_refl).
Defined.

(** X7.  On a document in memory and with a selector that does not lead
    to an array, the seven operations that work on an array return [false]
    and leave the state as it is: nothing is written and [update] is not
    called.  The selector is one whose keys are read from the objects
    themselves or are missing altogether: none is a member of a prototype
    (through [__proto__] a selector can reach [Array.prototype], which is
    an array). *)
Theorem array_operations_need_an_array (redisClient : bool) (uid : string)
    (selector : Selector) (s : State) :
  truthy (inMemory s) = true ->
  inherited_on_path (selector_segments selector) (heap s) (inMemory s) = false ->
  isArray (heap s) (rs selector (heap s) (inMemory s)) = false ->
  let source := InMemory uid in
  (forall value, push_body redisClient source (selector, value) s = (Ok (VBool false), s)) /\
  (forall value, unshift_body redisClient source (selector, value) s = (Ok (VBool false), s)) /\
  pop_body redisClient source selector s = (Ok (VBool false), s) /\
  shift_body redisClient source selector s = (Ok (VBool false), s) /\
  (forall startIndex deleteCount,
     splice_body redisClient source (selector, startIndex, deleteCount) s =
       (Ok (VBool false), s)) /\
  (forall item key,
     removeItemFromArray_body redisClient source (selector, item, key) s =
       (Ok (VBool false), s)) /\
  (forall item updatedItem key,
     updateItemInArray_body redisClient source (selector, item, updatedItem, key) s =
       (Ok (VBool false), s)).
Proof.
  intros Hdoc _ Hshape source. subst source.
  repeat split; intros;
    unfold push_body, unshift_body, pop_body, shift_body, splice_body,
      removeItemFromArray_body, updateItemInArray_body, bind;
    rewrite getAllData_in_memory by done;
    unfold push_on, unshift_on, pop_on, shift_on, splice_on, removeItemFromArray_on,
      updateItemInArray_on, bind, gets, ret; simpl;
    rewrite Hshape; by rewrite andb_false_r.
Qed.

Lemma array_operations_need_an_array_witness :
  let source := InMemory "mem:counter" in
  let selector := SelString "counter" in
  truthy (inMemory counter_doc) = true /\
  inherited_on_path (selector_segments selector) (heap counter_doc) (inMemory counter_doc) =
    false /\
  isArray (heap counter_doc) (rs selector (heap counter_doc) (inMemory counter_doc)) = false /\
  (forall value,
     push_body false source (selector, value) counter_doc = (Ok (VBool false), counter_doc)) /\
  (forall value,
     unshift_body false source (selector, value) counter_doc =
       (Ok (VBool false), counter_doc)) /\
  pop_body false source selector counter_doc = (Ok (VBool false), counter_doc) /\
  shift_body false source selector counter_doc = (Ok (VBool false), counter_doc) /\
  (forall startIndex deleteCount,
     splice_body false source (selector, startIndex, deleteCount) counter_doc =
       (Ok (VBool false), counter_doc)) /\
  (forall item key,
     removeItemFromArray_body false source (selector, item, key) counter_doc =
       (Ok (VBool false), counter_doc)) /\
  (forall item updatedItem key,
     updateItemInArray_body false source (selector, item, updatedItem, key) counter_doc =
       (Ok (VBool false), counter_doc)).
Proof.
  intros source selector.
  split; [reflexivity |]. split; [reflexivity |]. split; [reflexivity |].
  apply (array_operations_need_an_array false "mem:counter" selector counter_doc
           eq_refl eq_refl eq_refl).
Defined.

(** *** A path that led to a reference still leads to it after a push *)

Lemma select_path_primitive (path : list string) (h : Heap) (v : Val) :
  primitive v = true -> primitive (select_path path h v) = true.
Proof.
  revert v. induction path as [| k path IH]; intros v Hv; simpl; [exact Hv |].
  destruct v as [| | b | n | str | c]; simpl; try reflexivity; try (by apply IH);
    [| discriminate].
  destruct (String.eqb k "length"); [by apply IH |].
  destruct (array_index k) as [i |]; [| by apply IH].
  apply IH. unfold string_at. by destruct (String.get i str).
Qed.

Lemma get_prop_after_push (h : Heap) (a : addr) (elems : list Val) (props : gmap string Val)
    (x v : Val) (k : string) (c : addr) :
  h !! a = Some (HArray elems props) ->
  get_prop h v k = Ok (VRef c) ->
  get_prop (<[a := HArray (elems ++ [x]) props]> h) v k = Ok (VRef c).
Proof.
  intros Hcell Hget.
  destruct v as [| | b | n | str | d]; simpl in *; try done.
  destruct (decide (d = a)) as [-> | Hne].
  - rewrite Hcell in Hget.
    rewrite list_lookup_insert_eq by (by eapply lookup_lt_Some).
    destruct (String.eqb k "length"); [done |].
    destruct (array_index k) as [i |]; [| done].
    destruct (elems !! i) as [w |] eqn:Hi; [| done].
    by rewrite (lookup_app_l_Some _ _ _ _ Hi).
  - by rewrite list_lookup_insert_ne.
Qed.

Lemma select_path_after_push (path : list string) (h : Heap) (a : addr) (elems : list Val)
    (props : gmap string Val) (x v : Val) (b : addr) :
  h !! a = Some (HArray elems props) ->
  select_path path h v = VRef b ->
  select_path path (<[a := HArray (elems ++ [x]) props]> h) v = VRef b.
Proof.
  intros Hcell. revert v. induction path as [| k path IH]; intros v; simpl; [done |].
  destruct (get_prop h v k) as [w | e] eqn:Hget; [| discriminate].
  intros Hrest. destruct (primitive w) eqn:Hw.
  - pose proof (select_path_primitive path h w Hw) as Hprim.
    rewrite Hrest in Hprim. discriminate.
  - destruct w as [| | bb | n | str | c]; try discriminate.
    rewrite (get_prop_after_push h a elems props x v k c Hcell Hget).
    by apply IH.
Qed.

(** X8.  On a document in memory, [push] followed by [pop] with the same
    selector gives back the state from before the two calls: the function
    under the wrapper of [pop] returns the value that was pushed, and both
    calls resolve to [undefined]. *)
Theorem push_then_pop_in_memory (redisClient : bool) (uid : string) (selector : Selector)
    (value : Val) (s : State) (a : addr) (elems : list Val) (props : gmap string Val) :
  uid ∉ mutex s ->
  truthy (inMemory s) = true ->
  rs selector (heap s) (inMemory s) = VRef a ->
  heap s !! a = Some (HArray elems props) ->
  let pushed := pushDirect redisClient (InMemory uid) (selector, value) s in
  pushed.1 = Ok VUndefined /\
  pop_body redisClient (InMemory uid) selector pushed.2 = (Ok value, s) /\
  popDirect redisClient (InMemory uid) selector pushed.2 = (Ok VUndefined, s).
Proof.
  intros Hfree Hdoc Htarget Hcell pushed. subst pushed.
  set (s1 := with_heap (<[a := HArray (elems ++ [value]) props]> (heap s)) s).
  assert (pushDirect redisClient (InMemory uid) (selector, value) s = (Ok VUndefined, s1))
    as ->.
  { unfold pushDirect. eapply lockMethod_in_memory; [done | | reflexivity].
    by erewrite push_body_in_memory. }
  assert (a < length (heap s)) as Ha by (by eapply lookup_lt_Some).
  assert (rs selector (heap s1) (inMemory s1) = VRef a) as Htarget1.
  { unfold rs, recursiveSelect in *. simpl. by apply select_path_after_push. }
  assert (heap s1 !! a = Some (HArray (elems ++ [value]) props)) as Hcell1.
  { simpl. by rewrite list_lookup_insert_eq. }
  assert (with_heap (<[a := HArray elems props]> (heap s1)) s1 = s) as Hback.
  { simpl. rewrite list_insert_insert_eq, list_insert_id by done.
    change (with_heap (heap s) s1) with (with_heap (heap s) s). apply with_heap_same. }
  assert (pop_body redisClient (InMemory uid) selector s1 = (Ok value, s)) as Hbody.
  { erewrite pop_body_in_memory by done. by rewrite last_last, removelast_last, Hback. }
  assert (popDirect redisClient (InMemory uid) selector s1 =
            (Ok VUndefined, with_heap (<[a := HArray elems props]> (heap s1)) s1)) as Hcall.
  { unfold popDirect. eapply lockMethod_in_memory; [done | | reflexivity].
    erewrite pop_body_in_memory by done. by rewrite removelast_last. }
  rewrite Hback in Hcall. done.
Qed.

Lemma push_then_pop_in_memory_witness :
  let pushed := pushDirect false (InMemory "doc") (SelString "items", VNum 5%Z) items_doc in
  ("doc" ∉ mutex items_doc) /\
  truthy (inMemory items_doc) = true /\
  rs (SelString "items") (heap items_doc) (inMemory items_doc) = VRef 1 /\
  heap items_doc !! 1 = Some (HArray [VNum 1%Z; VNum 2%Z; VNum 3%Z; VNum 4%Z] ∅) /\
  pushed.1 = Ok VUndefined /\
  pop_body false (InMemory "doc") (SelString "items") pushed.2 = (Ok (VNum 5%Z), items_doc) /\
  popDirect false (InMemory "doc") (SelString "items") pushed.2 = (Ok VUndefined, items_doc).
Proof.
  intros pushed.
  assert ("doc" ∉ mutex items_doc) as Hfree by (by apply nothing_held).
  split; [exact Hfree |]. split; [reflexivity |]. split; [reflexivity |].
  split; [reflexivity |].
  apply (push_then_pop_in_memory false "doc" (SelString "items") (VNum 5%Z) items_doc 1
           [VNum 1%Z; VNum 2%Z; VNum 3%Z; VNum 4%Z] ∅ Hfree eq_refl eq_refl eq_refl).
Defined.

(** ** An element that is [null] or [undefined] in the way of a search by key *)

Lemma findIndex_from_throws (f : Val -> Outcome bool) (l : list Val) (n : nat) (x : Val)
    (e : Exn) (i : Z) :
  l !! n = Some x ->
  f x = Throw e ->
  Forall (fun y => f y = Ok false) (take n l) ->
  findIndex_from f l i = Throw e.
Proof.
  revert n i. induction l as [| y l IH]; intros n i Hn Hx Hbefore; [done |].
  destruct n as [| n]; simpl in *.
  - injection Hn as ->. by rewrite Hx.
  - apply Forall_cons in Hbefore as [Hy Hbefore]. rewrite Hy. by eapply IH.
Qed.

(** With a key, the callback of the search does not depend on the
    comparison used without one. *)
Lemma matches_with_a_key (h : Heap) (same same' : Val -> Val -> bool) (item : Val) (key : Key)
    (ti : Val) :
  key_given key = true ->
  matches h same item key ti = matches h same' item key ti.
Proof. intros Hkey. unfold matches. by rewrite Hkey. Qed.

(** X9.  [removeItemFromArray] and [updateItemInArray] with a key read the
    key from every element they pass.  When the search comes to an element
    that is [null] or [undefined] before it found a match, reading the key
    throws a [TypeError]: the function under the wrapper rejects with it,
    nothing is written and [update] is not called.  The elements passed
    before are elements that have the key themselves, as the item does,
    with a value of the kind of the item's, so that [==] compares the two
    values as they are. *)
Theorem search_by_key_stops_at_null (redisClient : bool) (source : SourceType) (data : Val)
    (selector : Selector) (item updatedItem : Val) (key : Key) (s : State) (a : addr)
    (elems : list Val) (props : gmap string Val) (n : nat) (x : Val) :
  key_given key = true ->
  rs selector (heap s) data = VRef a ->
  heap s !! a = Some (HArray elems props) ->
  elems !! n = Some x ->
  nullish x = true ->
  Forall (fun y => plain_comparison (heap s) item key y = true /\
                   matches (heap s) (loose_eq (heap s)) item key y = Ok false)
    (take n elems) ->
  exists msg,
    removeItemFromArray_on redisClient source data selector item key s =
      (Throw (TypeError msg), s) /\
    updateItemInArray_on redisClient source data selector item updatedItem key s =
      (Throw (TypeError msg), s).
Proof.
  intros Hkey Htarget Hcell Hn Hx Hbefore.
  assert (exists msg, forall same, matches (heap s) same item key x = Throw (TypeError msg))
    as [msg Hthrows].
  { unfold matches. rewrite Hkey. simpl. destruct x; try discriminate; by eexists. }
  exists msg.
  assert (forall same,
            findIndex (matches (heap s) same item key) elems = Throw (TypeError msg)) as Hfind.
  { intros same. unfold findIndex. eapply findIndex_from_throws; [exact Hn | apply Hthrows |].
    eapply Forall_impl; [exact Hbefore |]. intros y [_ Hy]. simpl in Hy.
    by rewrite (matches_with_a_key _ same (loose_eq (heap s))). }
  split.
  - unfold removeItemFromArray_on, bind, gets, lift; cbn -[findIndex].
    rewrite Htarget; cbn -[findIndex]. rewrite Hcell; cbn -[findIndex]. by rewrite Hfind.
  - unfold updateItemInArray_on, bind, gets, lift; cbn -[findIndex].
    rewrite Htarget; cbn -[findIndex]. rewrite Hcell; cbn -[findIndex]. by rewrite Hfind.
Qed.

Lemma search_by_key_stops_at_null_witness :
  let h := heap holed_doc in
  key_given (KeyString "id") = true /\
  rs (SelString "users") h (VRef 0) = VRef 1 /\
  h !! 1 = Some (HArray [VRef 2; VNull; VRef 3] ∅) /\
  [VRef 2; VNull; VRef 3] !! 1 = Some VNull /\
  nullish VNull = true /\
  Forall (fun y => plain_comparison h (VRef 4) (KeyString "id") y = true /\
                   matches h (loose_eq h) (VRef 4) (KeyString "id") y = Ok false)
    (take 1 [VRef 2; VNull; VRef 3]) /\
  exists msg,
    removeItemFromArray_on false (InMemory "doc") (VRef 0) (SelString "users") (VRef 4)
      (KeyString "id") holed_doc = (Throw (TypeError msg), holed_doc) /\
    updateItemInArray_on false (InMemory "doc") (VRef 0) (SelString "users") (VRef 4)
      (VRef 4) (KeyString "id") holed_doc = (Throw (TypeError msg), holed_doc).
Proof.
  intros h.
  assert (Forall (fun y => plain_comparison h (VRef 4) (KeyString "id") y = true /\
                           matches h (loose_eq h) (VRef 4) (KeyString "id") y = Ok false)
            (take 1 [VRef 2; VNull; VRef 3])) as Hbefore.
  { repeat constructor. }
  split; [reflexivity |]. split; [reflexivity |]. split; [reflexivity |].
  split; [reflexivity |]. split; [reflexivity |]. split; [exact Hbefore |].
  apply (search_by_key_stops_at_null false (InMemory "doc") (VRef 0) (SelString "users")
           (VRef 4) (VRef 4) (KeyString "id") holed_doc 1 [VRef 2; VNull; VRef 3] ∅ 1 VNull
           eq_refl eq_refl eq_refl eq_refl eq_refl Hbefore).
Defined.

(** ** batch *)

Lemma batch_step_outcome (data : Val) (query : JsonUpdateQuery) (s : State) :
  (exists h, batch_step data query s = (Ok tt, with_heap h s)) \/
  (exists e, batch_step data query s = (Throw e, s)).
Proof.
  unfold batch_step, bind, gets, ret; simpl.
  destruct (q_type query); destruct (_ && _);
    try (left; exists (heap s); by rewrite with_heap_same).
  - left. unfold set_elements, modify.
    destruct (rs _ _ _) as [| | | | | a]; try (exists (heap s); by rewrite with_heap_same).
    destruct (heap s !! a) as [[|] |]; try (exists (heap s); by rewrite with_heap_same).
    by eexists.
  - left. unfold set_elements, modify.
    destruct (rs _ _ _) as [| | | | | a]; try (exists (heap s); by rewrite with_heap_same).
    destruct (heap s !! a) as [[|] |]; try (exists (heap s); by rewrite with_heap_same).
    by eexists.
  - unfold assign, throw.
    destruct (rs _ _ _) as [| | | | | a]; try (right; by eexists).
    destruct (set_prop (heap s) a (q_key query) (q_value query)) as [h | e];
      [left | right]; by eexists.
Qed.

Lemma batch_loop_outcome (data : Val) (queries : list JsonUpdateQuery) (s : State) :
  exists r h, batch_loop data queries s = (r, with_heap h s).
Proof.
  revert s. induction queries as [| query queries IH]; intros s; simpl.
  - exists (Ok tt), (heap s). by rewrite with_heap_same.
  - unfold bind.
    destruct (batch_step_outcome data query s) as [[h ->] | [e ->]].
    + destruct (IH (with_heap h s)) as (r & h' & ->). by exists r, h'.
    + exists (Throw e), (heap s). by rewrite with_heap_same.
Qed.

Lemma batch_loop_app (data : Val) (before later : list JsonUpdateQuery) (s : State) :
  batch_loop data (before ++ later) s =
    (batch_loop data before ;; batch_loop data later) s.
Proof.
  revert s. induction before as [| query before IH]; intros s; simpl.
  - reflexivity.
  - unfold bind. destruct (batch_step data query s) as [[[] | e] s1]; [| reflexivity].
    rewrite IH. reflexivity.
Qed.

(** X10.  [batch] stops at the first query that throws: the queries before
    it have been applied to the snapshot, the ones after it are not looked
    at, [update] is not called, and the function under the wrapper rejects
    with the error.  For a document in memory the snapshot is the document
    itself, which keeps what the first queries did. *)
Theorem batch_stops_at_the_first_failure (redisClient : bool) (source : SourceType)
    (data : Val) (before later : list JsonUpdateQuery) (query : JsonUpdateQuery)
    (s s1 : State) (e : Exn) :
  batch_loop data before s = (Ok tt, s1) ->
  (batch_step data query s1).1 = Throw e ->
  batchSet_on redisClient source data (before ++ query :: later) s = (Throw e, s1).
Proof.
  intros Hbefore Hquery. unfold batchSet_on, bind.
  rewrite batch_loop_app. unfold bind. rewrite Hbefore. simpl. unfold bind.
  destruct (batch_step_outcome data query s1) as [[h Hok] | [e' Hthrow]].
  - rewrite Hok in Hquery. discriminate.
  - rewrite Hthrow in Hquery |- *. by injection Hquery as ->.
Qed.

Lemma batch_stops_at_the_first_failure_witness :
  let before := [mkQuery TSet (SelString "a") "0" (VNum 9%Z)] in
  let failing := mkQuery TSet (SelString "a") "length" (VNum (-1)%Z) in
  let later := [mkQuery TPush (SelString "a") "" (VNum 7%Z)] in
  let s1 := with_heap [HRecord {[ "a" := VRef 1 ]}; HArray [VNum 9%Z] ∅] array_doc in
  batch_loop (VRef 0) before array_doc = (Ok tt, s1) /\
  (batch_step (VRef 0) failing s1).1 = Throw (RangeError "Invalid array length") /\
  batchSet_on false (InMemory "doc") (VRef 0) (before ++ failing :: later) array_doc =
    (Throw (RangeError "Invalid array length"), s1).
Proof.
  intros before failing later s1.
  assert (batch_loop (VRef 0) before array_doc = (Ok tt, s1)) as Hbefore by reflexivity.
  assert ((batch_step (VRef 0) failing s1).1 = Throw (RangeError "Invalid array length"))
    as Hfailing by reflexivity.
  split; [exact Hbefore |]. split; [exact Hfailing |].
  apply (batch_stops_at_the_first_failure false (InMemory "doc") (VRef 0) before later failing
           array_doc s1 (RangeError "Invalid array length") Hbefore Hfailing).
Defined.

Lemma getAllData_outcome (redisClient : bool) (source : SourceType) (s : State) :
  exists r h, getAllData redisClient source s = (r, with_heap h s).
Proof.
  unfold getAllData, bind, gets, ret, new_object, fs_exists, fs_readFile, redis_get, parse;
    simpl.
  destruct source as [path | uid | uid]; simpl.
  - destruct (bool_decide _).
    + destruct (files s !! path) as [text |].
      * destruct (JSON_parse text (heap s)) as [v h1]. simpl.
        destruct (truthy v); by eexists _, _.
      * eexists _, (heap s). by rewrite with_heap_same.
    + by eexists _, _.
  - destruct redisClient; simpl.
    + destruct (truthy _); [| by eexists _, _].
      eexists _, (heap s). by rewrite with_heap_same.
    + by eexists _, _.
  - destruct (truthy (inMemory s)); [| by eexists _, _].
    eexists _, (heap s). by rewrite with_heap_same.
Qed.

(** X11.  A [batch] that fails leaves a document kept in a file as it was:
    whatever the queries, when the function under the wrapper rejects, the
    files are the ones from before the call.  Its changes were made to a
    snapshot that is dropped. *)
Theorem failed_batch_leaves_the_file (redisClient : bool) (fileFullPath : string)
    (queries : list JsonUpdateQuery) (s : State) (e : Exn) :
  (batchSet_body redisClient (JsonFile fileFullPath) queries s).1 = Throw e ->
  files (batchSet_body redisClient (JsonFile fileFullPath) queries s).2 = files s.
Proof.
  unfold batchSet_body, bind.
  destruct (getAllData_outcome redisClient (JsonFile fileFullPath) s) as (r & h & ->).
  destruct r as [data | e']; [| reflexivity].
  unfold batchSet_on, bind.
  destruct (batch_loop_outcome data queries (with_heap h s)) as (r & h' & ->).
  destruct r as [[] | e']; [discriminate | reflexivity].
Qed.

Lemma failed_batch_leaves_the_file_witness :
  let queries := [mkQuery TSet (SelArray []) "x" (VNum 1%Z);
                  mkQuery TSet (SelString "a") "length" (VNum (-1)%Z)] in
  let r := batchSet_body false (JsonFile "doc.json") queries array_file in
  r.1 = Throw (RangeError "Invalid array length") /\
  files r.2 = files array_file.
Proof.
  intros queries r.
  assert (r.1 = Throw (RangeError "Invalid array length")) as Hfails by (vm_compute; reflexivity).
  split; [exact Hfails |].
  apply (failed_batch_leaves_the_file false "doc.json" queries array_file
           (RangeError "Invalid array length") Hfails).
Defined.

Lemma batch_step_push (data : Val) (query : JsonUpdateQuery) (s : State) (a : addr)
    (elems : list Val) (props : gmap string Val) :
  q_type query = TPush ->
  rs (q_selector query) (heap s) data = VRef a ->
  heap s !! a = Some (HArray elems props) ->
  batch_step data query s =
    (Ok tt, with_heap (<[a := HArray (elems ++ [q_value query]) props]> (heap s)) s).
Proof.
  intros Htype Htarget Hcell. unfold batch_step, bind, gets; simpl.
  rewrite Htype, Htarget; simpl. rewrite Hcell; simpl.
  unfold set_elements, modify. by rewrite Hcell.
Qed.

(** X12.  A [batch] of [push] queries with one selector that leads to an
    array puts the values after the elements of the array, in the order of
    the queries, and throws nothing. *)
Theorem batch_of_pushes_appends_in_order (data : Val) (selector : Selector)
    (queries : list JsonUpdateQuery) (s : State) (a : addr) (elems : list Val)
    (props : gmap string Val) :
  Forall (fun q => q_type q = TPush /\ q_selector q = selector) queries ->
  rs selector (heap s) data = VRef a ->
  heap s !! a = Some (HArray elems props) ->
  batch_loop data queries s =
    (Ok tt, with_heap (<[a := HArray (elems ++ map q_value queries) props]> (heap s)) s).
Proof.
  intros Hqueries. revert s elems.
  induction Hqueries as [| query queries [Htype Hselector] _ IH]; intros s elems Htarget Hcell.
  - simpl. by rewrite app_nil_r, list_insert_id, with_heap_same.
  - assert (a < length (heap s)) as Ha by (by eapply lookup_lt_Some).
    simpl. unfold bind.
    rewrite (batch_step_push data query s a elems props) by (by rewrite ?Hselector).
    rewrite (IH _ (elems ++ [q_value query])); simpl.
    + by rewrite list_insert_insert_eq, <- app_assoc.
    + unfold rs, recursiveSelect in *. by apply select_path_after_push.
    + by rewrite list_lookup_insert_eq.
Qed.

Lemma batch_of_pushes_appends_in_order_witness :
  let queries := [mkQuery TPush (SelString "a") "" (VNum 2%Z);
                  mkQuery TPush (SelString "a") "" (VNum 3%Z)] in
  Forall (fun q => q_type q = TPush /\ q_selector q = SelString "a") queries /\
  rs (SelString "a") (heap array_doc) (VRef 0) = VRef 1 /\
  heap array_doc !! 1 = Some (HArray [VNum 1%Z] ∅) /\
  batch_loop (VRef 0) queries array_doc =
    (Ok tt,
     with_heap (<[1 := HArray ([VNum 1%Z] ++ map q_value queries) ∅]> (heap array_doc))
       array_doc).
Proof.
  intros queries.
  assert (Forall (fun q => q_type q = TPush /\ q_selector q = SelString "a") queries)
    as Hqueries by (repeat constructor).
  split; [exact Hqueries |]. split; [reflexivity |]. split; [reflexivity |].
  apply (batch_of_pushes_appends_in_order (VRef 0) (SelString "a") queries array_doc 1
           [VNum 1%Z] ∅ Hqueries eq_refl eq_refl).
Defined.

(** ** set and get on a document held in memory *)

Lemma setDirect_in_memory (redisClient : bool) (uid : string) (selector : Selector)
    (key : string) (value : Val) (s : State) (a : addr) (props : gmap string Val) :
  uid ∉ mutex s ->
  selector_segments selector = [] ->
  inMemory s = VRef a ->
  heap s !! a = Some (HRecord props) ->
  setDirect redisClient (InMemory uid) (selector, key, value) s =
    (Ok VUndefined, with_heap (<[a := HRecord (<[key := value]> props)]> (heap s)) s).
Proof.
  intros Hfree Hroot Hdoc Hcell. unfold setDirect.
  eapply lockMethod_in_memory; [done | | reflexivity].
  unfold set_body, bind. rewrite getAllData_in_memory by (simpl; by rewrite Hdoc).
  unfold set_on, bind, gets; simpl.
  rewrite selector_or_empty_same. unfold rs, recursiveSelect. rewrite Hroot, Hdoc; simpl.
  rewrite Hcell; simpl. unfold assign, set_prop; simpl. rewrite Hcell. reflexivity.
Qed.

Lemma get_in_memory (redisClient : bool) (uid : string) (selector : Selector) (s : State) :
  truthy (inMemory s) = true ->
  get redisClient (InMemory uid) selector s = (Ok (rs selector (heap s) (inMemory s)), s).
Proof.
  intros Hdoc. unfold get, bind. by rewrite getAllData_in_memory.
Qed.

(** X13.  On a document in memory whose content is a plain object, [set]
    with an empty selector writes the key on that object and changes
    nothing else, and a [get] of the key then returns the value.  A [get]
    of any other key returns what it returned before the call, and for a
    key the object has itself that is the value the object holds.  The
    document is changed in place: [update] does nothing for it. *)
Theorem set_then_get_in_memory (redisClient : bool) (uid : string) (selector : Selector)
    (key : string) (value : Val) (s : State) (a : addr) (props : gmap string Val) :
  uid ∉ mutex s ->
  selector_segments selector = [] ->
  inMemory s = VRef a ->
  heap s !! a = Some (HRecord props) ->
  key <> "__proto__" ->
  let after := (setDirect redisClient (InMemory uid) (selector, key, value) s).2 in
  after = with_heap (<[a := HRecord (<[key := value]> props)]> (heap s)) s /\
  get redisClient (InMemory uid) (SelArray [key]) after = (Ok value, after) /\
  (forall other, other <> key ->
     (get redisClient (InMemory uid) (SelArray [other]) after).1 =
       (get redisClient (InMemory uid) (SelArray [other]) s).1) /\
  (forall other v, other <> key -> props !! other = Some v ->
     get redisClient (InMemory uid) (SelArray [other]) after = (Ok v, after)).
Proof.
  intros Hfree Hroot Hdoc Hcell _ after.
  assert (a < length (heap s)) as Ha by (by eapply lookup_lt_Some).
  assert (after = with_heap (<[a := HRecord (<[key := value]> props)]> (heap s)) s) as ->.
  { subst after. by erewrite setDirect_in_memory. }
  split; [reflexivity |].
  assert (forall k,
            get redisClient (InMemory uid) (SelArray [k])
              (with_heap (<[a := HRecord (<[key := value]> props)]> (heap s)) s) =
              (Ok (default VUndefined (<[key := value]> props !! k)),
               with_heap (<[a := HRecord (<[key := value]> props)]> (heap s)) s)) as Hget.
  { intros k. rewrite get_in_memory by (simpl; by rewrite Hdoc).
    unfold rs, recursiveSelect; simpl. rewrite Hdoc; simpl.
    by rewrite list_lookup_insert_eq. }
  assert (forall k,
            get redisClient (InMemory uid) (SelArray [k]) s =
              (Ok (default VUndefined (props !! k)), s)) as Hbefore.
  { intros k. rewrite get_in_memory by (by rewrite Hdoc).
    unfold rs, recursiveSelect; simpl. rewrite Hdoc; simpl. by rewrite Hcell. }
  split; [| split].
  - rewrite Hget. by rewrite lookup_insert_eq.
  - intros other Hother. rewrite Hget, Hbefore. by rewrite lookup_insert_ne.
  - intros other v Hother Hv. rewrite Hget. by rewrite lookup_insert_ne, Hv.
Qed.

Lemma set_then_get_in_memory_witness :
  let after :=
    (setDirect false (InMemory "mem:counter") (SelArray [], "counter", VNum 1%Z) counter_doc).2 in
  ("mem:counter" ∉ mutex counter_doc) /\
  selector_segments (SelArray []) = [] /\
  inMemory counter_doc = VRef 0 /\
  heap counter_doc !! 0 = Some (HRecord {[ "counter" := VNum 0%Z ]}) /\
  "counter" <> "__proto__" /\
  after =
    with_heap (<[0 := HRecord (<["counter" := VNum 1%Z]> {[ "counter" := VNum 0%Z ]})]>
                 (heap counter_doc)) counter_doc /\
  get false (InMemory "mem:counter") (SelArray ["counter"]) after = (Ok (VNum 1%Z), after) /\
  (forall other, other <> "counter" ->
     (get false (InMemory "mem:counter") (SelArray [other]) after).1 =
       (get false (InMemory "mem:counter") (SelArray [other]) counter_doc).1).
Proof.
  intros after.
  assert ("mem:counter" ∉ mutex counter_doc) as Hfree by (by apply nothing_held).
  assert ("counter" <> "__proto__") as Hkey by discriminate.
  split; [exact Hfree |]. split; [reflexivity |]. split; [reflexivity |].
  split; [reflexivity |]. split; [exact Hkey |].
  destruct (set_then_get_in_memory false "mem:counter" (SelArray []) "counter" (VNum 1%Z)
              counter_doc 0 {[ "counter" := VNum 0%Z ]} Hfree eq_refl eq_refl eq_refl Hkey)
    as (Hafter & Hget & Hothers & _).
  split; [exact Hafter |]. split; [exact Hget |]. exact Hothers.
Defined.

(** ** The dispatcher: every request gets its response *)

Lemma answers_bind {A : Type} (Q : Outcome Val -> Prop) (worker : nat) (id : Z) (m : M A)
    (k : A -> M unit) :
  (forall x, answers_with Q worker id (k x)) -> answers_with Q worker id (bind m k).
Proof.
  intros Hk s. unfold bind. destruct (m s) as [[x | e] s1]; [apply Hk |].
  left. by exists e, s1.
Qed.

Lemma answers_throw (Q : Outcome Val -> Prop) (worker : nat) (id : Z) (e : Exn) :
  answers_with Q worker id (throw e).
Proof. intros s. left. by exists e, s. Qed.

Lemma answers_send (Q : Outcome Val -> Prop) (worker : nat) (id : Z) (payload : Outcome Val) :
  Q payload -> answers_with Q worker id (worker_send worker (mkResponse id true payload)).
Proof. intros HQ s. right. by exists payload, s. Qed.

Lemma answers_result (Q : Outcome Val -> Prop) (worker : nat) (id : Z) (op : M Val) :
  (forall s v, (op s).1 = Ok v -> Q (Ok v)) ->
  answers_with Q worker id
    (result <- op ;; worker_send worker (mkResponse id true (Ok result))).
Proof.
  intros Hop s. unfold bind. destruct (op s) as [[v | e] s1] eqn:Hs.
  - right. exists (Ok v), s1. split; [reflexivity |]. apply (Hop s). by rewrite Hs.
  - left. by exists e, s1.
Qed.

Lemma caught_and_answered (Q : Outcome Val -> Prop) (worker : nat) (id : Z) (m : M unit)
    (s : State) :
  (forall e, Q (Throw e)) ->
  answers_with Q worker id m ->
  exists payload s1,
    try_catch m (fun error => worker_send worker (mkResponse id true (Throw error))) s =
      (Ok tt, with_outbox (outbox s1 ++ [(worker, mkResponse id true payload)]) s1) /\
    Q payload.
Proof.
  intros Hthrow Hm. unfold try_catch.
  destruct (Hm s) as [(e & s1 & ->) | (payload & s1 & -> & HQ)].
  - by exists (Throw e), s1.
  - by exists payload, s1.
Qed.

(** X14.  The listener of a worker never throws.  A message for this
    document is answered whatever it asks and whatever state the primary
    is in: the last thing the listener does is to send the worker that
    wrote a response marked finished with the [queryId] of the request.
    A message for another document changes nothing. *)
Theorem every_request_is_answered (redisClient : bool) (source : SourceType)
    (during_sleep : Wait -> nat -> State -> State) (generateQueryId : Z)
    (worker : nat) (msg : Request) (s : State) :
  let listener :=
    createWorkerListener redisClient source during_sleep generateQueryId worker msg in
  (request msg = uniqueEventId source ->
   exists payload s1,
     listener s =
       (Ok tt,
        with_outbox (outbox s1 ++ [(worker, mkResponse (req_queryId msg) true payload)]) s1)) /\
  (request msg <> uniqueEventId source -> listener s = (Ok tt, s)).
Proof.
  intros listener. subst listener. split.
  - intros Hmsg. unfold createWorkerListener. rewrite Hmsg, String.eqb_refl.
    match goal with
    | |- context [try_catch ?m _ s] =>
        destruct (caught_and_answered (fun _ => True) worker (req_queryId msg) m s)
          as (payload & s1 & Hrun & _); [done | | by exists payload, s1]
    end.
    do 4 (apply answers_bind; intros ?).
    destruct (query msg); cbn iota;
      repeat first
        [ apply answers_throw
        | apply answers_send; exact I
        | apply answers_result; intros; exact I
        | apply answers_bind; intros ?
        | match goal with |- answers_with _ _ _ (if ?b then _ else _) => destruct b end ].
  - intros Hother. unfold createWorkerListener.
    apply String.eqb_neq in Hother. rewrite Hother. reflexivity.
Qed.

(** X15.  A request that is neither a lock, nor a release, nor a [get] is
    answered [undefined] or an error, never anything else: the wrapped
    methods that serve [set], [push], [unshift], [pop], [shift],
    [splice], [removeItemFromArray], [updateItemInArray], [batch] and
    [updateJsonFromProvided] resolve to [undefined], and a type the
    dispatcher does not know is answered [undefined] as well.  The worker
    that called [pop] or [splice] is not sent what was taken out. *)
Theorem other_requests_are_answered_undefined (redisClient : bool) (source : SourceType)
    (during_sleep : Wait -> nat -> State -> State) (generateQueryId : Z)
    (worker : nat) (msg : Request) (s : State) :
  request msg = uniqueEventId source ->
  other_query (query msg) = true ->
  exists payload s1,
    createWorkerListener redisClient source during_sleep generateQueryId worker msg s =
      (Ok tt,
       with_outbox (outbox s1 ++ [(worker, mkResponse (req_queryId msg) true payload)]) s1) /\
    (payload = Ok VUndefined \/ exists e, payload = Throw e).
Proof.
  intros Hmsg Hother. unfold createWorkerListener. rewrite Hmsg, String.eqb_refl.
  apply (caught_and_answered
           (fun payload => payload = Ok VUndefined \/ exists e, payload = Throw e));
    [intros e; right; by exists e |].
  do 4 (apply answers_bind; intros ?).
  destruct (query msg); try discriminate; cbn iota;
    apply answers_result; intros s0 v Hv; left; f_equal;
    try (by eapply lockMethod_resolves_undefined).
  by injection Hv as <-.
Qed.

Lemma other_requests_are_answered_undefined_witness :
  let msg := mkRequest "doc" 7%Z (QPop (SelString "items")) None in
  request msg = uniqueEventId (InMemory "doc") /\
  other_query (query msg) = true /\
  exists payload s1,
    createWorkerListener false (InMemory "doc") (fun _ _ s => s) 42%Z 1 msg items_doc =
      (Ok tt, with_outbox (outbox s1 ++ [(1, mkResponse (req_queryId msg) true payload)]) s1) /\
    (payload = Ok VUndefined \/ exists e, payload = Throw e).
Proof.
  intros msg. split; [reflexivity |]. split; [reflexivity |].
  apply (other_requests_are_answered_undefined false (InMemory "doc") (fun _ _ s => s) 42%Z 1
           msg items_doc eq_refl eq_refl).
Defined.

(** ** The dispatcher: lock *)

Lemma lock_granted (redisClient : bool) (source : SourceType)
    (during_sleep : Wait -> nat -> State -> State) (generateQueryId : Z)
    (worker : nat) (id : Z) (timeout : Z) (presented : option Z) (s : State) :
  primaryLock_locked s = false ->
  lockId_set s = false ->
  createWorkerListener redisClient source during_sleep generateQueryId worker
    (mkRequest (uniqueEventId source) id (QLock timeout) presented) s =
    (Ok tt,
     with_outbox
       (outbox s ++ [(worker, mkResponse id true (Ok (VNum generateQueryId)))])
       (with_console (console s ++ [Log "Sending lock id"])
          (with_lockId (Some generateQueryId)
             (Some (if (timeout =? 0)%Z then 5000%Z else timeout)) s))).
Proof.
  intros Hprimary Hset. unfold createWorkerListener; simpl.
  rewrite String.eqb_refl.
  unfold try_catch, bind, gets, ret, throw, worker_send, setLockId, console_log, modify; simpl.
  rewrite Hprimary, Hset; simpl. by rewrite Hset.
Qed.

Lemma lock_asked_twice (redisClient : bool) (source : SourceType)
    (during_sleep : Wait -> nat -> State -> State) (generateQueryId : Z)
    (worker : nat) (id : Z) (timeout : Z) (presented : option Z) (s : State) :
  primaryLock_locked s = false ->
  lockId_set s = true ->
  presented = lockId s ->
  createWorkerListener redisClient source during_sleep generateQueryId worker
    (mkRequest (uniqueEventId source) id (QLock timeout) presented) s =
    (Ok tt,
     with_outbox
       (outbox s ++ [(worker, mkResponse id true (Throw (Error "you already have a lock")))])
       s).
Proof.
  intros Hprimary Hset Hown. unfold createWorkerListener; simpl.
  rewrite String.eqb_refl.
  unfold try_catch, bind, gets, ret, throw, worker_send, same_token, modify; simpl.
  rewrite Hprimary, Hset; simpl. rewrite bool_decide_eq_true_2 by done; simpl.
  rewrite Hset; simpl. by rewrite bool_decide_eq_true_2.
Qed.

(** X16.  A [lock] request for this document that reaches the dispatcher
    while the primary is not inside a transaction of its own.
    - No token is active: the dispatcher takes what [generateQueryId]
      returns for the token, arms the timer with the timeout of the
      request, or with 5000 when the request gives 0, and sends the token
      to the requester; nothing else changes.
    - The request presents the token that is active: the requester is sent
      the error "you already have a lock", and the token stays. *)
Theorem lock_request (redisClient : bool) (source : SourceType)
    (during_sleep : Wait -> nat -> State -> State) (generateQueryId : Z)
    (worker : nat) (id : Z) (timeout : Z) (presented : option Z) (s : State) :
  primaryLock_locked s = false ->
  let msg := mkRequest (uniqueEventId source) id (QLock timeout) presented in
  let r := createWorkerListener redisClient source during_sleep generateQueryId worker msg s in
  (lockId_set s = false ->
   r = (Ok tt,
        with_outbox
          (outbox s ++ [(worker, mkResponse id true (Ok (VNum generateQueryId)))])
          (with_console (console s ++ [Log "Sending lock id"])
             (with_lockId (Some generateQueryId)
                (Some (if (timeout =? 0)%Z then 5000%Z else timeout)) s)))) /\
  (lockId_set s = true -> presented = lockId s ->
   r = (Ok tt,
        with_outbox
          (outbox s ++ [(worker, mkResponse id true (Throw (Error "you already have a lock")))])
          s)).
Proof.
  intros Hprimary msg r. subst r msg. split.
  - intros Hset. by apply lock_granted.
  - intros Hset Hown. by apply lock_asked_twice.
Qed.

Lemma lock_request_witness :
  let msg := mkRequest (uniqueEventId (InMemory "mem:counter")) 99%Z (QLock 0%Z) None in
  let r := createWorkerListener false (InMemory "mem:counter") (fun _ _ s => s) 42%Z 1 msg
             counter_doc in
  primaryLock_locked counter_doc = false /\
  (lockId_set counter_doc = false ->
   r = (Ok tt,
        with_outbox
          (outbox counter_doc ++ [(1, mkResponse 99%Z true (Ok (VNum 42%Z)))])
          (with_console (console counter_doc ++ [Log "Sending lock id"])
             (with_lockId (Some 42%Z) (Some (if (0 =? 0)%Z then 5000%Z else 0%Z))
                counter_doc)))) /\
  (lockId_set counter_doc = true -> None = lockId counter_doc ->
   r = (Ok tt,
        with_outbox
          (outbox counter_doc ++
             [(1, mkResponse 99%Z true (Throw (Error "you already have a lock")))])
          counter_doc)).
Proof.
  intros msg r. split; [reflexivity |].
  apply (lock_request false (InMemory "mem:counter") (fun _ _ s => s) 42%Z 1 99%Z 0%Z None
           counter_doc eq_refl).
Defined.

(** X17.  A lock that was granted and is released by the token it was
    granted with: with a token other than 0, the [release] request is
    acknowledged with [true], and after the two requests no token is
    active and no timer is armed; what is left of the two is their lines
    on the console and their responses. *)
Theorem lock_then_release (redisClient : bool) (source : SourceType)
    (during_sleep : Wait -> nat -> State -> State) (generateQueryId : Z)
    (worker : nat) (id id' : Z) (timeout : Z) (presented : option Z) (s : State) :
  primaryLock_locked s = false ->
  lockId_set s = false ->
  generateQueryId <> 0%Z ->
  let listener := createWorkerListener redisClient source during_sleep generateQueryId worker in
  let locked := listener (mkRequest (uniqueEventId source) id (QLock timeout) presented) s in
  let released :=
    listener (mkRequest (uniqueEventId source) id' QRelease (Some generateQueryId)) locked.2 in
  lockId locked.2 = Some generateQueryId /\
  released =
    (Ok tt,
     with_outbox
       (outbox s ++ [(worker, mkResponse id true (Ok (VNum generateQueryId)));
                     (worker, mkResponse id' true (Ok (VBool true)))])
       (with_console (console s ++ [Log "Sending lock id"; Log "clearing lock"])
          (with_lockId None None s))).
Proof.
  intros Hprimary Hset Htoken listener locked released. subst released locked listener.
  rewrite lock_granted by done. split; [reflexivity |]. cbn [snd].
  rewrite release_with_own_token; [| done | | done].
  - simpl. by rewrite <- !app_assoc.
  - unfold lockId_set. simpl. by apply negb_true_iff, Z.eqb_neq.
Qed.

Lemma lock_then_release_witness :
  let listener := createWorkerListener false (InMemory "mem:counter") (fun _ _ s => s) 42%Z 1 in
  let locked := listener (mkRequest "mem:counter" 1%Z (QLock 5000%Z) None) counter_doc in
  let released := listener (mkRequest "mem:counter" 2%Z QRelease (Some 42%Z)) locked.2 in
  primaryLock_locked counter_doc = false /\
  lockId_set counter_doc = false /\
  42%Z <> 0%Z /\
  lockId locked.2 = Some 42%Z /\
  released =
    (Ok tt,
     with_outbox
       (outbox counter_doc ++ [(1, mkResponse 1%Z true (Ok (VNum 42%Z)));
                               (1, mkResponse 2%Z true (Ok (VBool true)))])
       (with_console (console counter_doc ++ [Log "Sending lock id"; Log "clearing lock"])
          (with_lockId None None counter_doc))).
Proof.
  intros listener locked released.
  assert (42%Z <> 0%Z) as Htoken by discriminate.
  split; [reflexivity |]. split; [reflexivity |]. split; [exact Htoken |].
  apply (lock_then_release false (InMemory "mem:counter") (fun _ _ s => s) 42%Z 1 1%Z 2%Z
           5000%Z None counter_doc eq_refl eq_refl Htoken).
Defined.

(** ** Waiting for a token that is not given up *)

(** A polling loop whose condition stays false gives up after the sleeps
    it was given, and that is all it did. *)
Lemma poll_exhausted (during_sleep : Wait -> nat -> State -> State) (w : Wait)
    (released : State -> bool) (on_release : M unit) (failure : string)
    (Inv : State -> Prop) (tries tryCount : nat) (s : State) :
  Inv s ->
  (forall n s', Inv s' -> Inv (during_sleep w n s')) ->
  (forall s', Inv s' -> released s' = false) ->
  poll during_sleep w released on_release failure tries tryCount s =
    (Throw (Error failure), after_sleeps during_sleep w tries tryCount s).
Proof.
  intros Hs Hsleep Hheld. revert tryCount s Hs.
  induction tries as [| tries IH]; intros tryCount s Hs; simpl; [reflexivity |].
  unfold bind, modify, gets; simpl.
  rewrite (Hheld _ (Hsleep tryCount s Hs)). apply IH. by apply Hsleep.
Qed.

Lemma after_sleeps_keeps (during_sleep : Wait -> nat -> State -> State) (w : Wait)
    (Inv : State -> Prop) (n tryCount : nat) (s : State) :
  Inv s ->
  (forall n s', Inv s' -> Inv (during_sleep w n s')) ->
  Inv (after_sleeps during_sleep w n tryCount s).
Proof.
  intros Hs Hsleep. revert tryCount s Hs.
  induction n as [| n IH]; intros tryCount s Hs; simpl; [exact Hs |].
  apply IH. by apply Hsleep.
Qed.

Lemma waitForLockIdRelease_in_vain (during_sleep : Wait -> nat -> State -> State)
    (s : State) :
  lockId_set s = true ->
  (forall w n s', lockId (during_sleep w n s') = lockId s') ->
  waitForLockIdRelease during_sleep s =
    (Throw (Error "Could not acquire lock for operation"),
     after_sleeps during_sleep ForLockId 30 0 s) /\
  lockId (after_sleeps during_sleep ForLockId 30 0 s) = lockId s.
Proof.
  intros Hset Hkept. split.
  - unfold waitForLockIdRelease.
    apply (poll_exhausted during_sleep ForLockId _ _ _ (fun s' => lockId s' = lockId s));
      [reflexivity | intros n s' Hs'; by rewrite Hkept |].
    intros s' Hs'. unfold lockId_set in *. rewrite Hs'. by rewrite Hset.
  - apply (after_sleeps_keeps during_sleep ForLockId (fun s' => lockId s' = lockId s));
      [reflexivity | intros n s' Hs'; by rewrite Hkept].
Qed.

(** X18.  While a token is active and is neither released nor expires, a
    request that does not present it is not served, whatever it asks: a
    lock is not granted, a mutation is not made, a [get] is not answered.
    The dispatcher sleeps 30 times, and then sends the requester the
    error "Could not acquire lock for operation"; the token is the one
    from before. *)
Theorem foreign_request_is_refused (redisClient : bool) (source : SourceType)
    (during_sleep : Wait -> nat -> State -> State) (generateQueryId : Z)
    (worker : nat) (msg : Request) (s : State) :
  request msg = uniqueEventId source ->
  primaryLock_locked s = false ->
  lockId_set s = true ->
  query_lockId msg <> lockId s ->
  (forall w n s', lockId (during_sleep w n s') = lockId s') ->
  let waited :=
    after_sleeps during_sleep ForLockId 30 0
      (with_console (console s ++ [Log "Waiting for a lock id to release"]) s) in
  createWorkerListener redisClient source during_sleep generateQueryId worker msg s =
    (Ok tt,
     with_outbox
       (outbox waited ++
          [(worker, mkResponse (req_queryId msg) true
                      (Throw (Error "Could not acquire lock for operation")))])
       waited) /\
  lockId waited = lockId s.
Proof.
  intros Hmsg Hprimary Hset Hforeign Hkept waited.
  destruct (waitForLockIdRelease_in_vain during_sleep
              (with_console (console s ++ [Log "Waiting for a lock id to release"]) s))
    as [Hwait Htoken]; [exact Hset | exact Hkept |].
  split; [| exact Htoken].
  unfold createWorkerListener. rewrite Hmsg, String.eqb_refl.
  rewrite primary_free_skips_wait by exact Hprimary.
  unfold try_catch, bind at 1, gets at 1, same_token at 1.
  rewrite Hset, bool_decide_eq_false_2 by done. cbn [andb negb].
  unfold bind at 1. unfold bind at 1, console_log at 1, modify at 1.
  rewrite Hwait. reflexivity.
Qed.

Lemma foreign_request_is_refused_witness :
  let msg := mkRequest "mem:counter" 7%Z
               (QSet (SelArray []) "counter" (VNum 5%Z)) None in
  let waited :=
    after_sleeps (fun _ _ s => s) ForLockId 30 0
      (with_console (console locked_by_worker ++ [Log "Waiting for a lock id to release"])
         locked_by_worker) in
  request msg = uniqueEventId (InMemory "mem:counter") /\
  primaryLock_locked locked_by_worker = false /\
  lockId_set locked_by_worker = true /\
  query_lockId msg <> lockId locked_by_worker /\
  (forall (w : Wait) (n : nat) (s' : State), lockId s' = lockId s') /\
  createWorkerListener false (InMemory "mem:counter") (fun _ _ s => s) 42%Z 2 msg
    locked_by_worker =
    (Ok tt,
     with_outbox
       (outbox waited ++
          [(2, mkResponse (req_queryId msg) true
                 (Throw (Error "Could not acquire lock for operation")))])
       waited) /\
  lockId waited = lockId locked_by_worker.
Proof.
  intros msg waited.
  assert (query_lockId msg <> lockId locked_by_worker) as Hforeign by discriminate.
  assert (forall (w : Wait) (n : nat) (s' : State), lockId s' = lockId s') as Hkept
    by reflexivity.
  split; [reflexivity |]. split; [reflexivity |]. split; [reflexivity |].
  split; [exact Hforeign |]. split; [exact Hkept |].
  apply (foreign_request_is_refused false (InMemory "mem:counter") (fun _ _ s => s) 42%Z 2 msg
           locked_by_worker eq_refl eq_refl eq_refl Hforeign Hkept).
Defined.

(** ** The transaction of the primary *)

(** X19.  [transaction] of the primary, on a document in a file or in
    memory and with no token of a worker active.  The callback runs with
    the primary marked as locked and the timer armed.  Whether it returns
    or throws, the mark and the timer are cleared afterwards, and the
    transaction ends as the callback did: an error of the callback is
    written to the console and thrown on to the caller. *)
Theorem primary_transaction (source : SourceType)
    (during_sleep : Wait -> nat -> State -> State) (cb : M unit) (timeout : Z) (s : State) :
  is_redis source = false ->
  lockId_set s = false ->
  let started :=
    with_primaryLock true (Some timeout)
      (with_console (console s ++ [Log "locking the primary"]) s) in
  let after_cb := cb started in
  let logged :=
    match after_cb.1 with
    | Throw error => with_console (console after_cb.2 ++ [LogError error]) after_cb.2
    | Ok _ => after_cb.2
    end in
  let r := transaction source during_sleep cb timeout s in
  primaryLock_locked started = true /\
  r = (after_cb.1,
       with_console (console logged ++ [Log "Releasing the primary"])
         (with_primaryLock false None logged)) /\
  primaryLock_locked r.2 = false /\
  primaryLock_timeout r.2 = None.
Proof.
  intros Hlocal Hset started after_cb logged r.
  assert (r = (after_cb.1,
               with_console (console logged ++ [Log "Releasing the primary"])
                 (with_primaryLock false None logged))) as Hr.
  { subst r logged after_cb started. unfold transaction, bind at 1, gets at 1.
    rewrite Hset. unfold bind at 1, ret at 1. unfold bind at 1.
    rewrite lockRedis_local by exact Hlocal.
    unfold bind at 1, setPrimaryLockId, bind at 1, modify at 1.
    unfold bind at 1, console_log at 1, modify at 1. unfold modify at 1.
    unfold try_finally, try_catch. cbn [fst snd].
    match goal with
    | |- context [cb ?x] =>
        change x with (with_primaryLock true (Some timeout)
                         (with_console (console s ++ [Log "locking the primary"]) s))
    end.
    destruct (cb _) as [[[] | error] s1]; simpl.
    - unfold bind, detached. rewrite releaseRedis_local by exact Hlocal. reflexivity.
    - unfold bind, detached, console_error, modify, throw; simpl.
      rewrite releaseRedis_local by exact Hlocal. reflexivity. }
  rewrite Hr. repeat split; reflexivity.
Qed.

Lemma primary_transaction_witness :
  let cb : M unit := throw (Error "the callback failed") in
  let r := transaction (InMemory "mem:counter") (fun _ _ s => s) cb 5000%Z counter_doc in
  is_redis (InMemory "mem:counter") = false /\
  lockId_set counter_doc = false /\
  r.1 = Throw (Error "the callback failed") /\
  console r.2 =
    [Log "locking the primary"; LogError (Error "the callback failed");
     Log "Releasing the primary"] /\
  primaryLock_locked r.2 = false /\
  primaryLock_timeout r.2 = None.
Proof.
  intros cb r.
  pose proof (primary_transaction (InMemory "mem:counter") (fun _ _ s => s) cb 5000%Z
                counter_doc eq_refl eq_refl) as (_ & Hr & Hlocked & Htimer).
  split; [reflexivity |]. split; [reflexivity |].
  fold r in Hr, Hlocked, Htimer.
  split; [by rewrite Hr |]. split; [by rewrite Hr |]. split; assumption.
Defined.

(** X20.  [transaction] of the primary while a worker holds a token that
    is neither released nor expires: the primary sleeps 30 times and then
    the transaction rejects with "Could not acquire lock for operation".
    The callback has not run, and the primary was never marked as
    locked. *)
Theorem primary_transaction_behind_a_token (source : SourceType)
    (during_sleep : Wait -> nat -> State -> State) (cb : M unit) (timeout : Z) (s : State) :
  lockId_set s = true ->
  (forall w n s', lockId (during_sleep w n s') = lockId s') ->
  transaction source during_sleep cb timeout s =
    (Throw (Error "Could not acquire lock for operation"),
     after_sleeps during_sleep ForLockId 30 0 s).
Proof.
  intros Hset Hkept.
  destruct (waitForLockIdRelease_in_vain during_sleep s Hset Hkept) as [Hwait _].
  unfold transaction, bind at 1, gets at 1. rewrite Hset.
  unfold bind at 1. by rewrite Hwait.
Qed.

Lemma primary_transaction_behind_a_token_witness :
  let cb : M unit := console_log "inside the transaction" in
  lockId_set locked_by_worker = true /\
  (forall (w : Wait) (n : nat) (s' : State), lockId s' = lockId s') /\
  transaction (InMemory "mem:counter") (fun _ _ s => s) cb 5000%Z locked_by_worker =
    (Throw (Error "Could not acquire lock for operation"),
     after_sleeps (fun _ _ s => s) ForLockId 30 0 locked_by_worker).
Proof.
  intros cb.
  assert (forall (w : Wait) (n : nat) (s' : State), lockId s' = lockId s') as Hkept
    by reflexivity.
  split; [reflexivity |]. split; [exact Hkept |].
  apply (primary_transaction_behind_a_token (InMemory "mem:counter") (fun _ _ s => s) cb
           5000%Z locked_by_worker eq_refl Hkept).
Defined.

(** ** The worker proxy: waiting for the response *)

Lemma waitForQueryNumber_passes (awaited : Z) (before later : list Response) :
  Forall (fun m => queryId m <> awaited \/ finished m = false) before ->
  waitForQueryNumber awaited (before ++ later) = waitForQueryNumber awaited later.
Proof.
  induction 1 as [| m before Hm _ IH]; simpl; [reflexivity |].
  destruct Hm as [Hid | Hfinished].
  - apply Z.eqb_neq in Hid. by rewrite Hid.
  - by rewrite Hfinished, andb_false_r.
Qed.

(** X21.  The wait for a response passes over every message that carries
    another [queryId] or is not marked finished.  The first message that
    carries the id and is finished settles the call, with the error or the
    result it carries, and what comes after it plays no part; when no such
    message comes before the timer is up the call rejects with
    ["Timeout"]. *)
Theorem waitForQueryNumber_first_match (awaited : Z) (before : list Response) :
  Forall (fun m => queryId m <> awaited \/ finished m = false) before ->
  waitForQueryNumber awaited before = Throw (Rejection "Timeout") /\
  (forall msg later,
     queryId msg = awaited -> finished msg = true ->
     waitForQueryNumber awaited (before ++ msg :: later) = payload msg).
Proof.
  intros Hbefore. split.
  - rewrite <- (app_nil_r before). by rewrite waitForQueryNumber_passes.
  - intros msg later Hid Hfinished. rewrite waitForQueryNumber_passes by done.
    simpl. rewrite Hid, Z.eqb_refl, Hfinished. reflexivity.
Qed.

Lemma waitForQueryNumber_first_match_witness :
  let before := [mkResponse 1%Z true (Ok (VNum 10%Z)); mkResponse 2%Z false (Ok (VNum 20%Z))] in
  let msg := mkResponse 2%Z true (Ok (VNum 21%Z)) in
  let later := [mkResponse 2%Z true (Ok (VNum 22%Z))] in
  Forall (fun m => queryId m <> 2%Z \/ finished m = false) before /\
  waitForQueryNumber 2%Z before = Throw (Rejection "Timeout") /\
  waitForQueryNumber 2%Z (before ++ msg :: later) = Ok (VNum 21%Z).
Proof.
  intros before msg later.
  assert (Forall (fun m => queryId m <> 2%Z \/ finished m = false) before) as Hbefore.
  { constructor; [left; discriminate |]. constructor; [right; reflexivity | constructor]. }
  split; [exact Hbefore |].
  destruct (waitForQueryNumber_first_match 2%Z before Hbefore) as [Htimeout Hfirst].
  split; [exact Htimeout |].
  apply (Hfirst msg later eq_refl eq_refl).
Defined.

(** ** A worker served by the primary *)

Lemma serve_snoc (redisClient : bool) (uid : string)
    (during_sleep : Wait -> nat -> State -> State) (generateQueryId : Z) (worker : nat)
    (requests : list Request) (msg : Request) (s : State) :
  serve redisClient (InMemory uid) during_sleep generateQueryId worker (requests ++ [msg]) s =
    (createWorkerListener redisClient (InMemory uid) during_sleep generateQueryId worker msg
       (serve redisClient (InMemory uid) during_sleep generateQueryId worker requests s)).2.
Proof. unfold serve. by rewrite fold_left_app. Qed.

Lemma received_one (worker : nat) (n : nat) (s : State) (r : Response) :
  n = length (outbox s) ->
  received_since worker n (with_outbox (outbox s ++ [(worker, r)]) s) = [r].
Proof.
  intros ->. unfold received_since; simpl.
  rewrite drop_app_length. simpl. by rewrite decide_True.
Qed.

(** One request of the proxy, answered by the listener with one response
    added to what the primary had sent before. *)
Lemma sendQuery_served (redisClient : bool) (uid : string)
    (during_sleep : Wait -> nat -> State -> State) (generateQueryId : Z) (worker : nat)
    (queryIds : nat -> Z) (s0 before after : State) (q : Query) (p : ProxyState)
    (payload : Outcome Val) :
  let msg := mkRequest uid (queryIds (length (sent p))) q (proxy_lockId p) in
  serve redisClient (InMemory uid) during_sleep generateQueryId worker (sent p) s0 = before ->
  outbox after = outbox before ->
  createWorkerListener redisClient (InMemory uid) during_sleep generateQueryId worker msg
    before =
    (Ok tt,
     with_outbox (outbox after ++ [(worker, mkResponse (req_queryId msg) true payload)]) after) ->
  sendQuery (InMemory uid) queryIds
    (served_by redisClient (InMemory uid) during_sleep generateQueryId worker s0) q p =
    (payload, mkProxy (proxy_lockId p) (sent p ++ [msg]) (proxy_console p)) /\
  serve redisClient (InMemory uid) during_sleep generateQueryId worker (sent p ++ [msg]) s0 =
    with_outbox (outbox after ++ [(worker, mkResponse (req_queryId msg) true payload)]) after.
Proof.
  intros msg Hbefore Houtbox Hserved. split.
  - unfold sendQuery. cbn [sent uniqueEventId]. fold msg. f_equal.
    unfold served_by. rewrite last_snoc, removelast_last, Hbefore.
    cbv zeta.
    change (serve redisClient (InMemory uid) during_sleep generateQueryId worker [msg] before)
      with (createWorkerListener redisClient (InMemory uid) during_sleep generateQueryId
              worker msg before).2.
    rewrite Hserved. cbn [snd]. rewrite <- Houtbox.
    rewrite received_one by reflexivity. simpl.
    by rewrite Z.eqb_refl.
  - by rewrite serve_snoc, Hbefore, Hserved.
Qed.

Lemma token_lets_through (presented : option Z) (s : State) :
  lockId_set s = false \/ presented = lockId s ->
  lockId_set s && negb (same_token presented (lockId s)) = false.
Proof.
  intros [Hset | Hown]; [by rewrite Hset |].
  unfold same_token. rewrite bool_decide_eq_true_2 by done. by rewrite andb_false_r.
Qed.

Lemma get_request_in_memory (redisClient : bool) (uid : string)
    (during_sleep : Wait -> nat -> State -> State) (generateQueryId : Z) (worker : nat)
    (id : Z) (selector : Selector) (presented : option Z) (s : State) :
  primaryLock_locked s = false ->
  lockId_set s = false \/ presented = lockId s ->
  truthy (inMemory s) = true ->
  createWorkerListener redisClient (InMemory uid) during_sleep generateQueryId worker
    (mkRequest uid id (QGet selector) presented) s =
    (Ok tt,
     with_outbox
       (outbox s ++ [(worker, mkResponse id true (Ok (rs selector (heap s) (inMemory s))))]) s).
Proof.
  intros Hprimary Hpass Hdoc. unfold createWorkerListener; cbn [request uniqueEventId].
  rewrite String.eqb_refl. rewrite primary_free_skips_wait by exact Hprimary.
  unfold try_catch, bind at 1, gets at 1. cbn [query_lockId].
  rewrite token_lets_through by exact Hpass.
  unfold bind at 1, ret at 1. cbn [query]. unfold bind at 1.
  rewrite getAllData_in_memory by exact Hdoc. reflexivity.
Qed.

Lemma set_request_in_memory (redisClient : bool) (uid : string)
    (during_sleep : Wait -> nat -> State -> State) (generateQueryId : Z) (worker : nat)
    (id : Z) (selector : Selector) (key : string) (value : Val)
    (presented : option Z) (s : State) (a : addr) (props : gmap string Val) :
  primaryLock_locked s = false ->
  lockId_set s = false \/ presented = lockId s ->
  uid ∉ mutex s ->
  selector_segments selector = [] ->
  inMemory s = VRef a ->
  heap s !! a = Some (HRecord props) ->
  createWorkerListener redisClient (InMemory uid) during_sleep generateQueryId worker
    (mkRequest uid id (QSet selector key value) presented) s =
    (Ok tt,
     with_outbox
       (outbox s ++ [(worker, mkResponse id true (Ok VUndefined))])
       (with_heap (<[a := HRecord (<[key := value]> props)]> (heap s)) s)).
Proof.
  intros Hprimary Hpass Hfree Hroot Hdoc Hcell.
  unfold createWorkerListener; cbn [request uniqueEventId].
  rewrite String.eqb_refl. rewrite primary_free_skips_wait by exact Hprimary.
  unfold try_catch, bind at 1, gets at 1. cbn [query_lockId].
  rewrite token_lets_through by exact Hpass.
  unfold bind at 1, ret at 1. cbn [query]. unfold bind at 1.
  rewrite (setDirect_in_memory redisClient uid selector key value s a props) by done.
  reflexivity.
Qed.

(** X22.  A worker runs a transaction that reads the value under a key
    and writes back what [f] makes of it, on a document in memory whose
    content is a plain object; no other worker sends anything, no token is
    active, and the token minted is not 0.  The proxy sends four requests:
    lock, get, set, release.  The primary answers them with the token, the
    value read, [undefined] and [true]; the transaction resolves; and in
    the primary the key holds the new value and no token is active. *)
Theorem worker_transaction_read_modify_write (redisClient : bool) (uid : string)
    (during_sleep : Wait -> nat -> State -> State) (generateQueryId : Z) (worker : nat)
    (queryIds : nat -> Z) (key : string) (f : Val -> Val) (timeout : Z)
    (p : ProxyState) (s : State) (a : addr) (props : gmap string Val) :
  sent p = [] ->
  primaryLock_locked s = false ->
  lockId_set s = false ->
  generateQueryId <> 0%Z ->
  uid ∉ mutex s ->
  inMemory s = VRef a ->
  heap s !! a = Some (HRecord props) ->
  key <> "__proto__" ->
  primitive (default VUndefined (props !! key)) = true ->
  primitive (f (default VUndefined (props !! key))) = true ->
  let old := default VUndefined (props !! key) in
  let answer := served_by redisClient (InMemory uid) during_sleep generateQueryId worker s in
  let r :=
    proxy_transaction (InMemory uid) queryIds answer
      (read_modify_write (InMemory uid) queryIds answer key f) timeout p in
  let final := serve redisClient (InMemory uid) during_sleep generateQueryId worker (sent r.2) s in
  r.1 = Ok tt /\
  map query (sent r.2) =
    [QLock timeout; QGet (SelArray [key]); QSet (SelArray []) key (f old); QRelease] /\
  map snd (drop (length (outbox s)) (outbox final)) =
    [mkResponse (queryIds 0) true (Ok (VNum generateQueryId));
     mkResponse (queryIds 1) true (Ok old);
     mkResponse (queryIds 2) true (Ok VUndefined);
     mkResponse (queryIds 3) true (Ok (VBool true))] /\
  heap final = <[a := HRecord (<[key := f old]> props)]> (heap s) /\
  lockId final = None.
Proof.
  intros Hsent Hprimary Hset Htoken Hfree Hdoc Hcell _ _ _ old answer r final.
  assert (a < length (heap s)) as Ha by (by eapply lookup_lt_Some).
  destruct p as [token requests lines]. simpl in Hsent. subst requests.
  assert (lockId_set (with_lockId (Some generateQueryId)
                        (Some (if (timeout =? 0)%Z then 5000%Z else timeout)) s) = true)
    as Hheld.
  { unfold lockId_set; simpl. by apply negb_true_iff, Z.eqb_neq. }
  (* lock *)
  set (s1 := with_console (console s ++ [Log "Sending lock id"])
               (with_lockId (Some generateQueryId)
                  (Some (if (timeout =? 0)%Z then 5000%Z else timeout)) s)).
  destruct (sendQuery_served redisClient uid during_sleep generateQueryId worker queryIds
              s s s1 (QLock timeout)
              (mkProxy token [] (lines ++ [Log "Acquiring lock"]))
              (Ok (VNum generateQueryId)))
    as [Hq0 Hs0]; [reflexivity | reflexivity | by apply lock_granted |].
  cbn [sent proxy_lockId proxy_console length app req_queryId] in Hq0, Hs0.
  set (m0 := mkRequest uid (queryIds 0) (QLock timeout) token) in *.
  set (served1 := with_outbox
                    (outbox s1 ++
                       [(worker, mkResponse (queryIds 0) true (Ok (VNum generateQueryId)))])
                    s1) in *.
  (* get *)
  destruct (sendQuery_served redisClient uid during_sleep generateQueryId worker queryIds
              s served1 served1 (QGet (SelArray [key]))
              (mkProxy (Some generateQueryId) [m0]
                 (lines ++ [Log "Acquiring lock"; Log "got lock id for lock"; Log "returning";
                            Log "Locked with id"]))
              (Ok old))
    as [Hq1 Hs1]; [exact Hs0 | reflexivity | |].
  { rewrite get_request_in_memory; [| exact Hprimary | by right | simpl; by rewrite Hdoc].
    cbn [req_queryId]. do 4 f_equal.
    unfold rs, recursiveSelect; simpl. rewrite Hdoc; simpl. by rewrite Hcell. }
  cbn [sent proxy_lockId proxy_console length app req_queryId] in Hq1, Hs1.
  set (m1 := mkRequest uid (queryIds 1) (QGet (SelArray [key])) (Some generateQueryId)) in *.
  set (served2 := with_outbox
                    (outbox served1 ++ [(worker, mkResponse (queryIds 1) true (Ok old))])
                    served1) in *.
  (* set *)
  set (h3 := <[a := HRecord (<[key := f old]> props)]> (heap s)).
  destruct (sendQuery_served redisClient uid during_sleep generateQueryId worker queryIds
              s served2 (with_heap h3 served2)
              (QSet (SelArray []) key (f old))
              (mkProxy (Some generateQueryId) [m0; m1]
                 (lines ++ [Log "Acquiring lock"; Log "got lock id for lock"; Log "returning";
                            Log "Locked with id"; Log "s"]))
              (Ok VUndefined))
    as [Hq2 Hs2]; [exact Hs1 | reflexivity | |].
  { rewrite (set_request_in_memory _ _ _ _ _ _ _ _ _ _ _ a props);
      [reflexivity | exact Hprimary | by right | exact Hfree | reflexivity | exact Hdoc
      | exact Hcell]. }
  cbn [sent proxy_lockId proxy_console length app req_queryId] in Hq2, Hs2.
  set (m2 := mkRequest uid (queryIds 2) (QSet (SelArray []) key (f old))
               (Some generateQueryId)) in *.
  set (served3 := with_outbox
                    (outbox (with_heap h3 served2) ++
                       [(worker, mkResponse (queryIds 2) true (Ok VUndefined))])
                    (with_heap h3 served2)) in *.
  (* release *)
  set (s4 := with_lockId None None
               (with_console (console served3 ++ [Log "clearing lock"]) served3)).
  destruct (sendQuery_served redisClient uid during_sleep generateQueryId worker queryIds
              s served3 s4 QRelease
              (mkProxy (Some generateQueryId) [m0; m1; m2]
                 (lines ++ [Log "Acquiring lock"; Log "got lock id for lock"; Log "returning";
                            Log "Locked with id"; Log "s"]))
              (Ok (VBool true)))
    as [Hq3 Hs3]; [exact Hs2 | reflexivity | |].
  { apply (release_with_own_token redisClient (InMemory uid) during_sleep generateQueryId worker
             (queryIds 3) (Some generateQueryId) served3);
      [exact Hprimary | exact Hheld | reflexivity]. }
  cbn [sent proxy_lockId proxy_console length app req_queryId] in Hq3, Hs3.
  set (m3 := mkRequest uid (queryIds 3) QRelease (Some generateQueryId)) in *.
  (* the transaction *)
  assert (r = (Ok tt,
               mkProxy (Some generateQueryId) [m0; m1; m2; m3]
                 (lines ++ [Log "Acquiring lock"; Log "got lock id for lock"; Log "returning";
                            Log "Locked with id"; Log "s"; Log "transaction finished for"])))
    as Hr.
  { subst r answer. unfold proxy_transaction, lock, release, read_modify_write, proxy_get,
      proxy_set.
    unfold bind at 1, proxy_log at 1, modify at 1. cbn [proxy_lockId sent proxy_console].
    unfold bind at 1. unfold bind at 1. rewrite Hq0.
    unfold bind at 1, modify at 1. cbn [proxy_lockId sent proxy_console number_or_undefined].
    unfold bind, proxy_log, modify, ret, try_finally, try_catch, proxy_error.
    cbn [proxy_lockId sent proxy_console fst snd].
    rewrite <- !app_assoc. cbn [app].
    rewrite Hq1. cbn [proxy_lockId sent proxy_console fst snd].
    rewrite <- !app_assoc. cbn [app].
    fold old. rewrite Hq2. cbn [proxy_lockId sent proxy_console fst snd].
    rewrite Hq3. cbn [proxy_lockId sent proxy_console fst snd].
    rewrite <- !app_assoc. reflexivity. }
  subst final. rewrite Hr. cbn [snd sent]. rewrite Hs3.
  repeat split.
  subst s4 served3 served2 served1 s1. cbn [outbox with_outbox with_lockId with_console with_heap].
  rewrite <- !app_assoc. by rewrite drop_app_length.
Qed.




(** The worker of [test.ts] adds 1 to the counter. *)
Lemma worker_transaction_read_modify_write_witness :
  let f := fun v => match v with VNum n => VNum (n + 1)%Z | _ => v end in
  let source := InMemory "mem:counter" in
  let answer := served_by false source (fun _ _ s => s) 42%Z 1 counter_doc in
  let r := proxy_transaction source Z.of_nat answer
             (read_modify_write source Z.of_nat answer "counter" f) 5000%Z fresh_proxy in
  let final := serve false source (fun _ _ s => s) 42%Z 1 (sent r.2) counter_doc in
  sent fresh_proxy = [] /\
  primaryLock_locked counter_doc = false /\
  lockId_set counter_doc = false /\
  42%Z <> 0%Z /\
  ("mem:counter" ∉ mutex counter_doc) /\
  inMemory counter_doc = VRef 0 /\
  heap counter_doc !! 0 = Some (HRecord {[ "counter" := VNum 0%Z ]}) /\
  "counter" <> "__proto__" /\
  r.1 = Ok tt /\
  map query (sent r.2) =
    [QLock 5000%Z; QGet (SelArray ["counter"]);
     QSet (SelArray []) "counter" (VNum 1%Z); QRelease] /\
  heap final = [HRecord {[ "counter" := VNum 1%Z ]}] /\
  lockId final = None.
Proof.
  intros f source answer r final.
  assert (42%Z <> 0%Z) as Htoken by discriminate.
  assert ("mem:counter" ∉ mutex counter_doc) as Hfree by (by apply nothing_held).
  assert ("counter" <> "__proto__") as Hkey by discriminate.
  destruct (worker_transaction_read_modify_write false "mem:counter" (fun _ _ s => s) 42%Z 1
              Z.of_nat "counter" f 5000%Z fresh_proxy counter_doc 0
              {[ "counter" := VNum 0%Z ]} eq_refl eq_refl eq_refl Htoken Hfree eq_refl eq_refl
              Hkey eq_refl eq_refl)
    as (Hok & Hsent & _ & Hheap & Hlock).
  repeat split; try assumption; try reflexivity.
Defined.

(** ** updateItemInArray on a match *)

Lemma updateItemInArray_on_hit (redisClient : bool) (source : SourceType) (data : Val)
    (selector : Selector) (item updatedItem : Val) (key : Key) (s : State) (a : addr)
    (elems : list Val) (props : gmap string Val) (n : nat) (x : Val) :
  rs selector (heap s) data = VRef a ->
  heap s !! a = Some (HArray elems props) ->
  elems !! n = Some x ->
  matches (heap s) strict_eq item key x = Ok true ->
  Forall (fun y => matches (heap s) strict_eq item key y = Ok false) (take n elems) ->
  let h := heap s in
  let written :=
    if String.eqb (typeof x) "object"
    then <[a := HArray (<[n := VRef (length h)]> elems) props]>
           (h ++ [HRecord (<["updatedItem" := updatedItem]> (spread h x))])
    else <[a := HArray (<[n := updatedItem]> elems) props]> h in
  updateItemInArray_on redisClient source data selector item updatedItem key s =
    (Ok (VBool true), (update redisClient source data (with_heap written s)).2).
Proof.
  intros Htarget Hcell Hn Hx Hbefore h written.
  pose proof (findIndex_first _ _ _ _ Hn Hx Hbefore) as Hfound.
  unfold updateItemInArray_on, bind, gets, lift; cbn -[findIndex].
  rewrite Htarget; cbn -[findIndex]. rewrite Hcell; cbn -[findIndex]. rewrite Hfound.
  assert ((Z.of_nat n =? -1)%Z = false) as -> by (apply Z.eqb_neq; lia).
  cbn -[findIndex typeof String.eqb]. rewrite Nat2Z.id, Hn. cbn [default from_option id].
  subst written. destruct (String.eqb (typeof x) "object").
  - unfold new_object, alloc, set_elements, modify, detached, ret; simpl.
    rewrite (lookup_app_l_Some _ _ _ _ Hcell). reflexivity.
  - unfold set_elements, modify, detached, ret; simpl. by rewrite Hcell.
Qed.

(** X23.  [updateItemInArray] with an element that matches, the first such
    element being at [n]; with a key, the elements up to that one have the
    key themselves, as the item does, with a value of the kind of the
    item's.  When the element found is an object (or [null]) it is
    replaced by a new object that has the own properties of the old one
    and, under the name [updatedItem], the update; when it is not, it is
    replaced by the update itself.  The other elements stay, the function
    under the wrapper returns [true], and for a document in memory nothing
    but the array has changed. *)
Theorem updateItemInArray_on_a_match (redisClient : bool) (source : SourceType) (data : Val)
    (selector : Selector) (item updatedItem : Val) (key : Key) (s : State) (a : addr)
    (elems : list Val) (props : gmap string Val) (n : nat) (x : Val) :
  rs selector (heap s) data = VRef a ->
  heap s !! a = Some (HArray elems props) ->
  elems !! n = Some x ->
  matches (heap s) strict_eq item key x = Ok true ->
  Forall (fun y => matches (heap s) strict_eq item key y = Ok false) (take n elems) ->
  (key_given key = true ->
   Forall (fun y => plain_comparison (heap s) item key y = true) (take (S n) elems)) ->
  let h := heap s in
  let written :=
    if String.eqb (typeof x) "object"
    then <[a := HArray (<[n := VRef (length h)]> elems) props]>
           (h ++ [HRecord (<["updatedItem" := updatedItem]> (spread h x))])
    else <[a := HArray (<[n := updatedItem]> elems) props]> h in
  let r := updateItemInArray_on redisClient source data selector item updatedItem key s in
  r.1 = Ok (VBool true) /\
  heap r.2 = written /\
  (forall uniqueIdentifier, source = InMemory uniqueIdentifier -> r.2 = with_heap written s).
Proof.
  intros Htarget Hcell Hn Hx Hbefore _ h written r. subst r.
  rewrite (updateItemInArray_on_hit redisClient source data selector item updatedItem key s a
             elems props n x Htarget Hcell Hn Hx Hbefore).
  fold h. fold written. cbn [fst snd].
  split; [reflexivity |]. split.
  - by rewrite update_keeps_heap.
  - by intros uniqueIdentifier ->.
Qed.

Lemma updateItemInArray_on_a_match_witness :
  let h := heap users_doc in
  let r := updateItemInArray_on false (InMemory "doc") (VRef 0) (SelString "users") (VRef 3)
             (VRef 4) (KeyString "id") users_doc in
  rs (SelString "users") h (VRef 0) = VRef 1 /\
  h !! 1 = Some (HArray [VRef 2] ∅) /\
  [VRef 2] !! 0 = Some (VRef 2) /\
  matches h strict_eq (VRef 3) (KeyString "id") (VRef 2) = Ok true /\
  Forall (fun y => matches h strict_eq (VRef 3) (KeyString "id") y = Ok false)
    (take 0 [VRef 2]) /\
  (key_given (KeyString "id") = true ->
   Forall (fun y => plain_comparison h (VRef 3) (KeyString "id") y = true) (take 1 [VRef 2])) /\
  r.1 = Ok (VBool true) /\
  heap r.2 =
    <[1 := HArray [VRef 5] ∅]>
      (h ++ [HRecord {[ "id" := VNum 1%Z; "name" := VStr "a"; "updatedItem" := VRef 4 ]}]).
Proof.
  intros h r.
  assert (Forall (fun y => matches h strict_eq (VRef 3) (KeyString "id") y = Ok false)
            (take 0 [VRef 2])) as Hbefore by constructor.
  assert (key_given (KeyString "id") = true ->
          Forall (fun y => plain_comparison h (VRef 3) (KeyString "id") y = true)
            (take 1 [VRef 2])) as Hplain.
  { intros _. repeat constructor. }
  split; [reflexivity |]. split; [reflexivity |]. split; [reflexivity |].
  split; [reflexivity |]. split; [exact Hbefore |]. split; [exact Hplain |].
  destruct (updateItemInArray_on_a_match false (InMemory "doc") (VRef 0) (SelString "users")
              (VRef 3) (VRef 4) (KeyString "id") users_doc 1 [VRef 2] ∅ 0 (VRef 2)
              eq_refl eq_refl eq_refl eq_refl Hbefore Hplain) as (Hresult & Hheap & _).
  split; [exact Hresult |].
  etrans; [exact Hheap | reflexivity].
Defined.

(** ** getAllData *)

(** X24.  [getAllData] never resolves to a value that counts as false:
    what it read is handed on when it counts as true, and otherwise a new
    empty object takes its place.  For a document in a file that is not
    there, or that holds [null], [false], [0] or the empty string, the
    result is a new empty object and nothing else changes. *)
Theorem getAllData_is_never_falsy (redisClient : bool) (source : SourceType) (s : State) :
  (forall v, (getAllData redisClient source s).1 = Ok v -> truthy v = true) /\
  (forall fileFullPath,
     source = JsonFile fileFullPath ->
     files s !! fileFullPath = None \/
     (exists text, files s !! fileFullPath = Some text /\
                   (text = JNull \/ text = JBool false \/ text = JNum 0%Z \/ text = JStr "")) ->
     getAllData redisClient source s =
       (Ok (VRef (length (heap s))), with_heap (heap s ++ [HRecord ∅]) s)).
Proof.
  split.
  - intros v. unfold getAllData. unfold bind at 1.
    match goal with
    | |- context [match ?m s with _ => _ end] => destruct (m s) as [[result | e] s1]
    end; [| discriminate].
    destruct (truthy result) eqn:Hresult.
    + by intros [= <-].
    + unfold new_object, alloc. simpl. by intros [= <-].
  - intros path -> Hcontent.
    unfold getAllData, fs_exists, fs_readFile, parse, new_object, alloc, bind, gets, ret.
    cbv beta iota.
    destruct Hcontent as [Hmissing | (text & Hfile & Htext)].
    + rewrite bool_decide_eq_false_2 by (rewrite Hmissing; by intros [? ?]). reflexivity.
    + rewrite bool_decide_eq_true_2 by (rewrite Hfile; by eexists).
      cbv beta iota. rewrite Hfile.
      destruct Htext as [-> | [-> | [-> | ->]]]; reflexivity.
Qed.

(** ** makeDynamicJson in the primary *)

(** X25.  [makeDynamicJson] in the primary, for a document in a file.  A
    file that is there is left as it is, whatever the initial content;
    without initial content no file is made; and a file that is not there
    is written with the text of the initial content.  In each case the
    document of the primary is returned. *)
Theorem makeDynamicJson_seeds_a_file_once (manager : Manager) (fileFullPath : string)
    (initialContent : Val) (s : State) :
  let r := makeDynamicJson manager true (JsonFile fileFullPath) initialContent s in
  (is_Some (files s !! fileFullPath) \/ truthy initialContent = false ->
   r.1 = Ok (AuthorityDocument (JsonFile fileFullPath)) /\ files r.2 = files s) /\
  (forall text,
     files s !! fileFullPath = None ->
     truthy initialContent = true ->
     JSON_stringify (heap s) initialContent = Ok (Some text) ->
     r.1 = Ok (AuthorityDocument (JsonFile fileFullPath)) /\
     files r.2 = <[fileFullPath := text]> (files s)).
Proof.
  intros r. subst r. unfold makeDynamicJson. cbn [is_redis andb].
  unfold bind, modify, gets, ret, fs_exists, stringify, fs_writeFile, new_object, alloc.
  split.
  - intros [Hthere | Hnone].
    + destruct (truthy initialContent); simpl;
        rewrite ?bool_decide_eq_true_2 by exact Hthere; by split.
    + rewrite Hnone. by split.
  - intros text Hmissing Hcontent Htext. rewrite Hcontent. simpl.
    rewrite bool_decide_eq_false_2 by (rewrite Hmissing; by intros [? ?]). simpl.
    rewrite Htext. by split.
Qed.

(** X26.  [makeDynamicJson] in the primary, for a document in memory.  The
    document is the very object that was passed as initial content, not a
    copy of it, or a new empty object when none was passed or what was
    passed counts as false; so the document never counts as false, and
    [get] with an empty selector returns that object itself. *)
Theorem makeDynamicJson_in_memory (manager : Manager) (uid : string) (initialContent : Val)
    (s : State) :
  let r := makeDynamicJson manager true (InMemory uid) initialContent s in
  r.1 = Ok (AuthorityDocument (InMemory uid)) /\
  inMemory r.2 =
    (if truthy initialContent then initialContent else VRef (length (heap s))) /\
  heap r.2 = (if truthy initialContent then heap s else heap s ++ [HRecord ∅]) /\
  truthy (inMemory r.2) = true /\
  get (m_redisClient manager) (InMemory uid) (SelArray []) r.2 = (Ok (inMemory r.2), r.2).
Proof.
  intros r. subst r. unfold makeDynamicJson. cbn [is_redis andb].
  unfold bind, modify, ret, new_object, alloc.
  destruct (truthy initialContent) eqn:Hcontent; simpl; repeat split; try done;
    by rewrite get_in_memory.
Qed.

(** ** Calls in flight on a document held in memory *)

(** X27.  Two wrapped calls on a document in memory, the second made
    while the first is in flight or after it.  The second waits for the
    named lock; each method has run to its end when its wrapper returns;
    and the state in the end is the one that the first method followed by
    the second leaves.  The second call cannot go on before the first has
    passed the lock. *)
Theorem in_memory_calls_act_in_call_order (redisClient : bool) (uid : string) (s : State)
    (f g : Val -> M Val) :
  let source := InMemory uid in
  let first := run_method redisClient source (mkCall f NotCalled NotStarted) s in
  let second := run_method redisClient source (mkCall g NotCalled NotStarted) first.2 in
  (forall trace,
     trace = [Invoke 0; Invoke 1; LockRedisSettled 0; LockRedisSettled 1] \/
     trace = [Invoke 0; LockRedisSettled 0; Invoke 1; LockRedisSettled 1] ->
     exists p,
       run redisClient source trace (two_calls s f g) = Some p /\
       state p = second.2 /\
       map body (calls p) = [BodySettled first.1; BodySettled second.1] /\
       map wrapper (calls p) = [WrapperSettled (Ok VUndefined); WrapperSettled (Ok VUndefined)] /\
       holder p = None) /\
  run redisClient source [Invoke 0; Invoke 1; LockRedisSettled 1] (two_calls s f g) = None.
Proof.
  intros source first second. subst second first source. split; [| reflexivity].
  unfold run_method at 1 2 3 4; cbn [after_load].
  destruct ((data <- getAllData redisClient (InMemory uid) ;; f data) s) as [r1 s1] eqn:Hf.
  destruct ((data <- getAllData redisClient (InMemory uid) ;; g data) s1) as [r2 s2] eqn:Hg.
  intros trace [-> | ->]; unfold two_calls; simpl;
    rewrite lockRedis_local by reflexivity; unfold run_method;
    cbn [after_load set_wrapper]; rewrite Hf; cbn [fst snd];
    rewrite releaseRedis_local by reflexivity; simpl;
    rewrite lockRedis_local by reflexivity; unfold run_method;
    cbn [after_load set_wrapper]; rewrite Hg; cbn [fst snd];
    rewrite releaseRedis_local by reflexivity; simpl;
    eexists; repeat split.
Qed.

(** ** A document in a file: what was written is read back *)




















(** ** utils/lockMethod *)

(** X29.  A method wrapped by the [lockMethod] of [utils/lockMethod], called
    with the name free and while nothing else is in flight on it.  The
    method runs with the name held, the call ends as the method ends, with
    its result or with its error, and the name is free again afterwards,
    also when the method threw.  When the method leaves the table of
    names as it found it, the table is after the call what it was
    before. *)
Theorem LockMethod_passes_the_outcome {T : Type} (method : T -> M Val) (lockName : string)
    (lockTimeout : Z) (args : T) (s : State) :
  lockName ∉ mutex s ->
  let r := LockMethod method lockName lockTimeout args s in
  let inside := method args (with_mutex ({[lockName]} ∪ mutex s) s) in
  r = (inside.1, with_mutex (mutex inside.2 ∖ {[lockName]}) inside.2) /\
  (lockName ∉ mutex r.2) /\
  (mutex inside.2 = {[lockName]} ∪ mutex s -> mutex r.2 = mutex s).
Proof.
  intros Hfree r inside. subst r inside. unfold LockMethod.
  rewrite AsyncLock_acquire_free by done.
  destruct (method args _) as [outcome s']. split; [reflexivity |]. simpl. split.
  - rewrite elem_of_difference, elem_of_singleton. by intros [_ ?].
  - intros ->. by apply mutex_taken_and_freed.
Qed.

Lemma LockMethod_passes_the_outcome_witness :
  let method : Val -> M Val := fun v => if truthy v then ret v else throw (Error "no value") in
  ("doc" ∉ mutex counter_doc) /\
  LockMethod method "doc" 10000%Z (VNum 7%Z) counter_doc = (Ok (VNum 7%Z), counter_doc) /\
  LockMethod method "doc" 10000%Z VNull counter_doc = (Throw (Error "no value"), counter_doc).
Proof.
  intros method.
  assert ("doc" ∉ mutex counter_doc) as Hfree by (by apply nothing_held).
  split; [exact Hfree |].
  destruct (LockMethod_passes_the_outcome method "doc" 10000%Z (VNum 7%Z) counter_doc Hfree)
    as (Hresult & _ & _).
  destruct (LockMethod_passes_the_outcome method "doc" 10000%Z VNull counter_doc Hfree)
    as (Hfailure & _ & _).
  split; [exact Hresult | exact Hfailure].
Defined.

(** ** A document in the store is read as text *)

Lemma pretty_N_go_not_empty (x : N) (s : string) : s <> "" -> pretty_N_go x s <> "".
Proof.
  revert s. induction (N.lt_wf_0 x) as [x _ IH]. intros s Hs.
  destruct (decide (x = 0)%N) as [-> | Hx]; [by rewrite pretty_N_go_0 |].
  rewrite pretty_N_go_step by lia. apply IH; [apply N.div_lt; lia | discriminate].
Qed.

Lemma JSON_text_not_empty (j : Json) : JSON_text j <> "".
Proof.
  destruct j as [| [|] | n | str | items | fields]; simpl; try discriminate.
  destruct n as [| p | p]; [discriminate | | discriminate].
  unfold pretty, pretty_Z, pretty, pretty_positive, pretty, pretty_N.
  rewrite decide_False by discriminate. rewrite pretty_N_go_step by lia.
  by apply pretty_N_go_not_empty.
Qed.

Lemma getAllData_of_the_store (uid : string) (text : Json) (s : State) :
  redis_store s !! uid = Some text ->
  getAllData true (Redis uid) s = (Ok (VStr (JSON_text text)), s).
Proof.
  intros Hstored. unfold getAllData, redis_get, bind, gets, ret. cbn [uniqueEventId].
  rewrite Hstored. cbn [truthy].
  pose proof (JSON_text_not_empty text) as Htext. apply String.eqb_neq in Htext.
  by rewrite Htext.
Qed.

(** X30.  A document in the store whose key holds a text.  [getAllData]
    hands on the text as the client returned it, a string, without parsing
    it.  With an empty selector [get] returns that string, and the
    functions under the wrappers of [set], [push], [unshift], [pop] and
    [shift] find no object and no array: they return [false], and neither
    the store nor anything else is changed. *)
Theorem store_document_is_read_as_text (uid : string) (text : Json) (selector : Selector)
    (s : State) :
  redis_store s !! uid = Some text ->
  selector_segments selector = [] ->
  let source := Redis uid in
  get true source selector s = (Ok (VStr (JSON_text text)), s) /\
  (forall key value, set_body true source (selector, key, value) s = (Ok (VBool false), s)) /\
  (forall value, push_body true source (selector, value) s = (Ok (VBool false), s)) /\
  (forall value, unshift_body true source (selector, value) s = (Ok (VBool false), s)) /\
  pop_body true source selector s = (Ok (VBool false), s) /\
  shift_body true source selector s = (Ok (VBool false), s).
Proof.
  intros Hstored Hroot source. subst source.
  pose proof (getAllData_of_the_store uid text s Hstored) as Hload.
  assert (forall h data, rs selector h data = data) as Hrs.
  { intros h data. unfold rs, recursiveSelect. by rewrite Hroot. }
  repeat split; intros;
    unfold get, set_body, push_body, unshift_body, pop_body, shift_body, bind;
    rewrite Hload;
    unfold set_on, push_on, unshift_on, pop_on, shift_on, bind, gets, ret;
    rewrite ?selector_or_empty_same, Hrs; reflexivity.
Qed.

Lemma store_document_is_read_as_text_witness :
  let source := Redis "doc" in
  redis_store store_doc !! "doc" = Some (JObj [("a", JNum 1%Z)]) /\
  selector_segments (SelArray []) = [] /\
  get true source (SelArray []) store_doc =
    (Ok (VStr (JSON_text (JObj [("a", JNum 1%Z)]))), store_doc) /\
  (forall key value,
     set_body true source (SelArray [], key, value) store_doc = (Ok (VBool false), store_doc)) /\
  (forall value,
     push_body true source (SelArray [], value) store_doc = (Ok (VBool false), store_doc)) /\
  (forall value,
     unshift_body true source (SelArray [], value) store_doc =
       (Ok (VBool false), store_doc)) /\
  pop_body true source (SelArray []) store_doc = (Ok (VBool false), store_doc) /\
  shift_body true source (SelArray []) store_doc = (Ok (VBool false), store_doc).
Proof.
  intros source. split; [reflexivity |]. split; [reflexivity |].
  apply (store_document_is_read_as_text "doc" (JObj [("a", JNum 1%Z)]) (SelArray []) store_doc
           eq_refl eq_refl).
Defined.
